(** * City generator and traffic simulator of app.js: a shallow embedding

    Numbers.  JavaScript has one number type, the IEEE double.  The model
    splits it by use:
    - the generator state and every 32-bit intermediate value are [Z], with the
      conversions ToInt32 / ToUint32 written out;
    - every value that the code obtains from the draws by [+], [-], [*], [/],
      [Math.floor], [Math.round] and [%] is an exact rational ([Q]);
    - the results of [Math.pow], [Math.cos] and [Math.sin] are real numbers
      ([R], with [Rpower], [cos] and [sin]).
    The city, the traffic and the page are computed in this exact
    arithmetic, without the rounding of the doubles.  The rounding itself is
    the function [Double.round], to the nearest double with ties to the
    even one, and [Rng64] is the generator with every operation rounded:
    the contract of the generator and the statements about seeds and call
    counts are about [Rng64].  The closure variable of the generator grows
    by 0x6D2B79F5 with every call; a double holds it exactly as long as it
    stays below 2^53, which is so for 4.9 million calls from a 32-bit seed,
    and with integer bounds below 2^20 no operation of [randRange] and
    [randInt] rounds ([exact_model_agrees] below), so that there [Rng] and
    [Rng64] are one generator.

    Effects.  The draws thread the closure variable through a state monad;
    [updateTraffic] maps the city to the next city; [disposeCity] appends
    the calls that reach the library to a log.  The globals of the page are
    the fields of a record [World]; a handler, [animate] and the functions
    they call map a world to the next one, and the results of
    [Math.random()] and of the clock are their arguments. *)

From Stdlib Require Import String.
From Stdlib Require Import ZArith QArith Qround Qminmax Qabs Qpower.
From Stdlib Require Import List Lia Psatz.
From Stdlib Require SpecFloat.
From Stdlib Require Import Reals Qreals.
Import ListNotations.

Set Warnings "-register-all".
Local Open Scope Z_scope.

(** ** The sequence generator (app.js, lines 5-14) *)

Module Rng.

(** ToUint32 and ToInt32 of an integral number. *)
Definition ToUint32 (x : Z) : Z := x mod 4294967296.

Definition ToInt32 (x : Z) : Z :=
  let u := ToUint32 x in
  if u <? 2147483648 then u else u - 4294967296.

(** [a ^ b], [a | b]: both operands through ToInt32, the result an int32. *)
Definition xor32 (a b : Z) : Z := Z.lxor (ToInt32 a) (ToInt32 b).
Definition or32 (a b : Z) : Z := Z.lor (ToInt32 a) (ToInt32 b).

(** [a >>> n]: the operand through ToUint32, the result a uint32. *)
Definition ushr (a n : Z) : Z := Z.shiftr (ToUint32 a) n.

(** [Math.imul(a, b)]. *)
Definition imul (a b : Z) : Z := ToInt32 (ToUint32 a * ToUint32 b).

(** The closure variable [seed] is a plain number: [seed += 0x6D2B79F5] adds
    without wrapping, and the bit operations wrap what they read.  This is
    the exact sum; [Rng64.advance] below is the sum as a double has it, the
    same as long as it is below 2^53. *)
Definition advance (seed : Z) : Z := seed + 1831565813.

(** The body of the closure after [let t = seed += 0x6D2B79F5]: the uint32
    that is divided by 4294967296. *)
Definition mix (t0 : Z) : Z :=
  let t1 := imul (xor32 t0 (ushr t0 15)) (or32 t0 1) in
  let t2 := xor32 t1 (t1 + imul (xor32 t1 (ushr t1 7)) (or32 t1 61)) in
  ushr (xor32 t2 (ushr t2 14)) 0.

(** One call [rng()]: the value returned and the new value of [seed]. *)
Definition next (seed : Z) : Q * Z :=
  let s := advance seed in
  (mix s # 4294967296, s).

(** [randRange(rng, a, b)] and [randInt(rng, a, b)] in exact arithmetic;
    [Rng64.randRange] and [Rng64.randInt] below round every operation, and
    are the same for the integer bounds of the program. *)
Definition randRange (a b : Q) (seed : Z) : Q * Z :=
  let (u, s) := next seed in
  ((a + (b - a) * u)%Q, s).

Definition randInt (a b : Z) (seed : Z) : Z * Z :=
  let (v, s) := randRange (inject_Z a) (inject_Z (b + 1)) seed in
  (Qfloor v, s).

End Rng.

(** ** A state monad for code that draws from the closure [rng] *)

Definition Gen (A : Type) : Type := Z -> A * Z.

Definition ret {A} (a : A) : Gen A := fun s => (a, s).

Definition bind {A B} (m : Gen A) (k : A -> Gen B) : Gen B :=
  fun s => let (a, s') := m s in k a s'.

Declare Scope gen_scope.
Delimit Scope gen_scope with gen.
Notation "x <- m ;; k" := (bind m (fun x => k))
  (at level 61, m at next level, right associativity) : gen_scope.

(** ** Numbers of the host language *)

(** [Math.round]: to the nearest integer, halves upwards.  The function
    rounds a double exactly; a product in its argument is an exact product
    in the model of the city and a rounded one, [Double.mul], in the
    code.  The two are equal for a density such as 1, 0.5 or 1.25
    ([density_products_exact] below). *)
Definition Math_round (x : Q) : Z := Qfloor (x + (1 # 2)).

(** [Math.pow] at a positive base. *)
Definition Math_pow (x y : Q) : R := Rpower (Q2R x) (Q2R y).

(** [x % 1]: the remainder has the sign of the dividend. *)
Definition Qtrunc (x : Q) : Z := if Qlt_le_dec x 0 then Qceiling x else Qfloor x.
Definition mod1 (x : Q) : Q := (x - inject_Z (Qtrunc x))%Q.

(** ** Binary64

    A finite double is 0 or a number m * 2^e with an integer m below 2^53
    in magnitude and e from -1074 upwards.  An operation of the code on
    doubles is the exact operation followed by [round], to the nearest
    double, a tie to the one with the even m.  A result of magnitude 2^1024
    or more is [Infinity] in the code, and a division by 0 gives [Infinity]
    or [NaN]; the statements below keep away from both.  The doubles are
    given by their exact values, as rationals, so that the two zeros are
    one. *)

Module Double.

(** The integer [k] with 2^k <= x < 2^(k+1), for a positive [x]. *)
Definition ilog2 (x : Q) : Z :=
  let l := Z.log2 (Qnum x) - Z.log2 (Zpos (Qden x)) in
  if Qle_bool (2 ^ l)%Q x then l else l - 1.

(** To the nearest integer, a half to the even one. *)
Definition rne (q : Q) : Z :=
  let f := Qfloor q in
  match (q - inject_Z f ?= 1 # 2)%Q with
  | Lt => f
  | Gt => f + 1
  | Eq => if Z.even f then f else f + 1
  end.

(** The exponent of the last place of the doubles around [x]: 52 below
    that of [x], and -1074 for the subnormal numbers. *)
Definition exponent (x : Q) : Z := Z.max (ilog2 (Qabs x) - 52) (-1074).

Definition round (x : Q) : Q :=
  if Qeq_bool x 0 then 0%Q
  else (inject_Z (rne (x / 2 ^ exponent x)) * 2 ^ exponent x)%Q.

Definition add (x y : Q) : Q := round (x + y).
Definition sub (x y : Q) : Q := round (x - y).
Definition mul (x y : Q) : Q := round (x * y).
Definition div (x y : Q) : Q := round (x / y).

End Double.

(** ** The sequence generator in binary64 (app.js, lines 5-14) *)

Module Rng64.

(** [seed += 0x6D2B79F5] on a double that holds an integer: the sum is
    rounded, and a rounded integer is an integer. *)
Definition advance (seed : Z) : Z :=
  Qfloor (Double.add (inject_Z seed) 1831565813).

(** One call [rng()]: the bit operations read the integer modulo 2^32, as
    [Rng.mix] has it; the division is a division of doubles. *)
Definition next (seed : Z) : Q * Z :=
  let s := advance seed in
  (Double.div (inject_Z (Rng.mix s)) 4294967296, s).

(** [a + (b - a) * rng()] and [Math.floor(randRange(rng, a, b + 1))]. *)
Definition randRange (a b : Q) (seed : Z) : Q * Z :=
  let (u, s) := next seed in
  (Double.add a (Double.mul (Double.sub b a) u), s).

Definition randInt (a b : Z) (seed : Z) : Z * Z :=
  let (v, s) := randRange (inject_Z a) (Double.add (inject_Z b) 1) seed in
  (Qfloor v, s).

End Rng64.

(** ** The specification of IEEE 754 in the Standard Library *)

(** The double m * 2^e in the Standard Library's specification of IEEE 754
    (precision 53, largest exponent 1024), and the value of a finite
    number of that specification. *)
Definition toSF (m e : Z) : SpecFloat.spec_float :=
  SpecFloat.binary_normalize 53 1024 m e false.

Definition ofSF (f : SpecFloat.spec_float) : option Q :=
  match f with
  | SpecFloat.S754_zero _ => Some 0%Q
  | SpecFloat.S754_finite s m e =>
      Some (inject_Z (if s then Z.neg m else Z.pos m) * 2 ^ e)%Q
  | _ => None
  end.

(** The number m * 2^e. *)
Definition dyadic (m e : Z) : Q := (inject_Z m * 2 ^ e)%Q.

(** [op] of the specification and [op'] of [Double] give one number at the
    doubles ma * 2^ea and mb * 2^eb. *)
Definition sameAt (op : SpecFloat.spec_float -> SpecFloat.spec_float -> SpecFloat.spec_float)
           (op' : Q -> Q -> Q) (x : Z * Z * (Z * Z)) : bool :=
  let '(ma, ea, (mb, eb)) := x in
  match ofSF (op (toSF ma ea) (toSF mb eb)) with
  | Some q => Qeq_bool q (op' (dyadic ma ea) (dyadic mb eb))
  | None => false
  end.

(** ** The scene graph and its resources *)

(** One name for each [new] of a geometry, material or texture in
    [createCity]; a [new] inside the block loops is named with the block
    indices. *)
Inductive Res : Type :=
| res_roadTex | res_roadMat | res_roadGeoH | res_roadGeoV
| res_sidewalkMat | res_sidewalkGeo (bx bz : Z)
| res_buildingGeo | res_facadeTex | res_buildingMat
| res_trunkGeo | res_leafGeo | res_trunkMat | res_leafMat
| res_parkGeo (bx bz : Z) | res_parkMat (bx bz : Z)
| res_bodyGeo | res_roofGeo | res_wheelGeo
| res_bodyMat | res_glassMat | res_wheelMat.

Definition Res_eq_dec (a b : Res) : {a = b} + {a <> b}.
Proof. decide equality; apply Z.eq_dec. Defined.

Inductive Shape : Type :=
| PlaneGeometry (width height : Q)
| BoxGeometry (width height depth : Q)
| CylinderGeometry (radiusTop radiusBottom height : Q) (segments : Z)
| SphereGeometry (radius : Q) (widthSegments heightSegments : Z).

Record Geometry : Type := { geo_id : Res; shape : Shape }.

(** A canvas texture, as far as the code decides its content: the speckles
    (alpha, x, y) and, for a facade, the shade of every window cell. *)
Record Texture : Type := {
  tex_id : Res;
  tex_base : option Z;
  tex_speckles : list (Q * Q * Q);
  tex_cells : list Q
}.

Record Material : Type := {
  mat_id : Res;
  mat_map : option Texture;
  mat_emissiveMap : option Texture;
  mat_emissiveIntensity : Q
}.

Record Vec3 : Type := { vx : Q; vy : Q; vz : Q }.

(** [THREE.Group] and [THREE.Mesh] nodes.  An instanced mesh is a node too;
    its instance buffer is kept in the city record. *)
Inductive Object3D : Type :=
| Node (geometry : option Geometry) (material : option Material)
       (position : Vec3) (children : list Object3D).

Definition Group (children : list Object3D) : Object3D :=
  Node None None {| vx := 0; vy := 0; vz := 0 |} children.

Definition Mesh (g : Geometry) (m : Material) (p : Vec3) : Object3D :=
  Node (Some g) (Some m) p [].

Definition obj_geometry (o : Object3D) : option Geometry :=
  match o with Node g _ _ _ => g end.
Definition obj_material (o : Object3D) : option Material :=
  match o with Node _ m _ _ => m end.
Definition obj_position (o : Object3D) : Vec3 :=
  match o with Node _ _ p _ => p end.
Definition obj_children (o : Object3D) : list Object3D :=
  match o with Node _ _ _ c => c end.

(** ** The city *)

Record Config : Type := {
  blocksX : Z;
  blocksZ : Z;
  blockSize : Q;
  roadWidth : Q;
  lotPadding : Q;
  buildingCountEstimate : Z;
  densityFactor : Q;
  laneOffset : Q;
  parkChance : Q
}.

Definition mkConfig (buildingDensity : Q) : Config := {|
  blocksX := 12;
  blocksZ := 12;
  blockSize := 70;
  roadWidth := 36;
  lotPadding := 4;
  buildingCountEstimate := Math_round (12 * buildingDensity);
  densityFactor := buildingDensity;
  laneOffset := 6;
  parkChance := 14 # 100
|}.

(** What [temp.updateMatrix()] composes for one building: position
    (x, h/2, z), scale (footprint, h, depth), rotation.y. *)
Record Building : Type := {
  b_x : Q;
  b_z : Q;
  b_footprint : Q;
  b_depth : Q;
  b_h : R;
  b_yaw : Q
}.

Record InstancedBuildings : Type := {
  capacity : Z;
  count : Z;
  matrices : list Building
}.

Inductive Axis : Type := axis_x | axis_z.

(** [{ axis: 'x', z, dir }] or [{ axis: 'z', x, dir }]: [coord] is the field
    [z] of a lane along x and the field [x] of a lane along z. *)
Record Lane : Type := { axis : Axis; coord : Q; dir : Z }.

(** [{ lane, color, speed, t, length }]; the colour as the arguments of
    [setHSL]. *)
Record Car : Type := {
  car_lane : Lane;
  car_color : Q * Q * Q;
  car_speed : Q;
  car_t : Q;
  car_length : Q
}.

(** The four values that [updateTraffic] assigns to [rotation.y], and the
    rotation of an identity transform. *)
Inductive Yaw : Type := yaw_neg_half_pi | yaw_half_pi | yaw_zero | yaw_pi.

Definition yaw_angle (y : Yaw) : R :=
  match y with
  | yaw_neg_half_pi => (- PI / 2)%R
  | yaw_half_pi => (PI / 2)%R
  | yaw_zero => 0%R
  | yaw_pi => PI
  end.

Record CarTransform : Type := { ct_position : Vec3; ct_yaw : Yaw }.

Record CarsMeshes : Type := {
  bodyMesh : list CarTransform;
  roofMesh : list CarTransform;
  wheelMesh : list CarTransform
}.

Record Materials : Type := {
  m_building : Material;
  m_road : Material;
  m_sidewalk : Material;
  m_carBody : Material;
  m_carGlass : Material;
  m_carWheel : Material
}.

Record City : Type := {
  group : Object3D;
  config : Config;
  buildings : InstancedBuildings;
  carsMeshes : CarsMeshes;
  cars : list Car;
  lanes : list Lane;
  materials : Materials;
  seed : Z
}.

(** What lies outside the generator: the global [isNight] and the results of
    the calls of [Math.random], numbered from the start of [createCity]. *)
Record Env : Type := { isNight : bool; Math_random : nat -> Q }.

(** ** Textures (app.js, lines 177-223) *)

Local Open Scope Q_scope.

(** The speckle loops: three calls of [Math.random] for each speckle. *)
Definition speckles (rnd : nat -> Q) (n : nat) (alpha : Q -> Q) (w h : Q)
  : list (Q * Q * Q) :=
  List.map (fun i => (alpha (rnd (3 * i)%nat),
                      rnd (3 * i + 1)%nat * w,
                      rnd (3 * i + 2)%nat * h))
           (seq 0 n).

Definition makeRoadTexture (rnd : nat -> Q) : Texture := {|
  tex_id := res_roadTex;
  tex_base := None;
  tex_speckles := speckles rnd 2500 (fun r => r * (2 # 100)) 512 128;
  tex_cells := []
|}.

(** [makeFacadeTexture] receives [rng] and never calls it. *)
Definition makeFacadeTexture (night : bool) (rnd : nat -> Q) (cols rows base : Z)
  : Texture := {|
  tex_id := res_facadeTex;
  tex_base := Some base;
  tex_speckles :=
    speckles rnd 2000 (fun r => (2 # 100) + r * (2 # 100)) 256 256;
  tex_cells :=
    List.map (fun i =>
                if Qlt_le_dec (rnd (3 * 2000 + i)%nat) (3 # 10)
                then (if night then 1 else 35 # 100)
                else (if night then 1 # 10 else 12 # 100))
             (seq 0 (Z.to_nat rows * Z.to_nat cols))
|}.

(** ** createCity (app.js, lines 229-412) *)

(** The values of [i] in [for (let i = 0; i < n; i++)]. *)
Definition indices (n : Z) : list Z := List.map Z.of_nat (seq 0 (Z.to_nat n)).

Definition citySizeX (cfg : Config) : Q := inject_Z (blocksX cfg) * blockSize cfg.
Definition citySizeZ (cfg : Config) : Q := inject_Z (blocksZ cfg) * blockSize cfg.

Definition origin : Vec3 := {| vx := 0; vy := 0; vz := 0 |}.

Definition plainMaterial (id : Res) : Material :=
  {| mat_id := id; mat_map := None; mat_emissiveMap := None;
     mat_emissiveIntensity := 1 |}.

(** Roads: the meshes of [roadGroup]. *)
Definition roadMeshesH (cfg : Config) (roadMat : Material) : list Object3D :=
  let roadGeoH :=
    {| geo_id := res_roadGeoH;
       shape := PlaneGeometry (citySizeX cfg + blockSize cfg) (roadWidth cfg) |} in
  List.map (fun zi =>
              let z := inject_Z zi * blockSize cfg - citySizeZ cfg / 2 in
              Mesh roadGeoH roadMat {| vx := 0; vy := 0; vz := z |})
           (indices (blocksZ cfg + 1)).

Definition roadMeshesV (cfg : Config) (roadMat : Material) : list Object3D :=
  let roadGeoV :=
    {| geo_id := res_roadGeoV;
       shape := PlaneGeometry (roadWidth cfg) (citySizeZ cfg + blockSize cfg) |} in
  List.map (fun xi =>
              let x := inject_Z xi * blockSize cfg - citySizeX cfg / 2 in
              Mesh roadGeoV roadMat {| vx := x; vy := 0; vz := 0 |})
           (indices (blocksX cfg + 1)).

(** The pairs (bx, bz) in the order of the two nested loops. *)
Definition blockList (cfg : Config) : list (Z * Z) :=
  flat_map (fun bx => List.map (fun bz => (bx, bz)) (indices (blocksZ cfg)))
           (indices (blocksX cfg)).

Definition sidewalkMeshes (cfg : Config) (sidewalkMat : Material)
  : list Object3D :=
  List.map (fun b : Z * Z =>
              let (bx, bz) := b in
              let cx := inject_Z bx * blockSize cfg - citySizeX cfg / 2
                        + blockSize cfg / 2 in
              let cz := inject_Z bz * blockSize cfg - citySizeZ cfg / 2
                        + blockSize cfg / 2 in
              Mesh {| geo_id := res_sidewalkGeo bx bz;
                      shape := PlaneGeometry (blockSize cfg - 2)
                                             (blockSize cfg - 2) |}
                   sidewalkMat
                   {| vx := cx; vy := 2 # 100; vz := cz |})
           (blockList cfg).

(** The lot rectangle of a block: blockMinX, blockMaxX, blockMinZ, blockMaxZ. *)
Record Rect : Type := { minX : Q; maxX : Q; minZ : Q; maxZ : Q }.

Definition lotRect (cfg : Config) (bx bz : Z) : Rect := {|
  minX := inject_Z bx * blockSize cfg - citySizeX cfg / 2
          + roadWidth cfg / 2 + lotPadding cfg;
  maxX := inject_Z (bx + 1) * blockSize cfg - citySizeX cfg / 2
          - roadWidth cfg / 2 - lotPadding cfg;
  minZ := inject_Z bz * blockSize cfg - citySizeZ cfg / 2
          + roadWidth cfg / 2 + lotPadding cfg;
  maxZ := inject_Z (bz + 1) * blockSize cfg - citySizeZ cfg / 2
          - roadWidth cfg / 2 - lotPadding cfg
|}.

(** The variables that the block loops update: the children added to
    [group] and to [treesGroup], [idx], and the entries 0 .. idx-1 of the
    instance buffer of [buildings]. *)
Record Acc : Type := {
  a_parks : list Object3D;
  a_trees : list Object3D;
  a_idx : Z;
  a_matrices : list Building
}.

(** [idx = 0], nothing added yet. *)
Definition emptyAcc : Acc :=
  {| a_parks := []; a_trees := []; a_idx := 0; a_matrices := [] |}.

Local Open Scope gen_scope.

(** The body of the lot loop after the capacity test (lines 342-352). *)
Definition placeBuilding (r : Rect) : Gen Building :=
  x <- Rng.randRange (minX r) (maxX r) ;;
  z <- Rng.randRange (minZ r) (maxZ r) ;;
  footprint <- Rng.randRange 8 16 ;;
  depth <- Rng.randRange 8 16 ;;
  u1 <- Rng.randRange (2 # 10) 1 ;;
  u2 <- Rng.randRange 20 150 ;;
  let h := (Math_pow u1 (18 # 10) * Q2R u2)%R in
  yaw <- Rng.randRange (- (7 # 100)) (7 # 100) ;;
  ret {| b_x := x; b_z := z; b_footprint := footprint; b_depth := depth;
         b_h := h; b_yaw := yaw |}.

(** [buildings.setMatrixAt(idx++, temp.matrix)]. *)
Definition setMatrixAt (a : Acc) (b : Building) : Acc :=
  {| a_parks := a_parks a; a_trees := a_trees a;
     a_idx := (a_idx a + 1)%Z; a_matrices := a_matrices a ++ [b] |}.

(** [for (let i = 0; i < lots; i++)] with [n] iterations left. *)
Fixpoint lotLoop (n : nat) (r : Rect) (totalEst : Z) (a : Acc) : Gen Acc :=
  match n with
  | O => ret a
  | S n' =>
      if (a_idx a >=? totalEst)%Z then ret a
      else b <- placeBuilding r ;; lotLoop n' r totalEst (setMatrixAt a b)
  end.

(** [for (let t = 0; t < treeCount; t++)] with [n] iterations left. *)
Fixpoint treeLoop (n : nat) (r : Rect) (trees : list Object3D)
  : Gen (list Object3D) :=
  match n with
  | O => ret trees
  | S n' =>
      tx <- Rng.randRange (minX r + 2) (maxX r - 2) ;;
      tz <- Rng.randRange (minZ r + 2) (maxZ r - 2) ;;
      let trunk :=
        Mesh {| geo_id := res_trunkGeo;
                shape := CylinderGeometry (25 # 100) (35 # 100) (22 # 10) 8 |}
             (plainMaterial res_trunkMat)
             {| vx := tx; vy := 11 # 10; vz := tz |} in
      let leaves :=
        Mesh {| geo_id := res_leafGeo; shape := SphereGeometry (12 # 10) 10 10 |}
             (plainMaterial res_leafMat)
             {| vx := tx; vy := 24 # 10; vz := tz |} in
      treeLoop n' r (trees ++ [trunk; leaves])
  end.

Definition parkMesh (r : Rect) (bx bz : Z) : Object3D :=
  Mesh {| geo_id := res_parkGeo bx bz;
          shape := PlaneGeometry ((maxX r - minX r) * (92 # 100))
                                 ((maxZ r - minZ r) * (92 # 100)) |}
       (plainMaterial (res_parkMat bx bz))
       {| vx := (minX r + maxX r) / 2; vy := 3 # 100;
          vz := (minZ r + maxZ r) / 2 |}.

(** [lots] after line 339. *)
Definition drawLots (cfg : Config) : Gen Z :=
  lots <- Rng.randInt 8 18 ;;
  ret (Z.max 2 (Math_round (inject_Z lots * densityFactor cfg))).

(** The body of the inner block loop (lines 308-353). *)
Definition blockStep (cfg : Config) (totalEst : Z) (b : Z * Z) (a : Acc)
  : Gen Acc :=
  let (bx, bz) := b in
  let r := lotRect cfg bx bz in
  u <- Rng.next ;;
  if Qlt_le_dec u (parkChance cfg) then
    treeCount <- Rng.randInt 6 14 ;;
    trees <- treeLoop (Z.to_nat treeCount) r (a_trees a) ;;
    ret {| a_parks := a_parks a ++ [parkMesh r bx bz]; a_trees := trees;
           a_idx := a_idx a; a_matrices := a_matrices a |}
  else
    lots <- drawLots cfg ;;
    lotLoop (Z.to_nat lots) r totalEst a.

Fixpoint blockLoop (cfg : Config) (totalEst : Z) (bs : list (Z * Z)) (a : Acc)
  : Gen Acc :=
  match bs with
  | [] => ret a
  | b :: bs' =>
      a' <- blockStep cfg totalEst b a ;; blockLoop cfg totalEst bs' a'
  end.

(** Lanes (lines 378-388). *)
Definition makeLanes (cfg : Config) : list Lane :=
  flat_map (fun zi =>
              let z := inject_Z zi * blockSize cfg - citySizeZ cfg / 2 in
              [ {| axis := axis_x; coord := z - laneOffset cfg; dir := 1 |};
                {| axis := axis_x; coord := z + laneOffset cfg; dir := -1 |} ])
           (indices (blocksZ cfg + 1))
  ++
  flat_map (fun xi =>
              let x := inject_Z xi * blockSize cfg - citySizeX cfg / 2 in
              [ {| axis := axis_z; coord := x - laneOffset cfg; dir := 1 |};
                {| axis := axis_z; coord := x + laneOffset cfg; dir := -1 |} ])
           (indices (blocksX cfg + 1)).

(** [lanes[i]]; an index outside the array gives [undefined], on which
    line 395 would throw.  [makeCar_spec] below shows that the index drawn
    at line 392 is inside the array, so that [noLane] is never read. *)
Definition noLane : Lane := {| axis := axis_x; coord := 0; dir := 0 |}.

Definition laneAt (lanes : list Lane) (i : Z) : Lane :=
  if (i <? 0)%Z then noLane else nth (Z.to_nat i) lanes noLane.

(** The body of the car loop (lines 392-397). *)
Definition makeCar (cfg : Config) (lanes : list Lane) : Gen Car :=
  li <- Rng.randInt 0 (Z.of_nat (List.length lanes) - 1) ;;
  let lane := laneAt lanes li in
  hue <- Rng.randRange 0 1 ;;
  speed <- Rng.randRange 12 26 ;;
  let length := match axis lane with
                | axis_x => citySizeX cfg + blockSize cfg
                | axis_z => citySizeZ cfg + blockSize cfg
                end in
  t0 <- Rng.randRange 0 1 ;;
  ret {| car_lane := lane; car_color := (hue, 6 # 10, 5 # 10);
         car_speed := speed; car_t := t0; car_length := length |}.

Fixpoint carLoop (n : nat) (cfg : Config) (lanes : list Lane) (cars : list Car)
  : Gen (list Car) :=
  match n with
  | O => ret cars
  | S n' => c <- makeCar cfg lanes ;; carLoop n' cfg lanes (cars ++ [c])
  end.

Definition identityTransform : CarTransform :=
  {| ct_position := origin; ct_yaw := yaw_zero |}.

Definition instancedNode (g : Res) (s : Shape) (m : Material) : Object3D :=
  Mesh {| geo_id := g; shape := s |} m origin.

Definition totalEstOf (cfg : Config) : Z :=
  (blocksX cfg * blocksZ cfg * buildingCountEstimate cfg)%Z.

(** [Math.min(160, Math.floor((blocksX + blocksZ) * 6))]; the argument of
    [Math.floor] is an integer. *)
Definition carCountOf (cfg : Config) : Z :=
  Z.min 160 ((blocksX cfg + blocksZ cfg) * 6).

Definition createCity (env : Env) (buildingDensity : Q) (seed0 : Z) : City :=
  let cfg := mkConfig buildingDensity in
  let rnd := Math_random env in
  let roadMat :=
    {| mat_id := res_roadMat; mat_map := Some (makeRoadTexture rnd);
       mat_emissiveMap := None; mat_emissiveIntensity := 1 |} in
  let roadGroup := Group (roadMeshesH cfg roadMat ++ roadMeshesV cfg roadMat) in
  let sidewalkMat := plainMaterial res_sidewalkMat in
  let sidewalks := sidewalkMeshes cfg sidewalkMat in
  let '(cols, s1) := Rng.randInt 6 10 seed0 in
  let '(rows, s2) := Rng.randInt 12 20 s1 in
  let '(base, s3) := Rng.randInt 0 3 s2 in
  let facade :=
    makeFacadeTexture (isNight env) (fun i => rnd (3 * 2500 + i)%nat)
                      cols rows base in
  let buildingMat :=
    {| mat_id := res_buildingMat; mat_map := Some facade;
       mat_emissiveMap := Some facade;
       mat_emissiveIntensity := if isNight env then 7 # 10 else 12 # 100 |} in
  let totalEst := totalEstOf cfg in
  let '(acc, s4) :=
    blockLoop cfg totalEst (blockList cfg) emptyAcc s3 in
  let buildingsNode :=
    instancedNode res_buildingGeo (BoxGeometry 1 1 1) buildingMat in
  let treesGroup := Group (a_trees acc) in
  let carCount := carCountOf cfg in
  let bodyMat := plainMaterial res_bodyMat in
  let glassMat := plainMaterial res_glassMat in
  let wheelMat := plainMaterial res_wheelMat in
  let bodyNode :=
    instancedNode res_bodyGeo (BoxGeometry (18 # 10) (8 # 10) (36 # 10)) bodyMat in
  let roofNode :=
    instancedNode res_roofGeo (BoxGeometry (14 # 10) (5 # 10) (18 # 10)) glassMat in
  let wheelNode :=
    instancedNode res_wheelGeo
                  (CylinderGeometry (35 # 100) (35 # 100) (25 # 100) 16) wheelMat in
  let lanes := makeLanes cfg in
  let '(cars, s5) := carLoop (Z.to_nat carCount) cfg lanes [] s4 in
  {| group := Group ([roadGroup] ++ sidewalks ++ a_parks acc
                     ++ [buildingsNode; treesGroup; bodyNode; roofNode; wheelNode]);
     config := cfg;
     buildings := {| capacity := totalEst; count := a_idx acc;
                     matrices := a_matrices acc |};
     carsMeshes :=
       {| bodyMesh := repeat identityTransform (Z.to_nat carCount);
          roofMesh := repeat identityTransform (Z.to_nat carCount);
          wheelMesh := repeat identityTransform (Z.to_nat (carCount * 4)) |};
     cars := cars;
     lanes := lanes;
     materials :=
       {| m_building := buildingMat; m_road := roadMat;
          m_sidewalk := sidewalkMat; m_carBody := bodyMat;
          m_carGlass := glassMat; m_carWheel := wheelMat |};
     seed := seed0 |}.

Local Close Scope gen_scope.

(** ** updateTraffic (app.js, lines 460-503) *)

(** Line 466. *)
Definition tickCar (dt : Q) (car : Car) : Car :=
  {| car_lane := car_lane car; car_color := car_color car;
     car_speed := car_speed car;
     car_t := mod1 (car_t car + (car_speed car * dt) / car_length car);
     car_length := car_length car |}.

(** Lines 467-480: [tmp.position] and [tmp.rotation.y]. *)
Definition carPosition (car : Car) : Vec3 :=
  let pos := car_t car * car_length car - car_length car / 2 in
  let l := car_lane car in
  match axis l with
  | axis_x => {| vx := if (dir l >? 0)%Z then pos else - pos;
                 vy := 6 # 10; vz := coord l |}
  | axis_z => {| vx := coord l; vy := 6 # 10;
                 vz := if (dir l >? 0)%Z then pos else - pos |}
  end.

Definition carYaw (car : Car) : Yaw :=
  let l := car_lane car in
  match axis l with
  | axis_x => if (dir l >? 0)%Z then yaw_neg_half_pi else yaw_half_pi
  | axis_z => if (dir l >? 0)%Z then yaw_zero else yaw_pi
  end.

Definition carTransform (car : Car) : CarTransform :=
  {| ct_position := carPosition car; ct_yaw := carYaw car |}.

Definition wheelOffsets : list Vec3 :=
  [ {| vx := - (8 # 10); vy := - (25 # 100); vz := 13 # 10 |};
    {| vx := 8 # 10; vy := - (25 # 100); vz := 13 # 10 |};
    {| vx := - (8 # 10); vy := - (25 # 100); vz := - (13 # 10) |};
    {| vx := 8 # 10; vy := - (25 # 100); vz := - (13 # 10) |} ].

(** Cosine and sine of the four angles. *)
Definition yawCosSin (y : Yaw) : Q * Q :=
  match y with
  | yaw_neg_half_pi => (0, - 1)
  | yaw_half_pi => (0, 1)
  | yaw_zero => (1, 0)
  | yaw_pi => (- 1, 0)
  end.

(** [off.applyAxisAngle(new THREE.Vector3(0,1,0), angle)]. *)
Definition applyAxisAngleY (off : Vec3) (y : Yaw) : Vec3 :=
  let (c, s) := yawCosSin y in
  {| vx := vx off * c + vz off * s; vy := vy off;
     vz := - (vx off * s) + vz off * c |}.

Definition addVec (a b : Vec3) : Vec3 :=
  {| vx := vx a + vx b; vy := vy a + vy b; vz := vz a + vz b |}.

Definition wheelTransforms (car : Car) : list CarTransform :=
  List.map (fun off =>
              {| ct_position :=
                   addVec (carPosition car) (applyAxisAngleY off (carYaw car));
                 ct_yaw := carYaw car |})
           wheelOffsets.

(** [setMatrixAt(i, m)] for i = 0, 1, ... with the matrices [new]: a write
    past the end of the buffer is dropped, entries that are not written stay. *)
Definition overwrite {A} (new old : list A) : list A :=
  firstn (List.length old) new ++ skipn (List.length new) old.

(** The loop over [city.cars] (lines 462-502). *)
Definition trafficFrame (dt : Q) (c : City) : City :=
  let cars' := List.map (tickCar dt) (cars c) in
  let m := carsMeshes c in
  {| group := group c; config := config c; buildings := buildings c;
     carsMeshes :=
       {| bodyMesh := overwrite (List.map carTransform cars') (bodyMesh m);
          roofMesh := overwrite (List.map carTransform cars') (roofMesh m);
          wheelMesh :=
            overwrite (flat_map wheelTransforms cars') (wheelMesh m) |};
     cars := cars';
     lanes := lanes c; materials := materials c; seed := seed c |}.

(** [if (!city) return;] and then the loop. *)
Definition updateTraffic (dt : Q) (city : option City) : option City :=
  match city with
  | None => None
  | Some c => Some (trafficFrame dt c)
  end.

(** The frames of a run: one call of [updateTraffic] for each [dt]. *)
Definition runTraffic (dts : list Q) (city : option City) : option City :=
  fold_left (fun c dt => updateTraffic dt c) dts city.

(** ** disposeCity (app.js, lines 414-427) *)

(** The calls that reach the library. *)
Inductive Event : Type :=
| SceneRemove
| Dispose (r : Res).

Definition Event_eq_dec (a b : Event) : {a = b} + {a <> b}.
Proof. decide equality; apply Res_eq_dec. Defined.

(** The callback of [traverse]. *)
Definition disposeObject (g : option Geometry) (m : option Material)
  : list Event :=
  match g with Some g' => [Dispose (geo_id g')] | None => [] end
  ++ match m with Some m' => [Dispose (mat_id m')] | None => [] end.

(** [obj.traverse(callback)]: the object, then its children in order. *)
Fixpoint traverse (o : Object3D) : list Event :=
  match o with
  | Node g m _ cs => disposeObject g m ++ flat_map traverse cs
  end.

Definition disposeTextures (m : Material) : list Event :=
  match mat_map m with Some tx => [Dispose (tex_id tx)] | None => [] end
  ++ match mat_emissiveMap m with
     | Some tx => [Dispose (tex_id tx)]
     | None => []
     end.

(** [Object.values(c.materials)]. *)
Definition materialValues (ms : Materials) : list Material :=
  [ m_building ms; m_road ms; m_sidewalk ms;
    m_carBody ms; m_carGlass ms; m_carWheel ms ].

(** The calls of one [disposeCity(c)], appended to those made before. *)
Definition disposeCity (c : option City) (log : list Event) : list Event :=
  match c with
  | None => log
  | Some c' =>
      log ++ [SceneRemove] ++ traverse (group c')
          ++ flat_map disposeTextures (materialValues (materials c'))
  end.

(** ** The page: the globals of app.js and the functions that change them

    Left out: the horizontal part of [updateMovement], which goes through
    the direction of the camera and a square root; the pointer lock, the
    mouse and the resize handlers, which touch the camera and the renderer
    only; and with them the origin of the rain cloud, which follows the
    camera.  The position of the sun depends on the clock alone and is
    given apart, as [sunPosition]. *)

(** The objects that are added to [scene].  A city group and a rain cloud
    are told apart by a number, given in the order of creation. *)
Inductive Child : Type :=
| child_hemi | child_sun | child_ground
| child_cityGroup (id : nat)
| child_rain (id : nat).

Definition Child_eq_dec (a b : Child) : {a = b} + {a <> b}.
Proof. decide equality; apply Nat.eq_dec. Defined.

(** [scene.remove(o)]: the first entry that is [o] goes. *)
Fixpoint removeChild (c : Child) (l : list Child) : list Child :=
  match l with
  | [] => []
  | x :: l' => if Child_eq_dec x c then l' else x :: removeChild c l'
  end.

(** [keys]. *)
Record Keys : Type := {
  key_w : bool; key_a : bool; key_s : bool; key_d : bool;
  key_shift : bool; key_q : bool; key_e : bool
}.

(** [rainSystem = { points, count }]: the positions of the drops, as exact
    numbers (the array holds 32-bit floats; their rounding is left out, as
    that of the doubles is). *)
Record RainSystem : Type := {
  rain_id : nat;
  rain_positions : list Vec3;
  rain_count : Z
}.

(** The calls of [dispose] that the page makes: those of [disposeCity] and
    those on the geometry and the material of a rain cloud. *)
Inductive PageCall : Type :=
| call_city (e : Event)
| call_rainGeometry (id : nat)
| call_rainMaterial (id : nat).

(** The numbers in [hud.textContent]: cars, blocks, seed. *)
Record Hud : Type := { hud_cars : nat; hud_blocks : Z; hud_seed : Z }.

Record World : Type := {
  w_background : Z;
  w_fogColor : Z;
  w_fogDensity : Q;
  w_children : list Child;
  w_hemi : Q;
  w_sun : Q;
  w_isNight : bool;
  w_weatherMode : string;
  w_rainSystem : option RainSystem;
  w_keys : Keys;
  w_speed : Q;
  w_cameraY : Q;
  w_city : option (nat * City);
  w_buildingDensity : Q;
  w_hud : option Hud;
  w_nextId : nat;
  w_calls : list PageCall
}.

(** The values that the module sets before [regenerate()] at the end. *)
Definition initialWorld : World := {|
  w_background := 0x83a6cf;
  w_fogColor := 0x98b3d1;
  w_fogDensity := 22 # 10000;
  w_children := [child_hemi; child_sun; child_ground];
  w_hemi := 7 # 10;
  w_sun := 12 # 10;
  w_isNight := false;
  w_weatherMode := "clear";
  w_rainSystem := None;
  w_keys := {| key_w := false; key_a := false; key_s := false; key_d := false;
               key_shift := false; key_q := false; key_e := false |};
  w_speed := 0;
  w_cameraY := 2;
  w_city := None;
  w_buildingDensity := 1;
  w_hud := None;
  w_nextId := 0;
  w_calls := []
|}.

(** *** setDayNight (lines 61-77) *)

Definition withEmissive (q : Q) (m : Material) : Material :=
  {| mat_id := mat_id m; mat_map := mat_map m;
     mat_emissiveMap := mat_emissiveMap m; mat_emissiveIntensity := q |}.

(** [city.materials.building] is the object that the building mesh of the
    group holds: the assignment of line 75 shows in both. *)
Fixpoint retint (q : Q) (o : Object3D) : Object3D :=
  match o with
  | Node g m p cs =>
      Node g
           (option_map (fun m' => if Res_eq_dec (mat_id m') res_buildingMat
                                  then withEmissive q m' else m') m)
           p (List.map (retint q) cs)
  end.

Definition setBuildingEmissive (q : Q) (c : City) : City :=
  let ms := materials c in
  {| group := retint q (group c); config := config c;
     buildings := buildings c; carsMeshes := carsMeshes c; cars := cars c;
     lanes := lanes c;
     materials :=
       {| m_building := withEmissive q (m_building ms); m_road := m_road ms;
          m_sidewalk := m_sidewalk ms; m_carBody := m_carBody ms;
          m_carGlass := m_carGlass ms; m_carWheel := m_carWheel ms |};
     seed := seed c |}.

Definition setDayNight (night : bool) (w : World) : World := {|
  w_background := if night then 0x0b1020 else 0x83a6cf;
  w_fogColor := if night then 0x0b1020 else 0x98b3d1;
  w_fogDensity := w_fogDensity w;
  w_children := w_children w;
  w_hemi := if night then 2 # 10 else 7 # 10;
  w_sun := if night then 15 # 100 else 12 # 10;
  w_isNight := night;
  w_weatherMode := w_weatherMode w;
  w_rainSystem := w_rainSystem w;
  w_keys := w_keys w;
  w_speed := w_speed w;
  w_cameraY := w_cameraY w;
  w_city :=
    match w_city w with
    | Some (id, c) =>
        Some (id, setBuildingEmissive (if night then 7 # 10 else 12 # 100) c)
    | None => None
    end;
  w_buildingDensity := w_buildingDensity w;
  w_hud := w_hud w;
  w_nextId := w_nextId w;
  w_calls := w_calls w
|}.

(** *** setWeather (lines 79-116) *)

(** The drops of a new cloud: three calls of [Math.random] for each. *)
Definition rainDrops (rnd : nat -> Q) (count : nat) : list Vec3 :=
  List.map (fun i => {| vx := (rnd (3 * i)%nat - (1 # 2)) * 260;
                        vy := rnd (3 * i + 1)%nat * 120 + 20;
                        vz := (rnd (3 * i + 2)%nat - (1 # 2)) * 260 |})
           (seq 0 count).

Definition fogDensityOf (mode : string) : Q :=
  if String.eqb mode "clear" then 18 # 10000
  else if String.eqb mode "foggy" then 6 # 1000
  else 3 # 1000.

Definition setWeather (mode : string) (rnd : nat -> Q) (w : World) : World :=
  let children1 :=
    match w_rainSystem w with
    | Some rs => removeChild (child_rain (rain_id rs)) (w_children w)
    | None => w_children w
    end in
  let calls1 :=
    match w_rainSystem w with
    | Some rs => w_calls w ++ [call_rainGeometry (rain_id rs);
                               call_rainMaterial (rain_id rs)]
    | None => w_calls w
    end in
  let rain := String.eqb mode "rain" in
  {| w_background := w_background w;
     w_fogColor := if w_isNight w then 0x0b1020 else 0x98b3d1;
     w_fogDensity := fogDensityOf mode;
     w_children :=
       if rain then children1 ++ [child_rain (w_nextId w)] else children1;
     w_hemi := w_hemi w;
     w_sun := w_sun w;
     w_isNight := w_isNight w;
     w_weatherMode := mode;
     w_rainSystem :=
       if rain
       then Some {| rain_id := w_nextId w;
                    rain_positions := rainDrops rnd (9 * 1000);
                    rain_count := 9000 |}
       else None;
     w_keys := w_keys w;
     w_speed := w_speed w;
     w_cameraY := w_cameraY w;
     w_city := w_city w;
     w_buildingDensity := w_buildingDensity w;
     w_hud := w_hud w;
     w_nextId := if rain then S (w_nextId w) else w_nextId w;
     w_calls := calls1 |}.

(** *** regenerate (lines 429-435) *)

(** [seedArg] is the argument, [None] for [undefined]; [r] is the result of
    [Math.random()] at line 430 and [rnd] the results inside [createCity]. *)
Definition regenerate (seedArg : option Z) (r : Q) (rnd : nat -> Q) (w : World)
  : World :=
  let s := match seedArg with
           | Some s' => s'
           | None => Qfloor (r * 1000000000)
           end in
  let children1 :=
    match w_city w with
    | Some (id, _) => removeChild (child_cityGroup id) (w_children w)
    | None => w_children w
    end in
  let calls1 :=
    w_calls w
    ++ List.map call_city (disposeCity (option_map snd (w_city w)) []) in
  let c := createCity {| isNight := w_isNight w; Math_random := rnd |}
                      (w_buildingDensity w) s in
  {| w_background := w_background w;
     w_fogColor := w_fogColor w;
     w_fogDensity := w_fogDensity w;
     w_children := children1 ++ [child_cityGroup (w_nextId w)];
     w_hemi := w_hemi w;
     w_sun := w_sun w;
     w_isNight := w_isNight w;
     w_weatherMode := w_weatherMode w;
     w_rainSystem := w_rainSystem w;
     w_keys := w_keys w;
     w_speed := w_speed w;
     w_cameraY := w_cameraY w;
     w_city := Some (w_nextId w, c);
     w_buildingDensity := w_buildingDensity w;
     w_hud := Some {| hud_cars := List.length (cars c);
                      hud_blocks := (blocksX (config c) * blocksZ (config c))%Z;
                      hud_seed := seed c |};
     w_nextId := S (w_nextId w);
     w_calls := calls1 |}.

(** *** The keys (lines 155-174) and updateMovement (lines 131-153) *)

Definition isShift (code : string) : bool :=
  String.eqb code "ShiftLeft" || String.eqb code "ShiftRight".

(** The assignments of the [keydown] handler to [keys] ([v = true]) and
    those of the [keyup] handler ([v = false]). *)
Definition setKeys (v : bool) (code : string) (k : Keys) : Keys :=
  {| key_w := if String.eqb code "KeyW" then v else key_w k;
     key_a := if String.eqb code "KeyA" then v else key_a k;
     key_s := if String.eqb code "KeyS" then v else key_s k;
     key_d := if String.eqb code "KeyD" then v else key_d k;
     key_shift := if isShift code then v else key_shift k;
     key_q := if String.eqb code "KeyQ" then v else key_q k;
     key_e := if String.eqb code "KeyE" then v else key_e k |}.

Definition withKeys (k : Keys) (w : World) : World := {|
  w_background := w_background w; w_fogColor := w_fogColor w;
  w_fogDensity := w_fogDensity w; w_children := w_children w;
  w_hemi := w_hemi w; w_sun := w_sun w; w_isNight := w_isNight w;
  w_weatherMode := w_weatherMode w; w_rainSystem := w_rainSystem w;
  w_keys := k; w_speed := w_speed w; w_cameraY := w_cameraY w;
  w_city := w_city w; w_buildingDensity := w_buildingDensity w;
  w_hud := w_hud w; w_nextId := w_nextId w; w_calls := w_calls w
|}.

Definition keydown (code : string) (r : Q) (rnd : nat -> Q) (w : World)
  : World :=
  let w1 := withKeys (setKeys true code (w_keys w)) w in
  let w2 := if String.eqb code "KeyR" then regenerate None r rnd w1 else w1 in
  if String.eqb code "KeyN" then setDayNight (negb (w_isNight w2)) w2 else w2.

Definition keyup (code : string) (w : World) : World :=
  withKeys (setKeys false code (w_keys w)) w.

Definition SPEED : Q := 18.
Definition SPRINT : Q := 34.
Definition FRICTION : Q := 8.

Definition forwardOf (k : Keys) : Z :=
  ((if key_w k then 1 else 0) + (if key_s k then -1 else 0))%Z.

Definition rightOf (k : Keys) : Z :=
  ((if key_d k then -1 else 0) + (if key_a k then 1 else 0))%Z.

(** [target], line 135: [forward || right] is true when one of them is not
    zero. *)
Definition targetSpeed (k : Keys) : Q :=
  (if key_shift k then SPRINT else SPEED)
  * (if ((forwardOf k =? 0) && (rightOf k =? 0))%Z then 0 else 1).

(** Line 136. *)
Definition nextSpeed (dt : Q) (k : Keys) (speed : Q) : Q :=
  let target := targetSpeed k in
  speed + (target - speed)
          * Qmin 1 (dt * (if Qlt_le_dec speed target then 6 else FRICTION)).

(** Lines 150-152.  The horizontal velocity has no vertical part: [dir.y]
    is set to 0 and the cross product with the vertical is horizontal. *)
Definition nextCameraY (dt : Q) (k : Keys) (y : Q) : Q :=
  let rise := inject_Z ((if key_e k then 1 else 0) + (if key_q k then -1 else 0))
              * (if key_shift k then SPRINT else SPEED) * (6 # 10) * dt in
  Qmin 220 (Qmax (15 # 10) (y + rise)).

Definition updateMovement (dt : Q) (w : World) : World := {|
  w_background := w_background w; w_fogColor := w_fogColor w;
  w_fogDensity := w_fogDensity w; w_children := w_children w;
  w_hemi := w_hemi w; w_sun := w_sun w; w_isNight := w_isNight w;
  w_weatherMode := w_weatherMode w; w_rainSystem := w_rainSystem w;
  w_keys := w_keys w;
  w_speed := nextSpeed dt (w_keys w) (w_speed w);
  w_cameraY := nextCameraY dt (w_keys w) (w_cameraY w);
  w_city := w_city w; w_buildingDensity := w_buildingDensity w;
  w_hud := w_hud w; w_nextId := w_nextId w; w_calls := w_calls w
|}.

(** *** animate (lines 439-458) *)

(** The loop over the drops: [rnd i] is the result of [Math.random()] for
    drop [i] when it is asked.  Only the drops below [count] move. *)
Definition fallDrop (dt : Q) (rnd : nat -> Q) (i : nat) (p : Vec3) : Vec3 :=
  let y := vy p - 140 * dt in
  {| vx := vx p;
     vy := if Qlt_le_dec y (- 10) then rnd i * 120 + 80 else y;
     vz := vz p |}.

Fixpoint fallFrom (dt : Q) (rnd : nat -> Q) (i : nat) (ps : list Vec3)
  : list Vec3 :=
  match ps with
  | [] => []
  | p :: ps' => fallDrop dt rnd i p :: fallFrom dt rnd (S i) ps'
  end.

Definition rainFall (dt : Q) (rnd : nat -> Q) (rs : RainSystem) : RainSystem :=
  let n := Z.to_nat (rain_count rs) in
  {| rain_id := rain_id rs;
     rain_positions := fallFrom dt rnd 0 (firstn n (rain_positions rs))
                       ++ skipn n (rain_positions rs);
     rain_count := rain_count rs |}.

(** One frame; [delta] is [clock.getDelta()]. *)
Definition animate (delta : Q) (rnd : nat -> Q) (w : World) : World :=
  let dt := Qmin (5 # 100) delta in
  let w1 := updateMovement dt w in
  {| w_background := w_background w1; w_fogColor := w_fogColor w1;
     w_fogDensity := w_fogDensity w1; w_children := w_children w1;
     w_hemi := w_hemi w1; w_sun := w_sun w1; w_isNight := w_isNight w1;
     w_weatherMode := w_weatherMode w1;
     w_rainSystem := option_map (rainFall dt rnd) (w_rainSystem w1);
     w_keys := w_keys w1; w_speed := w_speed w1; w_cameraY := w_cameraY w1;
     w_city :=
       match w_city w1 with
       | Some (id, c) => Some (id, trafficFrame dt c)
       | None => None
       end;
     w_buildingDensity := w_buildingDensity w1;
     w_hud := w_hud w1; w_nextId := w_nextId w1; w_calls := w_calls w1 |}.

(** Lines 455-456: the position of the sun; [now] is [performance.now()],
    and [Math.cos] and [Math.sin] are the real functions. *)
Definition sunPosition (now : R) : R * R * R :=
  let t := (now * (5 / 100000))%R in
  ((cos t * 150)%R, (200 + sin t * 50)%R, (sin t * 150)%R).

(** *** The handlers of the controls (lines 513-521) and the start
    (lines 524-526) *)

Definition withDensity (d : Q) (w : World) : World := {|
  w_background := w_background w; w_fogColor := w_fogColor w;
  w_fogDensity := w_fogDensity w; w_children := w_children w;
  w_hemi := w_hemi w; w_sun := w_sun w; w_isNight := w_isNight w;
  w_weatherMode := w_weatherMode w; w_rainSystem := w_rainSystem w;
  w_keys := w_keys w; w_speed := w_speed w; w_cameraY := w_cameraY w;
  w_city := w_city w; w_buildingDensity := d;
  w_hud := w_hud w; w_nextId := w_nextId w; w_calls := w_calls w
|}.

(** [buildingDensity = Number(densitySlider.value); regenerate(city?.seed)]. *)
Definition densityChange (value : Q) (r : Q) (rnd : nat -> Q) (w : World)
  : World :=
  regenerate (option_map (fun ic : nat * City => seed (snd ic)) (w_city w))
             r rnd (withDensity value w).

(** What happens to the page after the start: a key goes down or up, the
    density slider or the weather selector changes, the day button is
    clicked, or a frame is drawn. *)
Inductive Op : Type :=
| op_keydown (code : string) (r : Q) (rnd : nat -> Q)
| op_keyup (code : string)
| op_densityChange (value : Q) (r : Q) (rnd : nat -> Q)
| op_toggleDay
| op_weatherChange (mode : string) (rnd : nat -> Q)
| op_frame (delta : Q) (rnd : nat -> Q).

Definition step (op : Op) (w : World) : World :=
  match op with
  | op_keydown code r rnd => keydown code r rnd w
  | op_keyup code => keyup code w
  | op_densityChange value r rnd => densityChange value r rnd w
  | op_toggleDay => setDayNight (negb (w_isNight w)) w
  | op_weatherChange mode rnd => setWeather mode rnd w
  | op_frame delta rnd => animate delta rnd w
  end.

Definition runPage (ops : list Op) (w : World) : World :=
  fold_left (fun w op => step op w) ops w.

(** [regenerate(); setWeather('clear');] at the end of the module. *)
Definition boot (r : Q) (rnd : nat -> Q) : World :=
  setWeather "clear" (fun _ => 0) (regenerate None r rnd initialWorld).

(** * Vocabulary of the statements *)

(** The value of the call number [k] (from 0) of [rng] when the closure
    variable holds [s] before the first of them. *)
Definition draw (k : nat) (s : Z) : Q := fst (Rng.next (Nat.iter k Rng.advance s)).

(** [s'] is a value that the closure variable takes after [s]. *)
Definition reaches (s s' : Z) : Prop := exists k : nat, s' = Nat.iter k Rng.advance s.

(** The closure variable after the three draws for the facade texture. *)
Definition afterFacadeDraws (seed0 : Z) : Z :=
  Rng.advance (Rng.advance (Rng.advance seed0)).

(** [b] is the building that lines 342-352 make in lot rectangle [r] when
    the closure variable holds [s]. *)
Definition placedAt (r : Rect) (s : Z) (b : Building) : Prop :=
  b = fst (placeBuilding r s).

(** The value of [lots] that the block which starts with the closure
    variable at [s] computes at line 339; 0 for a park block. *)
Definition lotsOfBlock (cfg : Config) (s : Z) : Z :=
  let (u, s1) := Rng.next s in
  if Qlt_le_dec u (parkChance cfg) then 0%Z else fst (drawLots cfg s1).

(** The sum of these values over the blocks [bs] of one run. *)
Fixpoint lotsDrawn (cfg : Config) (totalEst : Z) (bs : list (Z * Z)) (a : Acc)
         (s : Z) : Z :=
  match bs with
  | [] => 0%Z
  | b :: bs' =>
      let (a', s') := blockStep cfg totalEst b a s in
      (lotsOfBlock cfg s + lotsDrawn cfg totalEst bs' a' s')%Z
  end.

(** [p] is inside the rectangle [r]. *)
Definition inRect (r : Rect) (x z : Q) : Prop :=
  minX r <= x <= maxX r /\ minZ r <= z <= maxZ r.

(** The parts of the city that [createCity] computes, by name. *)
Definition roadMaterialOf (env : Env) : Material :=
  {| mat_id := res_roadMat; mat_map := Some (makeRoadTexture (Math_random env));
     mat_emissiveMap := None; mat_emissiveIntensity := 1 |}.

Definition facadeOf (env : Env) (seed0 : Z) : Texture :=
  makeFacadeTexture (isNight env) (fun i => Math_random env (3 * 2500 + i)%nat)
    (fst (Rng.randInt 6 10 seed0))
    (fst (Rng.randInt 12 20 (Rng.advance seed0)))
    (fst (Rng.randInt 0 3 (Rng.advance (Rng.advance seed0)))).

Definition buildingMaterialOf (env : Env) (seed0 : Z) : Material :=
  {| mat_id := res_buildingMat; mat_map := Some (facadeOf env seed0);
     mat_emissiveMap := Some (facadeOf env seed0);
     mat_emissiveIntensity := if isNight env then 7 # 10 else 12 # 100 |}.

(** The result of the block loops and the closure variable after them. *)
Definition blocksResult (density : Q) (seed0 : Z) : Acc * Z :=
  let cfg := mkConfig density in
  blockLoop cfg (totalEstOf cfg) (blockList cfg) emptyAcc
            (afterFacadeDraws seed0).

Definition carsResult (density : Q) (seed0 : Z) : list Car * Z :=
  let cfg := mkConfig density in
  carLoop (Z.to_nat (carCountOf cfg)) cfg (makeLanes cfg) []
          (snd (blocksResult density seed0)).

Definition carNodes : list Object3D :=
  [ instancedNode res_bodyGeo (BoxGeometry (18 # 10) (8 # 10) (36 # 10))
                  (plainMaterial res_bodyMat);
    instancedNode res_roofGeo (BoxGeometry (14 # 10) (5 # 10) (18 # 10))
                  (plainMaterial res_glassMat);
    instancedNode res_wheelGeo
                  (CylinderGeometry (35 # 100) (35 # 100) (25 # 100) 16)
                  (plainMaterial res_wheelMat) ].

(** Every geometry of a scene graph with the position of its mesh, in the
    order of [traverse]. *)
Fixpoint placements (o : Object3D) : list (Geometry * Vec3) :=
  match o with
  | Node g _ p cs =>
      match g with Some g' => [(g', p)] | None => [] end
      ++ flat_map placements cs
  end.

(** An environment for the examples: day, and [Math.random] constant. *)
Definition dayEnv : Env := {| isNight := false; Math_random := fun _ => 0 |}.

(** [bd] was placed in the lot rectangle of block [b], from a value of the
    closure variable that is reached from [s]. *)
Definition placedIn (cfg : Config) (b : Z * Z) (s : Z) (bd : Building) : Prop :=
  exists s', reaches s s' /\ placedAt (lotRect cfg (fst b) (snd b)) s' bd.

(** The shortest building: 0.2 ^ 1.8 * 20, a little above 1.10. *)
Definition minHeight : R := (Math_pow (2 # 10) (18 # 10) * 20)%R.

(** ** Rectangles on the ground *)

(** The rectangle that a plane mesh covers once [rotation.x = -PI/2] has
    laid it on the ground: its width along x, its height along z. *)
Definition groundRect (o : Object3D) : option Rect :=
  match obj_geometry o with
  | Some g =>
      match shape g with
      | PlaneGeometry w h =>
          let p := obj_position o in
          Some {| minX := vx p - w / 2; maxX := vx p + w / 2;
                  minZ := vz p - h / 2; maxZ := vz p + h / 2 |}
      | _ => None
      end
  | None => None
  end.

(** The meshes of [roadGroup], the first child of the group of the city. *)
Definition roadMeshes (c : City) : list Object3D :=
  match obj_children (group c) with
  | roadGroup :: _ => obj_children roadGroup
  | [] => []
  end.

Definition roadRects (c : City) : list Rect :=
  flat_map (fun o => match groundRect o with Some r => [r] | None => [] end)
           (roadMeshes c).

(** The road along x at grid line [zi] and the road along z at grid line
    [xi]. *)
Definition horizontalRoadRect (cfg : Config) (zi : Z) : Rect :=
  let z := inject_Z zi * blockSize cfg - citySizeZ cfg / 2 in
  {| minX := 0 - (citySizeX cfg + blockSize cfg) / 2;
     maxX := 0 + (citySizeX cfg + blockSize cfg) / 2;
     minZ := z - roadWidth cfg / 2; maxZ := z + roadWidth cfg / 2 |}.

Definition verticalRoadRect (cfg : Config) (xi : Z) : Rect :=
  let x := inject_Z xi * blockSize cfg - citySizeX cfg / 2 in
  {| minX := x - roadWidth cfg / 2; maxX := x + roadWidth cfg / 2;
     minZ := 0 - (citySizeZ cfg + blockSize cfg) / 2;
     maxZ := 0 + (citySizeZ cfg + blockSize cfg) / 2 |}.

(** The footprint of a building: its centre, half the width to each side
    along x and half the depth along z (the yaw left out). *)
Definition footprintRect (b : Building) : Rect :=
  {| minX := b_x b - b_footprint b / 2; maxX := b_x b + b_footprint b / 2;
     minZ := b_z b - b_depth b / 2; maxZ := b_z b + b_depth b / 2 |}.

(** Two rectangles share an area. *)
Definition overlap (a b : Rect) : Prop :=
  minX a < maxX b /\ minX b < maxX a /\ minZ a < maxZ b /\ minZ b < maxZ a.

(** Two rectangles share no area: one ends where the other begins, or
    before, along x or along z. *)
Definition disjointRects (a b : Rect) : Prop :=
  maxX a <= minX b \/ maxX b <= minX a \/ maxZ a <= minZ b \/ maxZ b <= minZ a.

(** [r] grown by [m] on every side, and [a] inside [b]. *)
Definition expand (r : Rect) (m : Q) : Rect :=
  {| minX := minX r - m; maxX := maxX r + m;
     minZ := minZ r - m; maxZ := maxZ r + m |}.

Definition within (a b : Rect) : Prop :=
  minX b <= minX a /\ maxX a <= maxX b /\ minZ b <= minZ a /\ maxZ a <= maxZ b.

(** The square of half-side [m] around the centre of a building. *)
Definition centreRect (b : Building) (m : Q) : Rect :=
  {| minX := b_x b - m; maxX := b_x b + m;
     minZ := b_z b - m; maxZ := b_z b + m |}.

(** ** Traffic *)

(** One vehicle over the frames [dts]. *)
Definition runCar (dts : list Q) (car : Car) : Car :=
  fold_left (fun c dt => tickCar dt c) dts car.

Definition Qsum (l : list Q) : Q := fold_right Qplus 0 l.

(** The heading of a lane: along x it is -PI/2 forwards and PI/2 backwards,
    along z it is 0 forwards and PI backwards. *)
Definition cardinalYaw (a : Axis) (forwards : bool) : Yaw :=
  match a, forwards with
  | axis_x, true => yaw_neg_half_pi
  | axis_x, false => yaw_half_pi
  | axis_z, true => yaw_zero
  | axis_z, false => yaw_pi
  end.

(** The coordinate of a position on the axis across the lane. *)
Definition acrossLane (l : Lane) (p : Vec3) : Q :=
  match axis l with axis_x => vz p | axis_z => vx p end.

(** The transform [tr] keeps to the lane of [car]. *)
Definition confined (car : Car) (tr : CarTransform) : Prop :=
  acrossLane (car_lane car) (ct_position tr) = coord (car_lane car)
  /\ ct_yaw tr
     = cardinalYaw (axis (car_lane car)) (dir (car_lane car) >? 0)%Z.

(** The instance buffers of the car meshes have one entry for each car,
    four for the wheels. *)
Definition sized (c : City) : Prop :=
  List.length (bodyMesh (carsMeshes c)) = List.length (cars c)
  /\ List.length (roofMesh (carsMeshes c)) = List.length (cars c)
  /\ List.length (wheelMesh (carsMeshes c)) = (4 * List.length (cars c))%nat.

(** ** Disposal *)

(** The calls of one [disposeCity(c)] on a city. *)
Definition disposeCalls (c : City) : list Event :=
  [SceneRemove] ++ traverse (group c)
  ++ flat_map disposeTextures (materialValues (materials c)).

(** How often [r] is disposed of in a list of calls. *)
Definition releases (r : Res) (calls : list Event) : nat :=
  count_occ Event_eq_dec calls (Dispose r).

(** The geometry and the material of every node of a scene graph, in the
    order of [traverse], one entry for each use. *)
Fixpoint nodeResources (o : Object3D) : list Res :=
  match o with
  | Node g m _ cs =>
      match g with Some g' => [geo_id g'] | None => [] end
      ++ match m with Some m' => [mat_id m'] | None => [] end
      ++ flat_map nodeResources cs
  end.

(** The textures in the [map] and [emissiveMap] of a material. *)
Definition textureSlots (m : Material) : list Res :=
  match mat_map m with Some tx => [tex_id tx] | None => [] end
  ++ match mat_emissiveMap m with Some tx => [tex_id tx] | None => [] end.

(** Every use of a resource that [disposeCity] visits. *)
Definition cityResources (c : City) : list Res :=
  nodeResources (group c)
  ++ flat_map textureSlots (materialValues (materials c)).

(** The resources that the park branch of a block creates or uses. *)
Definition parkOrTree (r : Res) : Prop :=
  match r with
  | res_parkGeo _ _ | res_parkMat _ _
  | res_trunkGeo | res_leafGeo | res_trunkMat | res_leafMat => True
  | _ => False
  end.

Definition parkTreeOnly (o : Object3D) : Prop :=
  Forall parkOrTree (nodeResources o).

Definition parksAndTreesOnly (a : Acc) : Prop :=
  Forall parkTreeOnly (a_parks a) /\ Forall parkTreeOnly (a_trees a).

(** The uses of resources by the meshes that do not depend on the draws:
    the roads and the sidewalks. *)
Definition roadUses (cfg : Config) : list Res :=
  flat_map (fun _ : Z => [res_roadGeoH; res_roadMat]) (indices (blocksZ cfg + 1))
  ++ flat_map (fun _ : Z => [res_roadGeoV; res_roadMat])
              (indices (blocksX cfg + 1)).

Definition sidewalkUses (cfg : Config) : list Res :=
  flat_map (fun b : Z * Z => [res_sidewalkGeo (fst b) (snd b); res_sidewalkMat])
           (blockList cfg).

(** ** Vocabulary of the further properties *)

(** The constant of lane [l] lies between the edges of road [r], at least
    12 away from each. *)
Definition laneInRoad (l : Lane) (r : Rect) : Prop :=
  match axis l with
  | axis_x => minZ r + 12 <= coord l <= maxZ r - 12
  | axis_z => minX r + 12 <= coord l <= maxX r - 12
  end.

(** The park planes and the trunks and canopies of a city: the children of
    the group with a park geometry, and the children of its children with a
    trunk or a leaf geometry. *)
Definition isParkMesh (o : Object3D) : bool :=
  match obj_geometry o with
  | Some g => match geo_id g with res_parkGeo _ _ => true | _ => false end
  | None => false
  end.

Definition isTreeMesh (o : Object3D) : bool :=
  match obj_geometry o with
  | Some g =>
      match geo_id g with res_trunkGeo | res_leafGeo => true | _ => false end
  | None => false
  end.

Definition cityParks (c : City) : list Object3D :=
  filter isParkMesh (obj_children (group c)).

Definition cityTrees (c : City) : list Object3D :=
  flat_map (fun o => filter isTreeMesh (obj_children o))
           (obj_children (group c)).

(** The mesh [t] has its position above the plane of the mesh [p]. *)
Definition standsOn (t p : Object3D) : Prop :=
  exists r : Rect,
    groundRect p = Some r
    /\ inRect r (vx (obj_position t)) (vz (obj_position t)).

(** What the block loops keep true of the parks and trees made so far. *)
Definition parksKept (cfg : Config) (a : Acc) : Prop :=
  Forall (fun p => exists bx bz, p = parkMesh (lotRect cfg bx bz) bx bz)
         (a_parks a)
  /\ Forall (fun t => isTreeMesh t = true /\ obj_children t = []
                      /\ exists p, In p (a_parks a) /\ standsOn t p)
            (a_trees a)
  /\ (12 * List.length (a_parks a) <= List.length (a_trees a)
      <= 28 * List.length (a_parks a))%nat.

(** Road [r] reaches from -455 to 455 along lane [l], the span of the
    positions of a vehicle. *)
Definition laneSpan (l : Lane) (r : Rect) : Prop :=
  match axis l with
  | axis_x => minX r <= - 455 /\ 455 <= maxX r
  | axis_z => minZ r <= - 455 /\ 455 <= maxZ r
  end.

(** The point [p] of the ground is on a road of the city [c]. *)
Definition onRoad (c : City) (p : Vec3) : Prop :=
  exists r : Rect, In r (roadRects c) /\ inRect r (vx p) (vz p).

(** Where a wheel sits relative to the body: 1.3 before or behind along
    the lane and 0.8 to one side, 0.25 lower, with the yaw of the body. *)
Definition wheelPlaced (car : Car) (w : CarTransform) : Prop :=
  let dx := vx (ct_position w) - vx (carPosition car) in
  let dz := vz (ct_position w) - vz (carPosition car) in
  ct_yaw w = carYaw car
  /\ vy (ct_position w) == vy (carPosition car) - (25 # 100)
  /\ match axis (car_lane car) with
     | axis_x => (dx == 13 # 10 \/ dx == - (13 # 10))
                 /\ (dz == 8 # 10 \/ dz == - (8 # 10))
     | axis_z => (dx == 8 # 10 \/ dx == - (8 # 10))
                 /\ (dz == 13 # 10 \/ dz == - (13 # 10))
     end.

(** *** The page *)

Definition isCityGroup (c : Child) : bool :=
  match c with child_cityGroup _ => true | _ => false end.

Definition isRain (c : Child) : bool :=
  match c with child_rain _ => true | _ => false end.

Definition isFixture (c : Child) : bool :=
  match c with child_hemi | child_sun | child_ground => true | _ => false end.

(** The children of the scene: the two lights and the ground; the group of
    the current city if there is one, and of no other; the cloud of the
    current rain if there is one, and of no other. *)
Definition sceneOf (w : World) : Prop :=
  filter isFixture (w_children w) = [child_hemi; child_sun; child_ground]
  /\ match w_city w with
     | Some (id, _) =>
         filter isCityGroup (w_children w) = [child_cityGroup id]
         /\ (id < w_nextId w)%nat
     | None => filter isCityGroup (w_children w) = []
     end
  /\ match w_rainSystem w with
     | Some rs =>
         filter isRain (w_children w) = [child_rain (rain_id rs)]
         /\ (rain_id rs < w_nextId w)%nat
     | None => filter isRain (w_children w) = []
     end.

(** There is a city, and there is rain exactly when the weather is "rain". *)
Definition sceneKept (w : World) : Prop :=
  sceneOf w
  /\ (exists id c, w_city w = Some (id, c))
  /\ (w_rainSystem w <> None <-> w_weatherMode w = "rain"%string).

(** The layout of a city: the geometry and the position of every mesh of
    its group, the instance buffer of the buildings, the lanes, the
    configuration and the seed. *)
Definition layoutOf (c : City)
  : list (Geometry * Vec3) * InstancedBuildings * list Lane * Config * Z :=
  (placements (group c), buildings c, lanes c, config c, seed c).

(** There is a city; it has the layout that [createCity] makes for the
    density of the page and the seed of the city; it has 144 vehicles; and
    the HUD shows 144 cars, 144 blocks and that seed. *)
Definition cityKept (w : World) : Prop :=
  exists (id : nat) (c : City),
    w_city w = Some (id, c)
    /\ layoutOf c = layoutOf (createCity dayEnv (w_buildingDensity w) (seed c))
    /\ List.length (cars c) = 144%nat
    /\ w_hud w = Some {| hud_cars := 144; hud_blocks := 144;
                         hud_seed := seed c |}.

(** *** Sidewalks *)

Definition isSidewalkMesh (o : Object3D) : bool :=
  match obj_geometry o with
  | Some g => match geo_id g with res_sidewalkGeo _ _ => true | _ => false end
  | None => false
  end.

Definition citySidewalks (c : City) : list Object3D :=
  filter isSidewalkMesh (obj_children (group c)).

(** The line of lane [l] runs through the inside of [r]. *)
Definition laneCrosses (l : Lane) (r : Rect) : Prop :=
  match axis l with
  | axis_x => minZ r < coord l < maxZ r
  | axis_z => minX r < coord l < maxX r
  end.

(** The plane of the sidewalk [s] is a square of side 68, 0.02 above the
    ground; it shares a strip with a road of the city, and a lane along x
    and a lane along z run through it. *)
Definition sidewalkOverRoad (c : City) (s : Object3D) : Prop :=
  vy (obj_position s) = 2 # 100
  /\ exists sr : Rect,
       groundRect s = Some sr
       /\ maxX sr - minX sr == 68 /\ maxZ sr - minZ sr == 68
       /\ (exists r, In r (roadRects c) /\ overlap sr r)
       /\ exists lx lz : Lane,
            In lx (lanes c) /\ In lz (lanes c)
            /\ axis lx = axis_x /\ axis lz = axis_z
            /\ laneCrosses lx sr /\ laneCrosses lz sr.

(** *** Light, fog and glow *)

(** The instanced mesh of the buildings with material [m]. *)
Definition buildingMesh (m : Material) : Object3D :=
  instancedNode res_buildingGeo (BoxGeometry 1 1 1) m.

(** The background, the colour of the fog and the two lights have the
    values of [isNight]; the density of the fog has the value of
    [weatherMode]; the building material of the city has the glow of
    [isNight], and the mesh of the buildings in the group holds it. *)
Definition lightingKept (w : World) : Prop :=
  w_background w = (if w_isNight w then 0x0b1020 else 0x83a6cf)%Z
  /\ w_fogColor w = (if w_isNight w then 0x0b1020 else 0x98b3d1)%Z
  /\ w_hemi w = (if w_isNight w then 2 # 10 else 7 # 10)
  /\ w_sun w = (if w_isNight w then 15 # 100 else 12 # 10)
  /\ w_fogDensity w = fogDensityOf (w_weatherMode w)
  /\ exists (id : nat) (c : City),
       w_city w = Some (id, c)
       /\ mat_id (m_building (materials c)) = res_buildingMat
       /\ mat_emissiveIntensity (m_building (materials c))
          = (if w_isNight w then 7 # 10 else 12 # 100)
       /\ In (buildingMesh (m_building (materials c)))
             (obj_children (group c)).

(** *** What the page receives *)

(** A result of [Math.random()]. *)
Definition inUnit (q : Q) : Prop := 0 <= q < 1.

(** The clock gives no negative delta. *)
Definition clockOk (op : Op) : Prop :=
  match op with
  | op_frame delta _ => 0 <= delta
  | _ => True
  end.

(** The results of [Math.random()] that the rain uses. *)
Definition rainRandomOk (op : Op) : Prop :=
  match op with
  | op_weatherChange _ rnd => forall i : nat, inUnit (rnd i)
  | op_frame _ rnd => forall i : nat, inUnit (rnd i)
  | _ => True
  end.

(** The results of [Math.random()] that [regenerate()] may use for a
    seed: those of the key handler.  The handler of the slider passes the
    seed of the city. *)
Definition seedRandomOk (op : Op) : Prop :=
  match op with
  | op_keydown _ r _ => inUnit r
  | _ => True
  end.

(** *** Movement *)

Definition motionKept (w : World) : Prop :=
  0 <= w_speed w <= SPRINT /\ 15 # 10 <= w_cameraY w <= 220.

(** *** Rain *)

(** The bounds are closed: the array of the drops holds 32-bit floats, and
    a value below a bound may be stored as the bound. *)
Definition inRainBox (p : Vec3) : Prop :=
  - 130 <= vx p <= 130 /\ - 10 <= vy p <= 200 /\ - 130 <= vz p <= 130.

(** The cloud, when there is one, has 9000 drops, all in the box. *)
Definition rainKept (w : World) : Prop :=
  match w_rainSystem w with
  | Some rs =>
      rain_count rs = 9000%Z
      /\ List.length (rain_positions rs) = (9 * 1000)%nat
      /\ Forall inRainBox (rain_positions rs)
  | None => True
  end.

(** The clouds whose geometry, and whose material, the page has disposed
    of, in the order of the calls. *)
Definition rainGeometryCalls (calls : list PageCall) : list nat :=
  flat_map (fun c => match c with call_rainGeometry id => [id] | _ => [] end)
           calls.

Definition rainMaterialCalls (calls : list PageCall) : list nat :=
  flat_map (fun c => match c with call_rainMaterial id => [id] | _ => [] end)
           calls.

(** No cloud was disposed of twice; the material of a cloud was disposed of
    when its geometry was; and the cloud of the scene was not disposed of. *)
Definition rainDisposalKept (w : World) : Prop :=
  NoDup (rainGeometryCalls (w_calls w))
  /\ rainMaterialCalls (w_calls w) = rainGeometryCalls (w_calls w)
  /\ Forall (fun id => (id < w_nextId w)%nat) (rainGeometryCalls (w_calls w))
  /\ match w_rainSystem w with
     | Some rs =>
         ~ In (rain_id rs) (rainGeometryCalls (w_calls w))
         /\ In (child_rain (rain_id rs)) (w_children w)
         /\ (rain_id rs < w_nextId w)%nat
     | None => True
     end.

(** *** The seed *)

(** The seed of the city is a natural number below 10^9, and the HUD shows
    it. *)
Definition seedKept (w : World) : Prop :=
  exists (id : nat) (c : City) (h : Hud),
    w_city w = Some (id, c)
    /\ (0 <= seed c < 1000000000)%Z
    /\ w_hud w = Some h /\ hud_seed h = seed c.

(** *** Vehicles on the page *)

(** [pos] of line 467: the place of a vehicle along its lane. *)
Definition lanePos (car : Car) : Q :=
  car_t car * car_length car - car_length car / 2.

Definition vehicleOk (car : Car) : Prop :=
  12 <= car_speed car < 26 /\ 0 <= car_t car < 1 /\ car_length car == 910.

Definition trafficKept (w : World) : Prop :=
  exists (id : nat) (c : City),
    w_city w = Some (id, c) /\ Forall vehicleOk (cars c).

(** From [car] to [car'] the vehicle keeps its lane and its speed and goes
    forward by less than 1.3 along the lane, or by that less the 910 of
    the whole lane when it starts again. *)
Definition movesLittle (car car' : Car) : Prop :=
  car_lane car' = car_lane car
  /\ car_speed car' = car_speed car
  /\ exists inc : Q,
       0 <= inc < 13 # 10
       /\ (lanePos car' == lanePos car + inc
           \/ lanePos car' == lanePos car + inc - 910).

(** *** Doubles *)

(** The value of the call number [k] (from 0) of [rng] in binary64. *)
Definition draw64 (k : nat) (s : Z) : Q :=
  fst (Rng64.next (Nat.iter k Rng64.advance s)).

(** [x] is a double, of a magnitude that keeps the sums and differences
    of the generator finite. *)
Definition isDouble (x : Q) : Prop :=
  Double.round x == x /\ Qabs x <= 2 ^ 1000.

(** [x] is a multiple of 2^-j with a numerator below 2^20: every integer
    below 2^20 for j = 0. *)
Definition shortBound (j : Z) (x : Q) : Prop :=
  exists M : Z, x == inject_Z M * 2 ^ (- j) /\ (Z.abs M < 1048576)%Z.

(** [b - a] is at least 2^-19 of the magnitudes of [a] and [b], and not
    below 2^-1000. *)
Definition wideBounds (a b : Q) : Prop :=
  Qabs a <= (b - a) * 524288 /\ Qabs b <= (b - a) * 524288
  /\ 2 ^ (-1000) <= b - a.

(** *** The trees of a park *)

(** The meshes [g] are between 12 and 28 and stand above the plane of
    [p]. *)
Definition treesOfPark (p : Object3D) (g : list Object3D) : Prop :=
  (12 <= List.length g <= 28)%nat /\ Forall (fun t => standsOn t p) g.

(** The trees made so far are, park by park in the order of the parks, the
    trees of that park. *)
Definition treesGrouped (a : Acc) : Prop :=
  exists groups : list (list Object3D),
    a_trees a = concat groups /\ Forall2 treesOfPark (a_parks a) groups.

(** * Properties *)

(** ** The sequence generator *)

Section RngFacts.

Local Open Scope Z_scope.

Lemma mix_range (t0 : Z) : 0 <= Rng.mix t0 < 4294967296.
Proof.
  unfold Rng.mix, Rng.ushr. rewrite Z.shiftr_0_r.
  unfold Rng.ToUint32. apply Z.mod_pos_bound. reflexivity.
Qed.

Lemma next_state (s : Z) : snd (Rng.next s) = Rng.advance s.
Proof. reflexivity. Qed.

Lemma next_value (s : Z) :
  fst (Rng.next s) = (Rng.mix (Rng.advance s) # 4294967296)%Q.
Proof. reflexivity. Qed.

Lemma next_range (s : Z) : (0 <= fst (Rng.next s) < 1)%Q.
Proof.
  rewrite next_value. pose proof (mix_range (Rng.advance s)) as H.
  unfold Qle, Qlt. simpl. lia.
Qed.

Lemma randRange_state (a b : Q) (s : Z) :
  snd (Rng.randRange a b s) = Rng.advance s.
Proof. reflexivity. Qed.

Lemma randRange_value (a b : Q) (s : Z) :
  fst (Rng.randRange a b s) = (a + (b - a) * fst (Rng.next s))%Q.
Proof. reflexivity. Qed.

Lemma randInt_state (a b s : Z) : snd (Rng.randInt a b s) = Rng.advance s.
Proof. reflexivity. Qed.

Lemma randInt_value (a b s : Z) :
  fst (Rng.randInt a b s)
  = Qfloor (fst (Rng.randRange (inject_Z a) (inject_Z (b + 1)) s)).
Proof. reflexivity. Qed.

(** A convex combination stays between its ends. *)
Lemma mix_between (a b u : Q) :
  (a <= b -> 0 <= u < 1 -> a <= a + (b - a) * u <= b)%Q.
Proof.
  intros Hab [Hu0 Hu1].
  assert (0 <= (b - a) * u)%Q by (apply Qmult_le_0_compat; lra).
  assert (0 <= (b - a) * (1 - u))%Q by (apply Qmult_le_0_compat; lra).
  split; lra.
Qed.

Lemma mix_below (a b u : Q) :
  (a < b -> 0 <= u < 1 -> a + (b - a) * u < b)%Q.
Proof.
  intros Hab [Hu0 Hu1].
  assert (0 < (b - a) * (1 - u))%Q by (apply Qmult_lt_0_compat; lra).
  lra.
Qed.

Lemma randRange_between (a b : Q) (s : Z) :
  (a <= b -> a <= fst (Rng.randRange a b s) <= b)%Q.
Proof.
  intros Hab. rewrite randRange_value.
  apply mix_between; [exact Hab | apply next_range].
Qed.

Lemma randRange_bounds (a b : Q) (s : Z) :
  (a < b -> a <= fst (Rng.randRange a b s) < b)%Q.
Proof.
  intros Hab. split.
  - apply randRange_between. lra.
  - rewrite randRange_value. apply mix_below; [exact Hab | apply next_range].
Qed.

Lemma randInt_bounds (a b s : Z) :
  a <= b -> a <= fst (Rng.randInt a b s) <= b.
Proof.
  intros Hab. rewrite randInt_value.
  assert (Hlt : (inject_Z a < inject_Z (b + 1))%Q)
    by (rewrite <- Zlt_Qlt; lia).
  destruct (randRange_bounds _ _ s Hlt) as [Hlo Hhi].
  set (v := fst (Rng.randRange (inject_Z a) (inject_Z (b + 1)) s)) in *.
  split.
  - rewrite <- (Qfloor_Z a). apply Qfloor_resp_le. exact Hlo.
  - assert (Qfloor v < b + 1); [| lia].
    rewrite Zlt_Qlt. apply Qle_lt_trans with v; [apply Qfloor_le | exact Hhi].
Qed.

End RngFacts.

(** ** The lot loop and the block loops *)

Lemma reaches_refl (s : Z) : reaches s s.
Proof. exists 0%nat. reflexivity. Qed.

Lemma reaches_trans (s1 s2 s3 : Z) :
  reaches s1 s2 -> reaches s2 s3 -> reaches s1 s3.
Proof.
  intros [k1 H1] [k2 H2]. exists (k2 + k1)%nat.
  rewrite Nat.iter_add. congruence.
Qed.

Lemma reaches_iter (k : nat) (s : Z) : reaches s (Nat.iter k Rng.advance s).
Proof. exists k. reflexivity. Qed.

Lemma placeBuilding_value (r : Rect) (s : Z) :
  fst (placeBuilding r s)
  = {| b_x := minX r + (maxX r - minX r) * draw 0 s;
       b_z := minZ r + (maxZ r - minZ r) * draw 1 s;
       b_footprint := 8 + (16 - 8) * draw 2 s;
       b_depth := 8 + (16 - 8) * draw 3 s;
       b_h := (Math_pow ((2 # 10) + (1 - (2 # 10)) * draw 4 s) (18 # 10)
               * Q2R (20 + (150 - 20) * draw 5 s))%R;
       b_yaw := - (7 # 100) + ((7 # 100) - - (7 # 100)) * draw 6 s |}.
Proof. reflexivity. Qed.

Lemma placeBuilding_state (r : Rect) (s : Z) :
  snd (placeBuilding r s) = Nat.iter 7 Rng.advance s.
Proof. reflexivity. Qed.

Lemma draw_range (k : nat) (s : Z) : 0 <= draw k s < 1.
Proof. apply next_range. Qed.

Section LotLoop.

Variable r : Rect.
Variable totalEst : Z.

(** What one run of the lot loop does to the accumulator. *)
Lemma lotLoop_spec (n : nat) :
  forall (a : Acc) (s : Z),
  exists new : list Building,
    let a' := fst (lotLoop n r totalEst a s) in
    a_matrices a' = a_matrices a ++ new
    /\ a_parks a' = a_parks a
    /\ a_trees a' = a_trees a
    /\ a_idx a' = (a_idx a + Z.of_nat (List.length new))%Z
    /\ Forall (fun b => exists s', reaches s s' /\ placedAt r s' b) new
    /\ Z.of_nat (List.length new)
       = Z.max 0 (Z.min (Z.of_nat n) (totalEst - a_idx a))
    /\ reaches s (snd (lotLoop n r totalEst a s)).
Proof.
  induction n as [| n IH]; intros a s.
  - exists []. cbn [lotLoop]. unfold ret. cbn [fst snd List.length].
    rewrite app_nil_r. repeat split; auto using reaches_refl; lia.
  - cbn [lotLoop]. destruct (a_idx a >=? totalEst)%Z eqn:Hfull.
    + exists []. unfold ret. cbn [fst snd List.length].
      rewrite app_nil_r. repeat split; auto using reaches_refl; lia.
    + unfold bind. destruct (placeBuilding r s) as [b s1] eqn:Hb.
      destruct (IH (setMatrixAt a b) s1) as (new & Hm & Hp & Ht & Hi & Hf & Hl & Hr).
      assert (Hs1 : reaches s s1).
      { replace s1 with (snd (placeBuilding r s)) by (rewrite Hb; reflexivity).
        rewrite placeBuilding_state. apply reaches_iter. }
      exists (b :: new). cbn zeta in *. cbn [setMatrixAt a_matrices a_parks
        a_trees a_idx] in *.
      rewrite Hm, Hp, Ht, Hi. cbn [List.length].
      repeat split.
      * rewrite <- app_assoc. reflexivity.
      * lia.
      * constructor.
        -- exists s. split; [apply reaches_refl |].
           unfold placedAt. rewrite Hb. reflexivity.
        -- eapply Forall_impl; [| exact Hf].
           intros b' (s' & Hs' & Hb'). exists s'. split; [| exact Hb'].
           eapply reaches_trans; eassumption.
      * lia.
      * eapply reaches_trans; eassumption.
Qed.

(** At [idx >= totalEst] the loop breaks at once. *)
Lemma lotLoop_full (n : nat) (a : Acc) (s : Z) :
  (totalEst <= a_idx a)%Z -> lotLoop n r totalEst a s = (a, s).
Proof.
  intros Hfull. destruct n as [| n]; [reflexivity |].
  cbn [lotLoop]. destruct (a_idx a >=? totalEst)%Z eqn:Hge; [reflexivity | lia].
Qed.

End LotLoop.

Lemma reaches_advance (s : Z) : reaches s (Rng.advance s).
Proof. exists 1%nat. reflexivity. Qed.

Lemma treeLoop_reaches (n : nat) (r : Rect) :
  forall (trees : list Object3D) (s : Z),
    reaches s (snd (treeLoop n r trees s)).
Proof.
  induction n as [| n IH]; intros trees s.
  - apply reaches_refl.
  - cbn [treeLoop]. unfold bind.
    cbv beta iota zeta delta [Rng.randRange Rng.next].
    eapply reaches_trans; [| apply IH].
    eapply reaches_trans; apply reaches_advance.
Qed.

Lemma lotsOfBlock_nonneg (cfg : Config) (s : Z) : (0 <= lotsOfBlock cfg s)%Z.
Proof.
  unfold lotsOfBlock. destruct (Rng.next s) as [u s1].
  destruct (Qlt_le_dec u (parkChance cfg)); [lia |].
  unfold drawLots, bind, ret. destruct (Rng.randInt 8 18 s1). cbn [fst]. lia.
Qed.

Section BlockLoop.

Variable cfg : Config.
Variable totalEst : Z.

Lemma blockStep_spec (b : Z * Z) (a : Acc) (s : Z) :
  exists new : list Building,
    let a' := fst (blockStep cfg totalEst b a s) in
    a_matrices a' = a_matrices a ++ new
    /\ a_idx a' = (a_idx a + Z.of_nat (List.length new))%Z
    /\ Forall (placedIn cfg b s) new
    /\ Z.of_nat (List.length new)
       = Z.max 0 (Z.min (lotsOfBlock cfg s) (totalEst - a_idx a))
    /\ reaches s (snd (blockStep cfg totalEst b a s)).
Proof.
  destruct b as [bx bz]. unfold blockStep, lotsOfBlock, bind.
  destruct (Rng.next s) as [u s1] eqn:Hn.
  assert (Hs1 : reaches s s1).
  { replace s1 with (snd (Rng.next s)) by (rewrite Hn; reflexivity).
    apply reaches_advance. }
  destruct (Qlt_le_dec u (parkChance cfg)) as [Hpark | Hlots].
  - destruct (Rng.randInt 6 14 s1) as [tc s2] eqn:Ht.
    assert (Hs2 : reaches s1 s2).
    { replace s2 with (snd (Rng.randInt 6 14 s1)) by (rewrite Ht; reflexivity).
      apply reaches_advance. }
    pose proof (treeLoop_reaches (Z.to_nat tc) (lotRect cfg bx bz) (a_trees a) s2)
      as Hs3.
    destruct (treeLoop (Z.to_nat tc) (lotRect cfg bx bz) (a_trees a) s2)
      as [trees s3].
    exists []. unfold ret. cbn [fst snd a_matrices a_idx List.length] in *.
    rewrite app_nil_r. repeat split; auto; try lia.
    eapply reaches_trans; [exact Hs1 |]. eapply reaches_trans; eassumption.
  - unfold drawLots, bind, ret.
    destruct (Rng.randInt 8 18 s1) as [lots s2] eqn:Hl.
    assert (Hs2 : reaches s1 s2).
    { replace s2 with (snd (Rng.randInt 8 18 s1)) by (rewrite Hl; reflexivity).
      apply reaches_advance. }
    set (L := Z.max 2 (Math_round (inject_Z lots * densityFactor cfg))).
    destruct (lotLoop_spec (lotRect cfg bx bz) totalEst (Z.to_nat L) a s2)
      as (new & Hm & _ & _ & Hi & Hf & Hc & Hr).
    exists new. cbn zeta in *. cbn [fst snd] in *.
    repeat split; auto.
    + eapply Forall_impl; [| exact Hf].
      intros bd (s' & Hs' & Hbd). exists s'. split; [| exact Hbd].
      eapply reaches_trans; [exact Hs1 |]. eapply reaches_trans; eassumption.
    + rewrite Hc. rewrite Z2Nat.id by (unfold L; lia). reflexivity.
    + eapply reaches_trans; [exact Hs1 |]. eapply reaches_trans; eassumption.
Qed.

(** The whole double loop: the instance buffer grows by one part for each
    block, in the order of the blocks. *)
Lemma blockLoop_spec (bs : list (Z * Z)) :
  forall (a : Acc) (s : Z),
  exists parts : list (list Building),
    let a' := fst (blockLoop cfg totalEst bs a s) in
    a_matrices a' = a_matrices a ++ concat parts
    /\ a_idx a' = (a_idx a + Z.of_nat (List.length (concat parts)))%Z
    /\ Forall2 (fun b part => Forall (placedIn cfg b s) part) bs parts
    /\ ((a_idx a <= totalEst)%Z ->
        a_idx a' = Z.min totalEst (a_idx a + lotsDrawn cfg totalEst bs a s))
    /\ reaches s (snd (blockLoop cfg totalEst bs a s)).
Proof.
  induction bs as [| b bs IH]; intros a s.
  - exists []. cbn [blockLoop lotsDrawn concat List.length fst snd]. unfold ret.
    cbn [fst snd]. rewrite app_nil_r.
    repeat split; auto using reaches_refl; try lia.
  - cbn [blockLoop lotsDrawn]. unfold bind.
    destruct (blockStep_spec b a s) as (new & Hm & Hi & Hf & Hc & Hr).
    pose proof (lotsOfBlock_nonneg cfg s) as Hnn.
    destruct (blockStep cfg totalEst b a s) as [a1 s1].
    cbn zeta in *. cbn [fst snd] in *.
    destruct (IH a1 s1) as (parts & Hm' & Hi' & Hf' & Hc' & Hr').
    exists (new :: parts). cbn zeta in *. cbn [concat].
    rewrite length_app, Hm', Hi', Hm, Hi.
    repeat split.
    + rewrite app_assoc. reflexivity.
    + lia.
    + constructor; [exact Hf |].
      eapply Forall2_impl; [| exact Hf'].
      intros b' part Hpart. eapply Forall_impl; [| exact Hpart].
      intros bd (s' & Hs' & Hbd). exists s'. split; [| exact Hbd].
      eapply reaches_trans; eassumption.
    + intros Hle.
      assert (Hle1 : (a_idx a1 <= totalEst)%Z) by lia.
      specialize (Hc' Hle1). rewrite Hi' in Hc'.
      assert (Hrest : (0 <= lotsDrawn cfg totalEst bs a1 s1)%Z).
      { clear. revert a1 s1. induction bs as [| b' bs' IHb]; intros a1 s1.
        - cbn. lia.
        - cbn [lotsDrawn]. destruct (blockStep cfg totalEst b' a1 s1) as [a2 s2].
          pose proof (lotsOfBlock_nonneg cfg s1). specialize (IHb a2 s2). lia. }
      lia.
    + eapply reaches_trans; eassumption.
Qed.

(** Once [idx] has reached the capacity no block adds a building. *)
Lemma blockLoop_full (bs : list (Z * Z)) :
  forall (a : Acc) (s : Z),
    (totalEst <= a_idx a)%Z ->
    a_matrices (fst (blockLoop cfg totalEst bs a s)) = a_matrices a
    /\ a_idx (fst (blockLoop cfg totalEst bs a s)) = a_idx a.
Proof.
  induction bs as [| b bs IH]; intros a s Hfull.
  - split; reflexivity.
  - cbn [blockLoop]. unfold bind.
    destruct (blockStep_spec b a s) as (new & Hm & Hi & _ & Hc & _).
    pose proof (lotsOfBlock_nonneg cfg s) as Hnn.
    destruct (blockStep cfg totalEst b a s) as [a1 s1].
    cbn zeta in *. cbn [fst snd] in *.
    assert (Hnew : new = []).
    { destruct new; [reflexivity | cbn [List.length] in Hc; lia]. }
    subst new. rewrite app_nil_r in Hm. cbn [List.length] in Hi.
    destruct (IH a1 s1) as [Hm' Hi']; [lia |].
    rewrite Hm', Hi', Hm, Hi. split; [reflexivity | lia].
Qed.

End BlockLoop.

(** ** createCity, part by part *)

Lemma createCity_eq (env : Env) (density : Q) (seed0 : Z) :
  createCity env density seed0
  = let cfg := mkConfig density in
    let acc := fst (blocksResult density seed0) in
    let carCount := carCountOf cfg in
    {| group :=
         Group ([Group (roadMeshesH cfg (roadMaterialOf env)
                        ++ roadMeshesV cfg (roadMaterialOf env))]
                ++ sidewalkMeshes cfg (plainMaterial res_sidewalkMat)
                ++ a_parks acc
                ++ [instancedNode res_buildingGeo (BoxGeometry 1 1 1)
                                  (buildingMaterialOf env seed0);
                    Group (a_trees acc)] ++ carNodes);
       config := cfg;
       buildings := {| capacity := totalEstOf cfg; count := a_idx acc;
                       matrices := a_matrices acc |};
       carsMeshes :=
         {| bodyMesh := repeat identityTransform (Z.to_nat carCount);
            roofMesh := repeat identityTransform (Z.to_nat carCount);
            wheelMesh := repeat identityTransform (Z.to_nat (carCount * 4)) |};
       cars := fst (carsResult density seed0);
       lanes := makeLanes cfg;
       materials :=
         {| m_building := buildingMaterialOf env seed0;
            m_road := roadMaterialOf env;
            m_sidewalk := plainMaterial res_sidewalkMat;
            m_carBody := plainMaterial res_bodyMat;
            m_carGlass := plainMaterial res_glassMat;
            m_carWheel := plainMaterial res_wheelMat |};
       seed := seed0 |}.
Proof.
  unfold createCity, carsResult, blocksResult, buildingMaterialOf, facadeOf,
    afterFacadeDraws.
  cbv beta iota zeta delta [Rng.randInt Rng.randRange Rng.next fst snd].
  destruct (blockLoop (mkConfig density) (totalEstOf (mkConfig density))
              (blockList (mkConfig density)) emptyAcc
              (Rng.advance (Rng.advance (Rng.advance seed0)))) as [acc s4].
  destruct (carLoop (Z.to_nat (carCountOf (mkConfig density))) (mkConfig density)
              (makeLanes (mkConfig density)) [] s4) as [cs s5].
  reflexivity.
Qed.

(** ** Binary64: the rounding *)

Lemma two_pow_pos (k : Z) : 0 < 2 ^ k.
Proof. apply Qpower_0_lt. reflexivity. Qed.

Lemma two_pow_succ (k : Z) : 2 ^ (k + 1) == 2 * 2 ^ k.
Proof. rewrite Qpower_plus by discriminate. change (2 ^ 1) with 2. ring. Qed.

Lemma two_pow_pred (k : Z) : 2 ^ (k - 1) == 2 ^ k / 2.
Proof.
  replace k with ((k - 1) + 1)%Z at 2 by lia. rewrite two_pow_succ. field.
Qed.

Lemma two_pow_sub (a b : Z) : 2 ^ (a - b) == 2 ^ a / 2 ^ b.
Proof. apply Qpower_minus. discriminate. Qed.

Lemma two_pow_add (a b : Z) : 2 ^ (a + b) == 2 ^ a * 2 ^ b.
Proof. apply Qpower_plus. discriminate. Qed.

Lemma two_pow_inject (n : Z) : (0 <= n)%Z -> inject_Z (2 ^ n) == 2 ^ n.
Proof. intros Hn. apply (Zpower_Qpower 2 n Hn). Qed.

Lemma two_pow_le (a b : Z) : (a <= b)%Z -> 2 ^ a <= 2 ^ b.
Proof. intros H. apply Qpower_le_compat_l; [exact H | discriminate]. Qed.

Lemma two_pow_lt_inv (a b : Z) : 2 ^ a < 2 ^ b -> (a < b)%Z.
Proof. intros H. apply (Qpower_lt_compat_l_inv 2); [exact H | reflexivity]. Qed.

Lemma inject_Z_sub (x y : Z) : inject_Z (x - y) == inject_Z x - inject_Z y.
Proof. unfold Z.sub. rewrite inject_Z_plus, inject_Z_opp. reflexivity. Qed.

Lemma ratio_bounds (N D A B : Q) :
  0 < A -> 0 < B -> A <= N < 2 * A -> B <= D < 2 * B ->
  A / B / 2 <= N / D < 2 * (A / B).
Proof.
  intros HA HB [HN0 HN1] [HD0 HD1].
  assert (HD : 0 < D) by lra.
  set (r := A / B).
  assert (Hr : r * B == A) by (unfold r; field; lra).
  assert (Hr0 : 0 < r) by (unfold r; apply Qlt_shift_div_l; lra).
  split.
  - apply Qle_shift_div_l; [exact HD |].
    setoid_replace (r / 2 * D) with (r * D * (1 # 2)) by field. nra.
  - apply Qlt_shift_div_r; [exact HD |]. nra.
Qed.

(** [ilog2] finds the binade of a positive number. *)
Lemma ilog2_spec (x : Q) :
  0 < x -> 2 ^ Double.ilog2 x <= x < 2 ^ (Double.ilog2 x + 1).
Proof.
  intros Hx. unfold Double.ilog2.
  destruct x as [n d]. cbn [Qnum Qden].
  assert (Hn : (0 < n)%Z) by (unfold Qlt in Hx; cbn in Hx; lia).
  set (a := Z.log2 n). set (b := Z.log2 (Zpos d)).
  destruct (Z.log2_spec n Hn) as [Ha0 Ha1]. fold a in Ha0, Ha1.
  destruct (Z.log2_spec (Zpos d) eq_refl) as [Hb0 Hb1]. fold b in Hb0, Hb1.
  assert (Ha : (0 <= a)%Z) by apply Z.log2_nonneg.
  assert (Hb : (0 <= b)%Z) by apply Z.log2_nonneg.
  assert (Hx' : n # d == inject_Z n / inject_Z (Zpos d)) by apply Qmake_Qdiv.
  assert (Hqa0 : 2 ^ a <= inject_Z n).
  { rewrite <- two_pow_inject by exact Ha. rewrite <- Zle_Qle. exact Ha0. }
  assert (Hqa1 : inject_Z n < 2 ^ (a + 1)).
  { rewrite <- two_pow_inject by lia. rewrite <- Zlt_Qlt.
    replace (a + 1)%Z with (Z.succ a) by lia. exact Ha1. }
  assert (Hqb0 : 2 ^ b <= inject_Z (Zpos d)).
  { rewrite <- two_pow_inject by exact Hb. rewrite <- Zle_Qle. exact Hb0. }
  assert (Hqb1 : inject_Z (Zpos d) < 2 ^ (b + 1)).
  { rewrite <- two_pow_inject by lia. rewrite <- Zlt_Qlt.
    replace (b + 1)%Z with (Z.succ b) by lia. exact Hb1. }
  rewrite two_pow_succ in Hqa1, Hqb1.
  destruct (ratio_bounds (inject_Z n) (inject_Z (Zpos d)) (2 ^ a) (2 ^ b)
              (two_pow_pos a) (two_pow_pos b) (conj Hqa0 Hqa1) (conj Hqb0 Hqb1))
    as [Hlo Hhi].
  rewrite <- Hx', <- two_pow_sub in Hlo, Hhi.
  rewrite <- two_pow_pred in Hlo. rewrite <- two_pow_succ in Hhi.
  destruct (Qle_bool (2 ^ (a - b)) (n # d)) eqn:Hcmp.
  - apply Qle_bool_iff in Hcmp. split; assumption.
  - assert (Hlt : n # d < 2 ^ (a - b)).
    { apply Qnot_le_lt. intros H. apply Qle_bool_iff in H. congruence. }
    replace (a - b - 1 + 1)%Z with (a - b)%Z by lia. split; assumption.
Qed.

Lemma rne_eq (q : Q) (z : Z) : q == inject_Z z -> Double.rne q = z.
Proof.
  intros Hq. unfold Double.rne.
  assert (Hf : Qfloor q = z) by (rewrite Hq; apply Qfloor_Z).
  rewrite Hf.
  assert (Hc : (q - inject_Z z ?= 1 # 2) = Lt).
  { rewrite <- Qlt_alt. rewrite Hq. unfold Qminus. rewrite Qplus_opp_r.
    reflexivity. }
  rewrite Hc. reflexivity.
Qed.

Lemma rne_error (q : Q) : Qabs (inject_Z (Double.rne q) - q) <= 1 # 2.
Proof.
  unfold Double.rne.
  pose proof (Qfloor_le q) as Hlo. pose proof (Qlt_floor q) as Hhi.
  rewrite inject_Z_plus in Hhi. change (inject_Z 1) with 1 in Hhi.
  set (f := Qfloor q) in *.
  apply Qabs_Qle_condition.
  destruct (q - inject_Z f ?= 1 # 2) eqn:Hc.
  - apply Qeq_alt in Hc.
    destruct (Z.even f); rewrite ?inject_Z_plus;
      change (inject_Z 1) with 1; split; lra.
  - apply Qlt_alt in Hc. split; lra.
  - apply Qgt_alt in Hc. rewrite inject_Z_plus. change (inject_Z 1) with 1.
    split; lra.
Qed.

Lemma Qabs_nonzero (x : Q) : ~ x == 0 -> 0 < Qabs x.
Proof.
  intros H0. destruct (Qlt_le_dec 0 x) as [Hp | Hn].
  - rewrite Qabs_pos by lra. exact Hp.
  - rewrite Qabs_neg by exact Hn.
    destruct (Qle_lt_or_eq _ _ Hn) as [Hlt | Heq]; [lra | contradiction].
Qed.

Lemma exponent_ge (x : Q) : (-1074 <= Double.exponent x)%Z.
Proof. unfold Double.exponent. lia. Qed.

Lemma round_zero (x : Q) : x == 0 -> Double.round x == 0.
Proof.
  intros Hx. unfold Double.round.
  destruct (Qeq_bool x 0) eqn:Hb; [reflexivity |].
  apply Qeq_bool_neq in Hb. contradiction.
Qed.

Lemma round_nonzero (x : Q) :
  ~ x == 0 ->
  Double.round x
  = inject_Z (Double.rne (x / 2 ^ Double.exponent x)) * 2 ^ Double.exponent x.
Proof.
  intros Hx. unfold Double.round.
  destruct (Qeq_bool x 0) eqn:Hb; [| reflexivity].
  apply Qeq_bool_iff in Hb. contradiction.
Qed.

(** A number with at most 53 significant bits, not below the last place
    of the subnormal numbers, is a double: rounding leaves it. *)
Lemma round_exact (x : Q) (m i : Z) :
  x == inject_Z m * 2 ^ i -> (Z.abs m < 2 ^ 53)%Z -> (-1074 <= i)%Z ->
  Double.round x == x.
Proof.
  intros Hx Hm Hi.
  destruct (Qeq_dec x 0) as [H0 | H0]; [rewrite round_zero; [symmetry |]; exact H0 |].
  rewrite round_nonzero by exact H0.
  set (e := Double.exponent x).
  pose proof (Qabs_nonzero x H0) as Habs.
  assert (He : (e <= i)%Z).
  { unfold e, Double.exponent.
    destruct (ilog2_spec (Qabs x) Habs) as [Hl _].
    assert (Hlt : Qabs x < 2 ^ (53 + i)).
    { rewrite Hx, Qabs_Qmult, (Qabs_pos (2 ^ i)) by (apply Qlt_le_weak, two_pow_pos).
      rewrite Qpower_plus by discriminate.
      apply Qmult_lt_compat_r; [apply two_pow_pos |].
      change (Qabs (inject_Z m)) with (inject_Z (Z.abs m)).
      change (2 ^ 53) with (inject_Z (2 ^ 53)). rewrite <- Zlt_Qlt. exact Hm. }
    assert (Double.ilog2 (Qabs x) < 53 + i)%Z.
    { apply two_pow_lt_inv. apply Qle_lt_trans with (Qabs x); assumption. }
    lia. }
  assert (Hscaled : x / 2 ^ e == inject_Z (m * 2 ^ (i - e))).
  { rewrite inject_Z_mult, two_pow_inject by lia.
    rewrite Hx, two_pow_sub. field.
    pose proof (two_pow_pos e). lra. }
  rewrite (rne_eq _ _ Hscaled).
  rewrite inject_Z_mult, two_pow_inject by lia.
  rewrite Hx, two_pow_sub. field.
  pose proof (two_pow_pos e). lra.
Qed.

(** The distance of a double to the number it rounds. *)
Lemma round_error (x : Q) :
  Qabs (Double.round x - x) <= Qabs x * (1 # 9007199254740992) + 2 ^ (-1075).
Proof.
  assert (Htiny : 0 < 2 ^ (-1075)) by apply two_pow_pos.
  destruct (Qeq_dec x 0) as [H0 | H0].
  { rewrite (round_zero x H0), H0. cbn [Qabs]. 
    setoid_replace (0 - 0) with 0 by ring. cbn [Qabs Z.abs Qnum Qden]. lra. }
  rewrite round_nonzero by exact H0.
  set (e := Double.exponent x).
  pose proof (two_pow_pos e) as Hpe.
  pose proof (rne_error (x / 2 ^ e)) as Herr.
  set (r := inject_Z (Double.rne (x / 2 ^ e))) in *.
  assert (Heq : r * 2 ^ e - x == (r - x / 2 ^ e) * 2 ^ e) by (field; lra).
  rewrite Heq, Qabs_Qmult, (Qabs_pos (2 ^ e)) by lra.
  pose proof (Qabs_nonzero x H0) as Habs.
  assert (Hpow : 2 ^ e <= Qabs x * (2 # 9007199254740992) + 2 * 2 ^ (-1075)).
  { unfold e, Double.exponent.
    destruct (ilog2_spec (Qabs x) Habs) as [Hl _].
    destruct (Z.max_spec (Double.ilog2 (Qabs x) - 52) (-1074)) as [[_ ->] | [_ ->]].
    - change (2 ^ (-1074)) with (2 ^ (-1075 + 1)). rewrite two_pow_succ. lra.
    - rewrite two_pow_sub. change (2 ^ 52) with (4503599627370496 # 1).
      set (p := 2 ^ Double.ilog2 (Qabs x)) in *.
      setoid_replace (p / (4503599627370496 # 1)) with (p * (1 # 4503599627370496))
        by (field). lra. }
  set (d := Qabs (r - x / 2 ^ e)) in *.
  assert (0 <= d) by apply Qabs_nonneg.
  nra.
Qed.

Lemma rne_cases (q : Q) :
  (Double.rne q = Qfloor q /\ q - inject_Z (Qfloor q) <= 1 # 2)
  \/ (Double.rne q = (Qfloor q + 1)%Z /\ 1 # 2 <= q - inject_Z (Qfloor q)).
Proof.
  unfold Double.rne. set (f := Qfloor q).
  destruct (q - inject_Z f ?= 1 # 2) eqn:Hc.
  - apply Qeq_alt in Hc. destruct (Z.even f); [left | right]; split;
      try reflexivity; rewrite Hc; apply Qle_refl.
  - apply Qlt_alt in Hc. left. split; [reflexivity | lra].
  - apply Qgt_alt in Hc. right. split; [reflexivity | lra].
Qed.

Lemma rne_mono (q q' : Q) : q <= q' -> (Double.rne q <= Double.rne q')%Z.
Proof.
  intros Hq.
  pose proof (Qfloor_resp_le q q' Hq) as Hf.
  destruct (Z.eq_dec (Qfloor q) (Qfloor q')) as [Heq | Hne].
  - unfold Double.rne. rewrite <- Heq. set (f := Qfloor q).
    destruct (q - inject_Z f ?= 1 # 2) eqn:Hc;
      destruct (q' - inject_Z f ?= 1 # 2) eqn:Hc';
      first [apply Qeq_alt in Hc | apply Qlt_alt in Hc | apply Qgt_alt in Hc];
      first [apply Qeq_alt in Hc' | apply Qlt_alt in Hc' | apply Qgt_alt in Hc'];
      try (destruct (Z.even f)); try lia; exfalso; lra.
  - destruct (rne_cases q) as [[-> _] | [-> _]];
      destruct (rne_cases q') as [[-> _] | [-> _]]; lia.
Qed.

Lemma rne_opp (q : Q) : Double.rne (- q) = (- Double.rne q)%Z.
Proof.
  unfold Double.rne.
  pose proof (Qfloor_le q) as Hlo. pose proof (Qlt_floor q) as Hhi.
  rewrite inject_Z_plus in Hhi. change (inject_Z 1) with 1 in Hhi.
  destruct (Qeq_dec q (inject_Z (Qfloor q))) as [Hint | Hfrac].
  - assert (H1 : Qfloor (- q) = (- Qfloor q)%Z).
    { rewrite Hint at 1. rewrite <- inject_Z_opp. apply Qfloor_Z. }
    rewrite H1.
    assert (Hc : (q - inject_Z (Qfloor q) ?= 1 # 2) = Lt)
      by (rewrite <- Qlt_alt; lra).
    assert (Hc' : (- q - inject_Z (- Qfloor q) ?= 1 # 2) = Lt).
    { rewrite <- Qlt_alt. rewrite inject_Z_opp. lra. }
    rewrite Hc, Hc'. reflexivity.
  - assert (H1 : Qfloor (- q) = (- Qfloor q - 1)%Z).
    { symmetry. apply Z.le_antisymm.
      - rewrite <- (Qfloor_Z (- Qfloor q - 1)). apply Qfloor_resp_le.
        rewrite inject_Z_sub, inject_Z_opp. change (inject_Z 1) with 1. lra.
      - assert (Qfloor (- q) < - Qfloor q)%Z; [| lia].
        rewrite Zlt_Qlt. apply Qle_lt_trans with (- q); [apply Qfloor_le |].
        rewrite inject_Z_opp.
        assert (inject_Z (Qfloor q) < q); [| lra].
        apply Qle_lt_or_eq in Hlo. destruct Hlo as [H | H]; [exact H |].
        exfalso. apply Hfrac. symmetry. exact H. }
    rewrite H1. set (f := Qfloor q) in *.
    rewrite inject_Z_sub, inject_Z_opp. change (inject_Z 1) with 1.
    destruct (q - inject_Z f ?= 1 # 2) eqn:Hc;
      destruct (- q - (- inject_Z f - 1) ?= 1 # 2) eqn:Hc';
      first [apply Qeq_alt in Hc | apply Qlt_alt in Hc | apply Qgt_alt in Hc];
      first [apply Qeq_alt in Hc' | apply Qlt_alt in Hc' | apply Qgt_alt in Hc'];
      try (exfalso; lra).
    + rewrite Z.even_sub, Z.even_opp. change (Z.even 1) with false.
      destruct (Z.even f); cbn; lia.
    + lia.
    + lia.
Qed.

Lemma rne_proper (q q' : Q) : q == q' -> Double.rne q = Double.rne q'.
Proof.
  intros Hq. unfold Double.rne. rewrite (Qfloor_comp _ _ Hq).
  assert (Hc : (q - inject_Z (Qfloor q') ?= 1 # 2)
               = (q' - inject_Z (Qfloor q') ?= 1 # 2)).
  { apply Qcompare_comp; [rewrite Hq; reflexivity | reflexivity]. }
  rewrite Hc. reflexivity.
Qed.

Lemma Qabs_opp_eq (x : Q) : Qabs (- x) = Qabs x.
Proof. destruct x as [n d]. unfold Qabs, Qopp. cbn. rewrite Z.abs_opp. reflexivity. Qed.

Lemma Qabs_pos_eq (x : Q) : 0 <= x -> Qabs x = x.
Proof.
  destruct x as [n d]. unfold Qle, Qabs. cbn. intros H.
  rewrite Z.abs_eq by lia. reflexivity.
Qed.

Lemma exponent_opp (x : Q) : Double.exponent (- x) = Double.exponent x.
Proof. unfold Double.exponent. rewrite Qabs_opp_eq. reflexivity. Qed.

Lemma round_opp (x : Q) : Double.round (- x) == - Double.round x.
Proof.
  destruct (Qeq_dec x 0) as [H0 | H0].
  - rewrite (round_zero x H0), (round_zero (- x)); [reflexivity | lra].
  - rewrite (round_nonzero x H0), (round_nonzero (- x)) by lra.
    rewrite exponent_opp. set (e := Double.exponent x).
    pose proof (two_pow_pos e) as Hpe.
    assert (Hq : - x / 2 ^ e == - (x / 2 ^ e)) by (field; lra).
    rewrite (rne_proper _ _ Hq), rne_opp, inject_Z_opp. ring.
Qed.

Lemma round_nonneg (x : Q) : 0 <= x -> 0 <= Double.round x.
Proof.
  intros Hx. destruct (Qeq_dec x 0) as [H0 | H0].
  - rewrite (round_zero x H0). apply Qle_refl.
  - rewrite (round_nonzero x H0). set (e := Double.exponent x).
    pose proof (two_pow_pos e) as Hpe.
    assert (Hq : 0 <= x / 2 ^ e) by (apply Qle_shift_div_l; lra).
    pose proof (rne_mono 0 _ Hq) as Hr.
    rewrite (rne_eq 0 0 (Qeq_refl 0)) in Hr.
    rewrite Zle_Qle in Hr. change (inject_Z 0) with 0 in Hr. nra.
Qed.

Lemma round_nonpos (x : Q) : x <= 0 -> Double.round x <= 0.
Proof.
  intros Hx. assert (H : 0 <= Double.round (- x)) by (apply round_nonneg; lra).
  rewrite round_opp in H. lra.
Qed.

Lemma ilog2_mono (x y : Q) :
  0 < x -> x <= y -> (Double.ilog2 x <= Double.ilog2 y)%Z.
Proof.
  intros Hx Hxy.
  destruct (ilog2_spec x Hx) as [Hx0 _].
  destruct (ilog2_spec y) as [_ Hy1]; [lra |].
  assert (Double.ilog2 x < Double.ilog2 y + 1)%Z; [| lia].
  apply two_pow_lt_inv. lra.
Qed.

Lemma round_mono_pos (x y : Q) :
  0 < x -> x <= y -> Double.round x <= Double.round y.
Proof.
  intros Hx Hxy. assert (Hy : 0 < y) by lra.
  rewrite (round_nonzero x), (round_nonzero y) by lra.
  pose proof (ilog2_mono x y Hx Hxy) as Hl.
  destruct (ilog2_spec x Hx) as [Hx0 Hx1].
  destruct (ilog2_spec y Hy) as [Hy0 Hy1].
  unfold Double.exponent. rewrite (Qabs_pos_eq x), (Qabs_pos_eq y) by lra.
  set (lx := Double.ilog2 x) in *. set (ly := Double.ilog2 y) in *.
  set (ex := Z.max (lx - 52) (-1074)). set (ey := Z.max (ly - 52) (-1074)).
  pose proof (two_pow_pos ex) as Hpx. pose proof (two_pow_pos ey) as Hpy.
  destruct (Z.eq_dec ex ey) as [Heq | Hne].
  - rewrite <- Heq.
    assert (Hq : x / 2 ^ ex <= y / 2 ^ ex).
    { apply Qle_shift_div_l; [exact Hpx |].
      setoid_replace (x / 2 ^ ex * 2 ^ ex) with x by (field; lra). exact Hxy. }
    pose proof (rne_mono _ _ Hq) as Hr. rewrite Zle_Qle in Hr. nra.
  - assert (Hlt : (ex + 1 <= ey)%Z) by lia.
    assert (Hey : ey = (ly - 52)%Z) by lia.
    (* below: round x <= 2^(ex+53) <= 2^ly <= round y *)
    assert (Hrx : inject_Z (Double.rne (x / 2 ^ ex)) <= 2 ^ 53).
    { assert (Hq : x / 2 ^ ex <= inject_Z (2 ^ 53)).
      { apply Qle_shift_div_r; [exact Hpx |].
        change (inject_Z (2 ^ 53)) with (2 ^ 53). rewrite <- two_pow_add.
        apply Qle_trans with (2 ^ (lx + 1)); [lra |].
        apply two_pow_le. lia. }
      pose proof (rne_mono _ _ Hq) as Hr.
      rewrite (rne_eq _ _ (Qeq_refl _)) in Hr.
      rewrite Zle_Qle in Hr. exact Hr. }
    assert (Hry : 2 ^ 52 <= inject_Z (Double.rne (y / 2 ^ ey))).
    { assert (Hq : inject_Z (2 ^ 52) <= y / 2 ^ ey).
      { apply Qle_shift_div_l; [exact Hpy |].
        change (inject_Z (2 ^ 52)) with (2 ^ 52). rewrite <- two_pow_add.
        replace (52 + ey)%Z with ly by lia. exact Hy0. }
      pose proof (rne_mono _ _ Hq) as Hr.
      rewrite (rne_eq _ _ (Qeq_refl _)) in Hr.
      rewrite Zle_Qle in Hr. exact Hr. }
    apply Qle_trans with (2 ^ 53 * 2 ^ ex); [nra |].
    apply Qle_trans with (2 ^ 52 * 2 ^ ey); [| nra].
    rewrite <- !two_pow_add. apply two_pow_le. lia.
Qed.

(** Rounding keeps the order. *)
Lemma round_mono (x y : Q) : x <= y -> Double.round x <= Double.round y.
Proof.
  intros Hxy.
  destruct (Qlt_le_dec 0 x) as [Hx | Hx].
  - apply round_mono_pos; assumption.
  - destruct (Qlt_le_dec y 0) as [Hy | Hy].
    + assert (H : Double.round (- y) <= Double.round (- x))
        by (apply round_mono_pos; lra).
      rewrite !round_opp in H. lra.
    + apply Qle_trans with 0; [apply round_nonpos | apply round_nonneg];
        assumption.
Qed.

Lemma round_proper (x y : Q) : x == y -> Double.round x == Double.round y.
Proof.
  intros H. apply Qle_antisym; apply round_mono; rewrite H; apply Qle_refl.
Qed.

(** A double is a multiple of 2^-1074. *)
Lemma double_on_grid (x : Q) :
  Double.round x == x -> exists M : Z, x == inject_Z M * 2 ^ (-1074).
Proof.
  intros Hx. destruct (Qeq_dec x 0) as [H0 | H0].
  - exists 0%Z. rewrite H0. ring.
  - rewrite (round_nonzero x H0) in Hx.
    pose proof (exponent_ge x) as He. set (e := Double.exponent x) in *.
    exists (Double.rne (x / 2 ^ e) * 2 ^ (e + 1074))%Z.
    rewrite inject_Z_mult, two_pow_inject by lia.
    assert (H1 : 2 ^ (e + 1074) * 2 ^ (-1074) == 2 ^ e).
    { rewrite <- two_pow_add. replace (e + 1074 + -1074)%Z with e by lia.
      reflexivity. }
    rewrite <- Qmult_assoc, H1. symmetry. exact Hx.
Qed.

(** The difference of two doubles that are closer than 2^-1021 is a
    double. *)
Lemma sub_exact_when_tiny (a b : Q) :
  Double.round a == a -> Double.round b == b ->
  Qabs (b - a) < 2 ^ (-1021) ->
  Double.round (b - a) == b - a.
Proof.
  intros Ha Hb Hd.
  destruct (double_on_grid a Ha) as [Ma HMa].
  destruct (double_on_grid b Hb) as [Mb HMb].
  assert (Heq : b - a == inject_Z (Mb - Ma) * 2 ^ (-1074)).
  { rewrite HMa, HMb, inject_Z_sub. ring. }
  apply (round_exact _ (Mb - Ma) (-1074)); [exact Heq | | lia].
  rewrite Heq, Qabs_Qmult in Hd.
  rewrite (Qabs_pos (2 ^ (-1074))) in Hd by (apply Qlt_le_weak, two_pow_pos).
  change (Qabs (inject_Z (Mb - Ma))) with (inject_Z (Z.abs (Mb - Ma))) in Hd.
  assert (H53 : 2 ^ (-1021) == inject_Z (2 ^ 53) * 2 ^ (-1074)).
  { rewrite two_pow_inject by lia. rewrite <- two_pow_add. reflexivity. }
  rewrite H53 in Hd. rewrite Zlt_Qlt.
  pose proof (two_pow_pos (-1074)) as Hp.
  apply Qmult_lt_r in Hd; assumption.
Qed.

Lemma round_inject_Z (z : Z) :
  (Z.abs z < 2 ^ 53)%Z -> Double.round (inject_Z z) == inject_Z z.
Proof.
  intros Hz. apply (round_exact _ z 0); [| exact Hz | discriminate].
  change (2 ^ 0) with 1. ring.
Qed.

Lemma add_one_exact (b : Z) :
  (Z.abs b <= 2 ^ 52)%Z -> Double.add (inject_Z b) 1 == inject_Z (b + 1).
Proof.
  intros Hb. unfold Double.add.
  assert (H : inject_Z b + 1 == inject_Z (b + 1))
    by (rewrite inject_Z_plus; reflexivity).
  rewrite (round_proper _ _ H). apply round_inject_Z. lia.
Qed.

(** [Double] and the specification of the Standard Library give the same
    sums, products, differences and quotients at these doubles: a sum that
    is not a double, ties, sums beyond 2^53, subnormal numbers and negative
    numbers among them. *)
Example Double_matches_SpecFloat :
  forallb (sameAt (SpecFloat.SFadd 53 1024) Double.add)
          [ (3602879701896397, -55, (3602879701896397, -54));
            (9007199254740994, 0, (1831565813, 0));
            (9007199254740992, 0, (1, 0));
            (9007199254740992, 0, (3, 0));
            (1073741824, 0, (4294966961, -32));
            (-3, -1074, (1, -1075 + 1)) ]%Z
  && forallb (sameAt (SpecFloat.SFmul 53 1024) Double.mul)
          [ (12, 0, (6004799503160661, -57));
            (15, 0, (5404319552844595, -54));
            (3, -1074, (1, -1));
            (5, -1074, (1, -1));
            (-7, -1074, (1, -2)) ]%Z
  && forallb (sameAt (SpecFloat.SFsub 53 1024) Double.sub)
          [ (1073741825, 0, (1073741824, 0));
            (1, 0, (1, -60));
            (1, 60, (1, 0)) ]%Z
  && forallb (sameAt (SpecFloat.SFdiv 53 1024) Double.div)
          [ (1, 0, (3, 0)); (4294966961, 0, (4294967296, 0));
            (2, 0, (-3, 0)); (1, -1070, (3, 0)) ]%Z
  = true.
Proof. vm_compute. reflexivity. Qed.

(** ** Binary64: the generator *)

(** *** The generator in binary64 *)

Lemma advance64_exact (s : Z) :
  (Z.abs (s + 1831565813) < 2 ^ 53)%Z -> Rng64.advance s = Rng.advance s.
Proof.
  intros Hs. unfold Rng64.advance, Rng.advance, Double.add.
  assert (H : Double.round (inject_Z s + 1831565813)
              == inject_Z (s + 1831565813)).
  { rewrite (round_exact _ (s + 1831565813) 0);
      [| | exact Hs | discriminate];
      rewrite inject_Z_plus; change (inject_Z 1831565813) with 1831565813;
      [reflexivity |]. change (2 ^ 0) with 1. ring. }
  rewrite H. apply Qfloor_Z.
Qed.

Lemma next64_state (s : Z) : snd (Rng64.next s) = Rng64.advance s.
Proof. reflexivity. Qed.

(** The division by 2^32 is exact. *)
Lemma next64_value (s : Z) :
  fst (Rng64.next s) == inject_Z (Rng.mix (Rng64.advance s)) * 2 ^ (-32).
Proof.
  unfold Rng64.next, Double.div. cbn [fst].
  pose proof (mix_range (Rng64.advance s)) as Hk.
  set (k := Rng.mix (Rng64.advance s)) in *.
  assert (Hx : inject_Z k / 4294967296 == inject_Z k * 2 ^ (-32)).
  { change (2 ^ (-32)) with (/ 4294967296). reflexivity. }
  rewrite <- Hx. apply (round_exact _ k (-32)); [exact Hx | lia | discriminate].
Qed.

Lemma next64_range (s : Z) : 0 <= fst (Rng64.next s) < 1.
Proof.
  rewrite next64_value. pose proof (mix_range (Rng64.advance s)) as [H0 H1].
  set (k := Rng.mix (Rng64.advance s)) in *.
  change (2 ^ (-32)) with (1 # 4294967296).
  rewrite Zle_Qle in H0. rewrite Zlt_Qlt in H1.
  change (inject_Z 0) with 0 in H0.
  change (inject_Z 4294967296) with 4294967296 in H1.
  split; lra.
Qed.

Lemma next64_below (s : Z) :
  0 <= fst (Rng64.next s) <= 4294967295 # 4294967296.
Proof.
  rewrite next64_value. pose proof (mix_range (Rng64.advance s)) as [H0 H1].
  set (k := Rng.mix (Rng64.advance s)) in *.
  change (2 ^ (-32)) with (1 # 4294967296).
  assert (H2 : (k <= 4294967295)%Z) by lia.
  rewrite Zle_Qle in H0, H2.
  change (inject_Z 0) with 0 in H0.
  change (inject_Z 4294967295) with 4294967295 in H2.
  split; lra.
Qed.

Lemma randRange64_value (a b : Q) (s : Z) :
  fst (Rng64.randRange a b s)
  = Double.add a (Double.mul (Double.sub b a) (fst (Rng64.next s))).
Proof. unfold Rng64.randRange. destruct (Rng64.next s). reflexivity. Qed.

Lemma randRange64_state (a b : Q) (s : Z) :
  snd (Rng64.randRange a b s) = Rng64.advance s.
Proof.
  unfold Rng64.randRange. rewrite <- next64_state.
  destruct (Rng64.next s). reflexivity.
Qed.

(** With bounds that are multiples of one power of two, of at most 21
    bits, no operation of [randRange] rounds. *)
Lemma randRange64_exact (a b : Q) (A B j s : Z) :
  a == inject_Z A * 2 ^ (- j) -> b == inject_Z B * 2 ^ (- j) ->
  (Z.abs A <= 2097151)%Z -> (Z.abs B <= 2097151)%Z ->
  (Z.abs (B - A) <= 2097152)%Z -> (0 <= j <= 1000)%Z ->
  fst (Rng64.randRange a b s) == a + (b - a) * fst (Rng64.next s).
Proof.
  intros Ha Hb HA HB HD Hj. rewrite randRange64_value.
  pose proof (next64_value s) as Hu.
  pose proof (mix_range (Rng64.advance s)) as Hk.
  set (u := fst (Rng64.next s)) in *.
  set (k := Rng.mix (Rng64.advance s)) in *.
  unfold Double.add, Double.mul, Double.sub.
  assert (Hd : Double.round (b - a) == b - a).
  { apply (round_exact _ (B - A) (- j)); [| lia | lia].
    rewrite Ha, Hb, inject_Z_sub. ring. }
  assert (Hp : Double.round (Double.round (b - a) * u) == (b - a) * u).
  { rewrite (round_exact _ ((B - A) * k) (- j + -32)); [| | | lia].
    - rewrite Hd. reflexivity.
    - rewrite Hd, Hu, Ha, Hb.
      rewrite inject_Z_mult, inject_Z_sub, two_pow_add. ring.
    - rewrite Z.abs_mul, (Z.abs_eq k) by lia.
      assert (Z.abs (B - A) * k <= 2097152 * 4294967295)%Z; [| lia].
      apply Z.mul_le_mono_nonneg; lia. }
  rewrite (round_exact _ (A * 4294967296 + (B - A) * k) (- j + -32)); [| | | lia].
  - rewrite Hp. reflexivity.
  - rewrite Hp, Hu, Ha, Hb.
    rewrite inject_Z_plus, !inject_Z_mult, inject_Z_sub, two_pow_add.
    change (inject_Z 4294967296) with 4294967296.
    change (2 ^ (-32)) with (1 # 4294967296). ring.
  - replace (A * 4294967296 + (B - A) * k)%Z
      with (A * (4294967296 - k) + B * k)%Z by lia.
    assert (Z.abs (A * (4294967296 - k)) <= 2097151 * (4294967296 - k))%Z.
    { rewrite Z.abs_mul, (Z.abs_eq (4294967296 - k)) by lia.
      apply Z.mul_le_mono_nonneg_r; lia. }
    assert (Z.abs (B * k) <= 2097151 * k)%Z.
    { rewrite Z.abs_mul, (Z.abs_eq k) by lia.
      apply Z.mul_le_mono_nonneg_r; lia. }
    pose proof (Z.abs_triangle (A * (4294967296 - k)) (B * k)). lia.
Qed.

(** In binary64 [randRange(a, b)] stays between its bounds, both
    included. *)
Lemma randRange64_between (a b : Q) (s : Z) :
  Double.round a == a -> Double.round b == b -> a < b ->
  a <= fst (Rng64.randRange a b s) <= b.
Proof.
  intros Ha Hb Hab. rewrite randRange64_value.
  destruct (next64_below s) as [Hu0 Hu1]. set (u := fst (Rng64.next s)) in *.
  unfold Double.add, Double.mul, Double.sub.
  set (D := b - a). assert (HD : 0 < D) by (unfold D; lra).
  set (d := Double.round D).
  assert (Hd0 : 0 <= d) by (apply round_nonneg; lra).
  set (p := Double.round (d * u)).
  assert (Hp0 : 0 <= p) by (apply round_nonneg; nra).
  assert (Hp : p <= D).
  { destruct (Qlt_le_dec D (2 ^ (-1021))) as [Htiny | Hbig].
    - assert (HdD : d == D).
      { apply sub_exact_when_tiny; [exact Ha | exact Hb |].
        fold D. rewrite Qabs_pos by lra. exact Htiny. }
      apply Qle_trans with d; [| rewrite HdD; apply Qle_refl].
      change (Double.round (d * u) <= Double.round D).
      apply round_mono. rewrite HdD. nra.
    - pose proof (round_error D) as HeD. fold d in HeD.
      pose proof (round_error (d * u)) as Hex. fold p in Hex.
      rewrite (Qabs_pos D) in HeD by lra.
      rewrite (Qabs_pos (d * u)) in Hex by nra.
      apply Qabs_Qle_condition in HeD. apply Qabs_Qle_condition in Hex.
      destruct HeD as [_ HeD]. destruct Hex as [_ Hex].
      assert (Htau : 2 ^ (-1075) <= D * (1 # 18014398509481984)).
      { assert (H : 2 ^ (-1021) == 2 ^ (-1075) * 18014398509481984).
        { change 18014398509481984 with (2 ^ 54). rewrite <- two_pow_add.
          reflexivity. }
        rewrite H in Hbig. lra. }
      pose proof (two_pow_pos (-1075)) as Htau0.
      set (tau := 2 ^ (-1075)) in *.
      assert (Hx : d * u <= d * (4294967295 # 4294967296)) by nra.
      set (x := d * u) in *. lra. }
  split.
  - apply Qle_trans with (Double.round a);
      [rewrite Ha; apply Qle_refl | apply round_mono; lra].
  - apply Qle_trans with (Double.round b);
      [apply round_mono; unfold D in Hp; lra | rewrite Hb; apply Qle_refl].
Qed.

Lemma randInt64_value (a b s : Z) :
  fst (Rng64.randInt a b s)
  = Qfloor (fst (Rng64.randRange (inject_Z a) (Double.add (inject_Z b) 1) s)).
Proof.
  unfold Rng64.randInt.
  destruct (Rng64.randRange (inject_Z a) (Double.add (inject_Z b) 1) s).
  reflexivity.
Qed.

Lemma randRange64_short (j : Z) (a b : Q) (s : Z) :
  (0 <= j <= 1000)%Z -> shortBound j a -> shortBound j b -> a < b ->
  a <= fst (Rng64.randRange a b s) < b.
Proof.
  intros Hj (A & Ha & HA) (B & Hb & HB) Hab.
  rewrite (randRange64_exact a b A B j s Ha Hb) by lia.
  split; [apply mix_between; [lra | apply next64_range] |].
  apply mix_below; [exact Hab | apply next64_range].
Qed.

(** In binary64 [randRange(a, b)] is below [b] when the bounds are wide
    apart: the step 2^-32 of the draws is then more than the rounding. *)
Lemma randRange64_wide (a b : Q) (s : Z) :
  Double.round a == a -> Double.round b == b -> a < b -> wideBounds a b ->
  fst (Rng64.randRange a b s) < b.
Proof.
  intros Ha Hb Hab (Hwa & Hwb & Hmin). rewrite randRange64_value.
  destruct (next64_below s) as [Hu0 Hu1]. set (u := fst (Rng64.next s)) in *.
  unfold Double.add, Double.mul, Double.sub.
  set (D := b - a) in *. assert (HD : 0 < D) by (unfold D; lra).
  set (d := Double.round D).
  assert (Hd0 : 0 <= d) by (apply round_nonneg; lra).
  set (p := Double.round (d * u)).
  assert (Hp0 : 0 <= p) by (apply round_nonneg; nra).
  set (y := a + p).
  pose proof (round_error D) as HeD. fold d in HeD.
  pose proof (round_error (d * u)) as Hex. fold p in Hex.
  pose proof (round_error y) as Hey.
  pose proof (two_pow_pos (-1075)) as Htau0.
  assert (Htau : 2 ^ (-1075) <= D * (1 # 37778931862957161709568)).
  { assert (H : 2 ^ (-1000) == 2 ^ (-1075) * 37778931862957161709568).
    { change 37778931862957161709568 with (2 ^ 75). rewrite <- two_pow_add.
      reflexivity. }
    rewrite H in Hmin. lra. }
  clear Hmin. set (tau := 2 ^ (-1075)) in *. clearbody tau.
  rewrite (Qabs_pos D) in HeD by lra.
  rewrite (Qabs_pos (d * u)) in Hex by nra.
  apply Qabs_Qle_condition in HeD. apply Qabs_Qle_condition in Hex.
  destruct HeD as [_ HeD]. destruct Hex as [_ Hex].
  assert (Hx : d * u <= d * (4294967295 # 4294967296)) by nra.
  set (x := d * u) in *.
  assert (Hp : p <= D * (8589934591 # 8589934592)) by lra.
  assert (Hy : Qabs y <= D * 524288).
  { apply Qabs_Qle_condition. apply Qabs_Qle_condition in Hwa, Hwb.
    destruct Hwa as [Hwa _], Hwb as [_ Hwb].
    assert (HDab : D == b - a) by reflexivity.
    unfold y. split; lra. }
  apply Qabs_Qle_condition in Hey. destruct Hey as [_ Hey].
  assert (HDab : D == b - a) by reflexivity.
  clear Hwa Hwb. set (n := Qabs y) in *. unfold y in *. lra.
Qed.

Lemma randInt64_short (a b s : Z) :
  (Z.abs a < 1048576)%Z -> (Z.abs b < 1048576)%Z -> (a <= b)%Z ->
  (a <= fst (Rng64.randInt a b s) <= b)%Z.
Proof.
  intros Ha Hb Hab. rewrite randInt64_value.
  pose proof (add_one_exact b ltac:(lia)) as Hb1.
  set (b' := Double.add (inject_Z b) 1) in *.
  assert (Hv : fst (Rng64.randRange (inject_Z a) b' s)
               == inject_Z a + (b' - inject_Z a) * fst (Rng64.next s)).
  { apply (randRange64_exact _ _ a (b + 1) 0 s); try lia.
    - change (2 ^ (- 0)) with 1. ring.
    - rewrite Hb1. change (2 ^ (- 0)) with 1. ring. }
  assert (Hlt : inject_Z a < b').
  { rewrite Hb1, <- Zlt_Qlt. lia. }
  set (v := fst (Rng64.randRange (inject_Z a) b' s)) in *.
  assert (Hlo : inject_Z a <= v).
  { rewrite Hv. apply mix_between; [lra | apply next64_range]. }
  assert (Hhi : v < inject_Z (b + 1)).
  { rewrite Hv, <- Hb1. apply mix_below; [exact Hlt | apply next64_range]. }
  split.
  - rewrite <- (Qfloor_Z a). apply Qfloor_resp_le. exact Hlo.
  - assert (Qfloor v < b + 1)%Z; [| lia].
    rewrite Zlt_Qlt. apply Qle_lt_trans with v; [apply Qfloor_le | exact Hhi].
Qed.

Lemma randInt64_between (a b s : Z) :
  (Z.abs a <= 2 ^ 52)%Z -> (Z.abs b <= 2 ^ 52)%Z -> (a <= b)%Z ->
  (a <= fst (Rng64.randInt a b s) <= b + 1)%Z.
Proof.
  intros Ha Hb Hab. rewrite randInt64_value.
  pose proof (add_one_exact b Hb) as Hb1.
  set (b' := Double.add (inject_Z b) 1) in *.
  assert (Hda : Double.round (inject_Z a) == inject_Z a)
    by (apply round_inject_Z; lia).
  assert (Hdb : Double.round b' == b').
  { rewrite (round_proper _ _ Hb1), Hb1. apply round_inject_Z. lia. }
  assert (Hlt : inject_Z a < b').
  { rewrite Hb1, <- Zlt_Qlt. lia. }
  destruct (randRange64_between (inject_Z a) b' s Hda Hdb Hlt) as [Hlo Hhi].
  set (v := fst (Rng64.randRange (inject_Z a) b' s)) in *.
  split.
  - rewrite <- (Qfloor_Z a). apply Qfloor_resp_le. exact Hlo.
  - rewrite Zle_Qle. apply Qle_trans with v; [apply Qfloor_le |].
    rewrite <- Hb1. exact Hhi.
Qed.

(** Where nothing rounds, the exact generator is the generator of the
    code: the same state after the call, the same integer from [randInt]
    and the same number from [randRange]. *)
Lemma exact_model_agrees (s : Z) :
  (Z.abs (s + 1831565813) < 2 ^ 53)%Z ->
  fst (Rng64.next s) == fst (Rng.next s)
  /\ snd (Rng64.next s) = snd (Rng.next s)
  /\ (forall (j : Z) (a b : Q),
        (0 <= j <= 1000)%Z -> shortBound j a -> shortBound j b ->
        fst (Rng64.randRange a b s) == fst (Rng.randRange a b s)
        /\ snd (Rng64.randRange a b s) = snd (Rng.randRange a b s))
  /\ (forall a b : Z,
        (Z.abs a < 1048576)%Z -> (Z.abs b < 1048576)%Z ->
        Rng64.randInt a b s = Rng.randInt a b s).
Proof.
  intros Hs. pose proof (advance64_exact s Hs) as Hadv.
  assert (Hu : fst (Rng64.next s) == fst (Rng.next s)).
  { rewrite next64_value, next_value, Hadv.
    rewrite (Qmake_Qdiv (Rng.mix (Rng.advance s)) 4294967296).
    change (2 ^ (-32)) with (/ inject_Z (Z.pos 4294967296)). reflexivity. }
  split; [exact Hu |]. split; [exact Hadv |]. split.
  - intros j a b Hj (A & Ha & HA) (B & Hb & HB).
    split; [| exact Hadv].
    rewrite (randRange64_exact a b A B j s Ha Hb) by lia.
    rewrite randRange_value, Hu. reflexivity.
  - intros a b Ha Hb. apply injective_projections; [| exact Hadv].
    rewrite randInt64_value, randInt_value.
    apply Qfloor_comp.
    pose proof (add_one_exact b ltac:(lia)) as Hb1.
    rewrite (randRange64_exact _ _ a (b + 1) 0 s); try lia.
    + rewrite randRange_value, Hu, Hb1. reflexivity.
    + change (2 ^ (- 0)) with 1. ring.
    + rewrite Hb1. change (2 ^ (- 0)) with 1. ring.
Qed.

(** With a density that is a short multiple of a power of two (1, 0.5,
    1.25, ...) the two products of [createCity] with the density do not
    round: the estimate and the lots of the exact model are those of the
    code. *)
Lemma density_products_exact (j : Z) (density : Q) (lots : Z) :
  (0 <= j <= 1000)%Z -> shortBound j density -> (Z.abs lots < 1048576)%Z ->
  Math_round (Double.mul 12 density) = Math_round (12 * density)
  /\ Math_round (Double.mul (inject_Z lots) density)
     = Math_round (inject_Z lots * density).
Proof.
  intros Hj (M & Hd & HM) Hl. unfold Math_round, Double.mul.
  split; apply Qfloor_comp; apply Qplus_comp; try reflexivity.
  - apply (round_exact _ (12 * M) (- j)); [| lia | lia].
    rewrite Hd, inject_Z_mult. ring.
  - apply (round_exact _ (lots * M) (- j)); [| nia | lia].
    rewrite Hd, inject_Z_mult. ring.
Qed.

(** ** The contract of the generator *)

(** The bounds in exact arithmetic. *)
Lemma generator_contract_exact (s : Z) :
  0 <= fst (Rng.next s) < 1
  /\ (forall a b : Q, a < b -> a <= fst (Rng.randRange a b s) < b)
  /\ (forall a b : Z, (a <= b)%Z -> (a <= fst (Rng.randInt a b s) <= b)%Z).
Proof.
  split; [apply next_range |].
  split; [intros a b; apply randRange_bounds | intros a b; apply randInt_bounds].
Qed.

(** C8.  In binary64, for every value of the closure variable (every
    32-bit seed among them, after any number of calls) a call of the
    generator returns a number in [0,1).  [randRange(a,b)] returns a number
    between a and b, both included, for doubles a < b; it is below b when a
    and b are multiples of one 2^-j with numerators below 2^20, where no
    operation rounds, and when b - a is at least 2^-19 of the magnitudes of
    a and b.  [randInt(a,b)] returns an integer between a and
    b + 1 for integers a <= b up to 2^52, and between a and b when both
    are below 2^20.  The functions are total: there is no error result. *)
Theorem generator_contract (s : Z) :
  0 <= fst (Rng64.next s) < 1
  /\ (forall a b : Q, isDouble a -> isDouble b -> a < b ->
        a <= fst (Rng64.randRange a b s) <= b)
  /\ (forall (j : Z) (a b : Q),
        (0 <= j <= 1000)%Z -> shortBound j a -> shortBound j b -> a < b ->
        a <= fst (Rng64.randRange a b s) < b)
  /\ (forall a b : Q, isDouble a -> isDouble b -> a < b -> wideBounds a b ->
        a <= fst (Rng64.randRange a b s) < b)
  /\ (forall a b : Z,
        (Z.abs a <= 4503599627370496)%Z -> (Z.abs b <= 4503599627370496)%Z ->
        (a <= b)%Z -> (a <= fst (Rng64.randInt a b s) <= b + 1)%Z)
  /\ (forall a b : Z,
        (Z.abs a < 1048576)%Z -> (Z.abs b < 1048576)%Z -> (a <= b)%Z ->
        (a <= fst (Rng64.randInt a b s) <= b)%Z).
Proof.
  split; [apply next64_range |].
  split; [intros a b [Ha _] [Hb _]; apply randRange64_between; assumption |].
  split; [intros j a b; apply randRange64_short |].
  split.
  { intros a b [Ha _] [Hb _] Hab Hw.
    split; [apply randRange64_between; assumption |].
    apply randRange64_wide; assumption. }
  split; [intros a b; apply randInt64_between | intros a b; apply randInt64_short].
Qed.

Lemma generator_contract_witness :
  0 <= fst (Rng64.next 1) < 1
  /\ 8 <= fst (Rng64.randRange 8 16 1) < 16
  /\ 2 # 10 <= fst (Rng64.randRange (Double.round (2 # 10)) 1 1) <= 1
  /\ fst (Rng64.randRange (Double.round (2 # 10)) 1 1) < 1
  /\ (6 <= fst (Rng64.randInt 6 10 1) <= 10)%Z.
Proof.
  destruct (generator_contract 1) as (H1 & H2 & H3 & Hw & H4 & H5).
  split; [exact H1 |].
  split.
  { apply (H3 0%Z); [lia | exists 8%Z | exists 16%Z | reflexivity];
      (split; [reflexivity | reflexivity]). }
  split.
  { assert (Hd : isDouble (Double.round (2 # 10)))
      by (split; [vm_compute; reflexivity | vm_compute; discriminate]).
    assert (Hone : isDouble 1)
      by (split; [vm_compute; reflexivity | vm_compute; discriminate]).
    destruct (H2 (Double.round (2 # 10)) 1 Hd Hone) as [Hlo Hhi];
      [vm_compute; reflexivity |].
    split; [| exact Hhi].
    apply Qle_trans with (Double.round (2 # 10)); [vm_compute; discriminate | exact Hlo]. }
  split.
  { apply (Hw (Double.round (2 # 10)) 1).
    - split; [vm_compute; reflexivity | vm_compute; discriminate].
    - split; [vm_compute; reflexivity | vm_compute; discriminate].
    - vm_compute. reflexivity.
    - repeat split; vm_compute; discriminate. }
  apply H5; [reflexivity | reflexivity | discriminate].
Defined.

(** With bounds as large as 2^30 the sum a + (b - a) * u rounds to b: seed
    32339094 draws u = 4294966961 / 2^32, and [randRange] returns its upper
    bound and [randInt] the integer above its upper bound. *)
Lemma generator_contract_fails_at_large_bounds :
  (0 <= 32339094 < 4294967296)%Z
  /\ isDouble 1073741824 /\ isDouble 1073741825
  /\ fst (Rng64.randRange 1073741824 1073741825 32339094) == 1073741825
  /\ ~ fst (Rng64.randRange 1073741824 1073741825 32339094) < 1073741825
  /\ fst (Rng64.randInt 1073741824 1073741824 32339094) = 1073741825%Z
  /\ ~ (fst (Rng64.randInt 1073741824 1073741824 32339094) <= 1073741824)%Z.
Proof.
  split; [lia |].
  split; [split; [vm_compute; reflexivity | vm_compute; discriminate] |].
  split; [split; [vm_compute; reflexivity | vm_compute; discriminate] |].
  split; [vm_compute; reflexivity |].
  split; [vm_compute; intros H; discriminate H |].
  split; [vm_compute; reflexivity |].
  vm_compute. intros H. apply H. reflexivity.
Qed.

(** The same sum in the binary64 of the Standard Library's specification
    of IEEE 754. *)
Lemma large_bounds_in_SpecFloat :
  let u := SpecFloat.SFdiv 53 1024 (toSF (Rng.mix (Rng.advance 32339094)) 0)
                           (toSF 4294967296 0) in
  SpecFloat.SFadd 53 1024 (toSF 1073741824 0)
    (SpecFloat.SFmul 53 1024
       (SpecFloat.SFsub 53 1024 (toSF 1073741825 0) (toSF 1073741824 0)) u)
  = toSF 1073741825 0.
Proof. vm_compute. reflexivity. Qed.

(** Both ends of [randInt] are drawn: seeds 7 and 4 give the first and the
    last index of the four facade colours. *)
Example randInt_low_end : fst (Rng.randInt 0 3 7) = 0%Z.
Proof. vm_compute. reflexivity. Qed.

Example randInt_high_end : fst (Rng.randInt 0 3 4) = 3%Z.
Proof. vm_compute. reflexivity. Qed.

(** ** Capacity of the instance buffer *)

Lemma Math_round_nonneg (x : Q) : 0 <= x -> (0 <= Math_round x)%Z.
Proof.
  intros Hx. unfold Math_round.
  change 0%Z with (Qfloor 0). apply Qfloor_resp_le. lra.
Qed.

Lemma totalEstOf_nonneg (density : Q) :
  0 <= density -> (0 <= totalEstOf (mkConfig density))%Z.
Proof.
  intros Hd. unfold totalEstOf. cbn [mkConfig blocksX blocksZ
    buildingCountEstimate].
  assert (0 <= Math_round (12 * density))%Z by (apply Math_round_nonneg; lra).
  lia.
Qed.

(** C2.  For a density that is not negative, the number of building
    instances never exceeds totalEst = blocksX * blocksZ * round(12 * density);
    it is the smaller of totalEst and the sum of the lot counts that the
    blocks of the run drew, so that it is exactly totalEst as soon as that
    sum reaches it; and from a state in which [idx] has reached totalEst
    the lot loop of the current block stops at once, without a draw, and no
    later block adds an instance or moves [idx]. *)
Theorem capacity_overflow_drop (env : Env) (density : Q) (seed0 : Z) :
  0 <= density ->
  let cfg := mkConfig density in
  let b := buildings (createCity env density seed0) in
  capacity b = (12 * 12 * Math_round (12 * density))%Z
  /\ count b = Z.of_nat (List.length (matrices b))
  /\ (count b <= capacity b)%Z
  /\ count b = Z.min (capacity b)
                     (lotsDrawn cfg (capacity b) (blockList cfg) emptyAcc
                                (afterFacadeDraws seed0))
  /\ (forall (n : nat) (r : Rect) (a : Acc) (s : Z),
        (capacity b <= a_idx a)%Z ->
        lotLoop n r (capacity b) a s = (a, s))
  /\ (forall (bs : list (Z * Z)) (a : Acc) (s : Z),
        (capacity b <= a_idx a)%Z ->
        a_matrices (fst (blockLoop cfg (capacity b) bs a s)) = a_matrices a
        /\ a_idx (fst (blockLoop cfg (capacity b) bs a s)) = a_idx a).
Proof.
  intros Hd cfg b. subst b. rewrite createCity_eq. cbn zeta.
  cbn [buildings capacity count matrices]. fold cfg.
  pose proof (totalEstOf_nonneg density Hd) as Hcap. fold cfg in Hcap.
  unfold blocksResult. cbn zeta. fold cfg.
  destruct (blockLoop_spec cfg (totalEstOf cfg) (blockList cfg) emptyAcc
              (afterFacadeDraws seed0)) as (parts & Hm & Hi & _ & Hc & _).
  cbn zeta in *. cbn [emptyAcc a_idx a_matrices] in *.
  specialize (Hc Hcap). rewrite Z.add_0_l in Hc.
  split; [reflexivity |].
  split; [rewrite Hm, Hi; cbn [app]; lia |].
  split; [lia |].
  split; [exact Hc |].
  split; [intros n r a s Hfull; apply lotLoop_full; exact Hfull |].
  intros bs a s Hfull. apply blockLoop_full. exact Hfull.
Qed.

Lemma capacity_overflow_drop_witness :
  0 <= 1
  /\ (count (buildings (createCity dayEnv 1 1))
      <= capacity (buildings (createCity dayEnv 1 1)))%Z.
Proof.
  split; [discriminate |].
  apply (capacity_overflow_drop dayEnv 1 1). discriminate.
Defined.

(** At density 0.1 the capacity is 144 and every block that is not a park
    asks for two lots: the city of seed 1 fills the buffer exactly. *)
Example capacity_reached :
  count (buildings (createCity dayEnv (1 # 10) 1)) = 144%Z
  /\ capacity (buildings (createCity dayEnv (1 # 10) 1)) = 144%Z.
Proof.
  rewrite createCity_eq. cbn zeta. cbn [buildings count capacity].
  split; vm_compute; reflexivity.
Qed.

(** ** What the lot loop places *)

Lemma lotRect_extent (density : Q) (bx bz : Z) :
  let r := lotRect (mkConfig density) bx bz in
  maxX r == minX r + 26 /\ maxZ r == minZ r + 26.
Proof.
  cbn zeta. unfold lotRect, citySizeX, citySizeZ.
  cbn [mkConfig blocksX blocksZ blockSize roadWidth lotPadding minX maxX minZ maxZ].
  rewrite !inject_Z_plus.
  change (inject_Z 12) with 12. change (inject_Z 1) with 1.
  split; field.
Qed.

Lemma Q2R_const_2_10 : Q2R (2 # 10) = (2 / 10)%R.
Proof. unfold Q2R. cbn. lra. Qed.

Lemma Q2R_const_18_10 : Q2R (18 # 10) = (18 / 10)%R.
Proof. unfold Q2R. cbn. lra. Qed.

Lemma Rpower_base_one (y : R) : Rpower 1 y = 1%R.
Proof. unfold Rpower. rewrite ln_1, Rmult_0_r. apply exp_0. Qed.

Lemma Math_pow_fifth_power :
  (Math_pow (2 # 10) (18 # 10) ^ 5 = (2 / 10) ^ 9)%R.
Proof.
  unfold Math_pow. rewrite Q2R_const_2_10, Q2R_const_18_10.
  assert (Hpos : (0 < Rpower (2 / 10) (18 / 10))%R) by apply exp_pos.
  rewrite <- (Rpower_pow 5 _ Hpos), Rpower_mult.
  replace (18 / 10 * INR 5)%R with (INR 9) by (cbn; lra).
  apply Rpower_pow. lra.
Qed.

Lemma minHeight_estimate : (11 / 10 < minHeight < 111 / 100)%R.
Proof.
  unfold minHeight. pose proof Math_pow_fifth_power as H5.
  set (y := Math_pow (2 # 10) (18 # 10)) in *.
  assert (Hpos : (0 < y)%R) by apply exp_pos.
  split.
  - destruct (Rlt_le_dec (55 / 1000) y) as [Hlt | Hle]; [lra |].
    assert (y ^ 5 <= (55 / 1000) ^ 5)%R by (apply pow_incr; lra).
    exfalso. rewrite H5 in H. cbn in H. lra.
  - destruct (Rlt_le_dec y (555 / 10000)) as [Hlt | Hle]; [lra |].
    assert ((555 / 10000) ^ 5 <= y ^ 5)%R by (apply pow_incr; lra).
    exfalso. rewrite H5 in H. cbn in H. lra.
Qed.

(** A building placed in a lot rectangle that is not inverted. *)
Lemma placeBuilding_bounds (r : Rect) (s : Z) :
  minX r <= maxX r -> minZ r <= maxZ r ->
  let b := fst (placeBuilding r s) in
  inRect r (b_x b) (b_z b)
  /\ 8 <= b_footprint b < 16
  /\ 8 <= b_depth b < 16
  /\ (minHeight <= b_h b < 150)%R.
Proof.
  intros HX HZ. rewrite placeBuilding_value.
  cbn [b_x b_z b_footprint b_depth b_h].
  split; [split; apply mix_between; auto using draw_range |].
  split; [split; [apply mix_between | apply mix_below];
          auto using draw_range; lra |].
  split; [split; [apply mix_between | apply mix_below];
          auto using draw_range; lra |].
  set (u1 := (2 # 10) + (1 - (2 # 10)) * draw 4 s).
  set (u2 := 20 + (150 - 20) * draw 5 s).
  assert (Hu1 : (2 # 10) <= u1 < 1).
  { split; [apply mix_between | apply mix_below];
      auto using draw_range; reflexivity || discriminate. }
  assert (Hu2 : 20 <= u2 < 150).
  { split; [apply mix_between | apply mix_below];
      auto using draw_range; reflexivity || discriminate. }
  destruct Hu1 as [Hu1l Hu1h]. destruct Hu2 as [Hu2l Hu2h].
  apply Qle_Rle in Hu1l, Hu2l. apply Qlt_Rlt in Hu1h, Hu2h.
  rewrite Q2R_const_2_10 in Hu1l.
  replace (Q2R 1) with 1%R in Hu1h by (unfold Q2R; cbn; lra).
  replace (Q2R 20) with 20%R in Hu2l by (unfold Q2R; cbn; lra).
  replace (Q2R 150) with 150%R in Hu2h by (unfold Q2R; cbn; lra).
  unfold minHeight, Math_pow. rewrite Q2R_const_2_10, Q2R_const_18_10.
  assert (Hlo : (Rpower (2 / 10) (18 / 10) <= Rpower (Q2R u1) (18 / 10))%R)
    by (apply Rle_Rpower_l; lra).
  assert (Hhi : (Rpower (Q2R u1) (18 / 10) <= 1)%R).
  { rewrite <- (Rpower_base_one (18 / 10)). apply Rle_Rpower_l; lra. }
  assert (Hp0 : (0 < Rpower (2 / 10) (18 / 10))%R) by apply exp_pos.
  split; nra.
Qed.

Lemma createCity_parts (env : Env) (density : Q) (seed0 : Z) :
  let cfg := mkConfig density in
  exists parts : list (list Building),
    matrices (buildings (createCity env density seed0)) = concat parts
    /\ Forall2 (fun blk part =>
                  Forall (placedIn cfg blk (afterFacadeDraws seed0)) part)
               (blockList cfg) parts.
Proof.
  intros cfg. rewrite createCity_eq. cbn zeta. cbn [buildings matrices].
  unfold blocksResult. cbn zeta. fold cfg.
  destruct (blockLoop_spec cfg (totalEstOf cfg) (blockList cfg) emptyAcc
              (afterFacadeDraws seed0)) as (parts & Hm & _ & Hf & _).
  exists parts. cbn zeta in Hm. split; [exact Hm | exact Hf].
Qed.

Lemma Forall2_parts_concat {A B} (P : B -> Prop) (Q' : A -> B -> Prop)
      (xs : list A) (parts : list (list B)) :
  (forall x b, Q' x b -> P b) ->
  Forall2 (fun x part => Forall (Q' x) part) xs parts ->
  Forall P (concat parts).
Proof.
  intros HPQ H. induction H as [| x part xs parts Hpart _ IH].
  - constructor.
  - cbn [concat]. apply Forall_app. split; [| exact IH].
    eapply Forall_impl; [| exact Hpart]. intros b. apply HPQ.
Qed.

Lemma reaches_afterFacadeDraws (seed0 : Z) :
  reaches seed0 (afterFacadeDraws seed0).
Proof. exists 3%nat. reflexivity. Qed.

(** C3.  Every building in the instance buffer was made from seven
    consecutive draws of the city's generator: x, z, footprint, depth, then
    u1 = 0.2 + 0.8 * draw in [0.2, 1), then u2 = 20 + 130 * draw in
    [20, 150), then the yaw; and its height is pow(u1, 1.8) * u2. *)
Theorem building_height_formula (env : Env) (density : Q) (seed0 : Z) :
  Forall (fun b =>
            exists s : Z,
              reaches seed0 s
              /\ b_footprint b = 8 + (16 - 8) * draw 2 s
              /\ b_depth b = 8 + (16 - 8) * draw 3 s
              /\ exists u1 u2 : Q,
                   u1 = (2 # 10) + (1 - (2 # 10)) * draw 4 s
                   /\ u2 = 20 + (150 - 20) * draw 5 s
                   /\ (2 # 10) <= u1 < 1
                   /\ 20 <= u2 < 150
                   /\ b_h b = (Rpower (Q2R u1) (Q2R (18 # 10)) * Q2R u2)%R)
         (matrices (buildings (createCity env density seed0))).
Proof.
  destruct (createCity_parts env density seed0) as (parts & Hm & Hf).
  rewrite Hm. eapply Forall2_parts_concat; [| exact Hf].
  intros blk b (s & Hs & Hb). cbn beta in *.
  exists s. unfold placedAt in Hb. rewrite placeBuilding_value in Hb. subst b.
  cbn [b_footprint b_depth b_h].
  split; [eapply reaches_trans; [apply reaches_afterFacadeDraws | exact Hs] |].
  split; [reflexivity |]. split; [reflexivity |].
  exists ((2 # 10) + (1 - (2 # 10)) * draw 4 s), (20 + (150 - 20) * draw 5 s).
  split; [reflexivity |]. split; [reflexivity |].
  split; [split; [apply mix_between | apply mix_below];
          auto using draw_range; reflexivity || discriminate |].
  split; [split; [apply mix_between | apply mix_below];
          auto using draw_range; reflexivity || discriminate |].
  reflexivity.
Qed.

Lemma minHeight_pos : (0 < minHeight)%R.
Proof. pose proof minHeight_estimate. lra. Qed.

(** C4.  The instance buffer is the concatenation of one part for each
    block, in the order of the blocks; every building of a part has its
    centre (x, z) inside the lot rectangle of that block, a height between
    0 and 150, and a footprint width and depth between 8 and 16. *)
Theorem building_bounds (env : Env) (density : Q) (seed0 : Z) :
  exists parts : list (list Building),
    matrices (buildings (createCity env density seed0)) = concat parts
    /\ Forall2 (fun blk part =>
                  Forall (fun b =>
                            inRect (lotRect (mkConfig density) (fst blk) (snd blk))
                                   (b_x b) (b_z b)
                            /\ (0 <= b_h b <= 150)%R
                            /\ 8 <= b_footprint b <= 16
                            /\ 8 <= b_depth b <= 16)
                         part)
               (blockList (mkConfig density)) parts.
Proof.
  destruct (createCity_parts env density seed0) as (parts & Hm & Hf).
  exists parts. split; [exact Hm |].
  eapply Forall2_impl; [| exact Hf]. intros blk part Hpart.
  eapply Forall_impl; [| exact Hpart]. intros b (s & _ & Hb).
  unfold placedAt in Hb. subst b.
  destruct (lotRect_extent density (fst blk) (snd blk)) as [HX HZ].
  cbn zeta in HX, HZ.
  destruct (placeBuilding_bounds (lotRect (mkConfig density) (fst blk) (snd blk)) s)
    as (Hin & Hf' & Hd & Hh); [lra | lra |].
  pose proof minHeight_pos.
  split; [exact Hin |]. split; [lra |]. split; lra.
Qed.

(** C10.  Every building is at least pow(0.2, 1.8) * 20 high; this bound
    lies between 1.10 and 1.11, so no building has height zero. *)
Theorem building_height_lower_bound (env : Env) (density : Q) (seed0 : Z) :
  (11 / 10 < minHeight < 111 / 100)%R
  /\ Forall (fun b => (minHeight <= b_h b)%R /\ (0 < b_h b)%R)
            (matrices (buildings (createCity env density seed0))).
Proof.
  split; [apply minHeight_estimate |].
  destruct (createCity_parts env density seed0) as (parts & Hm & Hf).
  rewrite Hm. eapply Forall2_parts_concat; [| exact Hf].
  intros blk b (s & _ & Hb). cbn beta in *. unfold placedAt in Hb. subst b.
  destruct (lotRect_extent density (fst blk) (snd blk)) as [HX HZ].
  cbn zeta in HX, HZ.
  destruct (placeBuilding_bounds (lotRect (mkConfig density) (fst blk) (snd blk)) s)
    as (_ & _ & _ & Hh); [lra | lra |].
  pose proof minHeight_pos. lra.
Qed.

(** ** Buildings and roads *)

Lemma overlap_not_disjoint (a b : Rect) : overlap a b -> ~ disjointRects a b.
Proof.
  intros (H1 & H2 & H3 & H4) [H | [H | [H | H]]]; lra.
Qed.

Lemma flat_map_map_singleton {A B C} (f : B -> list C) (g : A -> B)
      (h : A -> C) (l : list A) :
  (forall x, f (g x) = [h x]) -> flat_map f (List.map g l) = List.map h l.
Proof.
  intros Hfg. induction l as [| x l IH]; [reflexivity |].
  cbn [List.map flat_map]. rewrite Hfg, IH. reflexivity.
Qed.

Lemma roadRects_createCity (env : Env) (density : Q) (seed0 : Z) :
  let cfg := mkConfig density in
  roadRects (createCity env density seed0)
  = List.map (horizontalRoadRect cfg) (indices (blocksZ cfg + 1))
    ++ List.map (verticalRoadRect cfg) (indices (blocksX cfg + 1)).
Proof.
  intros cfg. rewrite createCity_eq. cbn zeta. fold cfg.
  unfold roadRects, roadMeshes.
  cbn [group Group obj_children app].
  rewrite flat_map_app. unfold roadMeshesH, roadMeshesV.
  f_equal; apply flat_map_map_singleton; intros i; reflexivity.
Qed.

(** Every lot rectangle keeps a gap of 4, the lot padding, to every road. *)
Lemma lot_road_gap (env : Env) (density : Q) (seed0 : Z) (bx bz : Z) :
  Forall (disjointRects (expand (lotRect (mkConfig density) bx bz) 4))
         (roadRects (createCity env density seed0)).
Proof.
  rewrite roadRects_createCity. cbn zeta.
  apply Forall_app. split; apply Forall_forall; intros r Hin;
    apply in_map_iff in Hin; destruct Hin as (i & <- & _);
    unfold disjointRects, expand, lotRect, horizontalRoadRect, verticalRoadRect,
      citySizeX, citySizeZ;
    cbn [mkConfig blocksX blocksZ blockSize roadWidth lotPadding
         minX maxX minZ maxZ];
    change (inject_Z 12) with 12;
    rewrite ?inject_Z_plus; change (inject_Z 1) with 1.
  - destruct (Z_le_gt_dec i bz) as [Hle | Hgt].
    + right. right. right. rewrite Zle_Qle in Hle. lra.
    + right. right. left.
      assert (Hge : (bz + 1 <= i)%Z) by lia.
      rewrite Zle_Qle, inject_Z_plus in Hge. change (inject_Z 1) with 1 in Hge.
      lra.
  - destruct (Z_le_gt_dec i bx) as [Hle | Hgt].
    + right. left. rewrite Zle_Qle in Hle. lra.
    + left.
      assert (Hge : (bx + 1 <= i)%Z) by lia.
      rewrite Zle_Qle, inject_Z_plus in Hge. change (inject_Z 1) with 1 in Hge.
      lra.
Qed.

Lemma Qhalf_mult (x : Q) : x / 2 == x * (1 # 2).
Proof. field. Qed.

Lemma disjointRects_within (a a' r : Rect) :
  within a a' -> disjointRects a' r -> disjointRects a r.
Proof.
  intros (H1 & H2 & H3 & H4) [H | [H | [H | H]]]; unfold disjointRects; lra.
Qed.

(** When the first block is not a park and the capacity is positive, the
    building of its first lot is in the instance buffer at the end. *)
Lemma first_building (cfg : Config) (totalEst : Z) (b0 : Z * Z)
      (bs : list (Z * Z)) (s : Z) :
  (0 < totalEst)%Z ->
  parkChance cfg <= fst (Rng.next s) ->
  In (fst (placeBuilding (lotRect cfg (fst b0) (snd b0))
                         (Rng.advance (Rng.advance s))))
     (a_matrices (fst (blockLoop cfg totalEst (b0 :: bs) emptyAcc s))).
Proof.
  intros Hcap Hnopark.
  set (bd := fst (placeBuilding (lotRect cfg (fst b0) (snd b0))
                                (Rng.advance (Rng.advance s)))).
  assert (Hstep : exists rest,
             a_matrices (fst (blockStep cfg totalEst b0 emptyAcc s)) = bd :: rest).
  { subst bd. destruct b0 as [bx bz]. unfold blockStep, bind. cbn [fst snd].
    change (Rng.next s) with (fst (Rng.next s), Rng.advance s).
    cbv beta iota.
    destruct (Qlt_le_dec (fst (Rng.next s)) (parkChance cfg)) as [Hp | _];
      [exfalso; apply (Qlt_not_le _ _ Hp Hnopark) |].
    unfold drawLots, bind, ret.
    destruct (Rng.randInt 8 18 (Rng.advance s)) as [lots s2] eqn:Hlots.
    apply (f_equal snd) in Hlots. rewrite randInt_state in Hlots.
    cbn [snd] in Hlots. subst s2.
    set (L := Z.max 2 _).
    destruct (Z.to_nat L) as [| n] eqn:HL; [exfalso; unfold L in HL; lia |].
    cbn [lotLoop]. cbn [emptyAcc a_idx].
    destruct (0 >=? totalEst)%Z eqn:Hge; [exfalso; lia |].
    unfold bind.
    destruct (placeBuilding (lotRect cfg bx bz) (Rng.advance (Rng.advance s)))
      as [b s'].
    destruct (lotLoop_spec (lotRect cfg bx bz) totalEst n (setMatrixAt emptyAcc b) s')
      as (new & Hm & _).
    exists new. cbn zeta in Hm. rewrite Hm. reflexivity. }
  destruct Hstep as (rest & Hrest).
  cbn [blockLoop]. unfold bind.
  destruct (blockStep cfg totalEst b0 emptyAcc s) as [a1 s1].
  cbn [fst] in Hrest.
  destruct (blockLoop_spec cfg totalEst bs a1 s1) as (parts & Hm & _).
  cbn zeta in Hm. rewrite Hm, Hrest. left. reflexivity.
Qed.

(** The first building of the city of seed 6 at density 1 reaches 1.84
    into the road along z at the grid line x = -420. *)
Lemma building_overlaps_road :
  exists (b : Building) (road : Rect),
    In b (matrices (buildings (createCity dayEnv 1 6)))
    /\ In road (roadRects (createCity dayEnv 1 6))
    /\ overlap (footprintRect b) road
    /\ ~ disjointRects (footprintRect b) road.
Proof.
  exists (fst (placeBuilding (lotRect (mkConfig 1) 0 0)
                             (Rng.advance (Rng.advance (afterFacadeDraws 6))))),
         (verticalRoadRect (mkConfig 1) 0).
  assert (Hov : overlap
                  (footprintRect
                     (fst (placeBuilding (lotRect (mkConfig 1) 0 0)
                             (Rng.advance (Rng.advance (afterFacadeDraws 6))))))
                  (verticalRoadRect (mkConfig 1) 0)).
  { rewrite placeBuilding_value.
    unfold overlap, footprintRect. cbn [b_x b_z b_footprint b_depth minX maxX minZ maxZ].
    repeat split; vm_compute; reflexivity. }
  split.
  - rewrite createCity_eq. cbn zeta. cbn [buildings matrices].
    unfold blocksResult. cbn zeta.
    change (blockList (mkConfig 1)) with ((0, 0)%Z :: tl (blockList (mkConfig 1))).
    apply (first_building (mkConfig 1) (totalEstOf (mkConfig 1)) (0, 0)%Z).
    + vm_compute. reflexivity.
    + vm_compute. discriminate.
  - split; [| split; [exact Hov | apply overlap_not_disjoint; exact Hov]].
    rewrite roadRects_createCity. cbn zeta. apply in_or_app. right.
    apply in_map. vm_compute. left. reflexivity.
Qed.

(** C5, as the code has it.  For every building: its centre lies in the lot
    rectangle of its block; that rectangle grown by 4, the lot padding, is
    disjoint from every road rectangle, and so is the square of half-side 4
    around the centre; the footprint lies within the lot rectangle grown
    by 8, so that it reaches less than 4 into a road. *)
Theorem building_centre_clear_of_roads (env : Env) (density : Q) (seed0 : Z) :
  exists parts : list (list Building),
    matrices (buildings (createCity env density seed0)) = concat parts
    /\ Forall2 (fun blk part =>
                  Forall (fun b =>
                            let lot :=
                              lotRect (mkConfig density) (fst blk) (snd blk) in
                            inRect lot (b_x b) (b_z b)
                            /\ within (footprintRect b) (expand lot 8)
                            /\ Forall (fun road =>
                                         disjointRects (expand lot 4) road
                                         /\ disjointRects (centreRect b 4) road)
                                      (roadRects (createCity env density seed0)))
                         part)
               (blockList (mkConfig density)) parts.
Proof.
  destruct (createCity_parts env density seed0) as (parts & Hm & Hf).
  exists parts. split; [exact Hm |].
  eapply Forall2_impl; [| exact Hf]. intros blk part Hpart.
  eapply Forall_impl; [| exact Hpart]. intros b (s & _ & Hb).
  unfold placedAt in Hb. subst b. cbn zeta.
  destruct (lotRect_extent density (fst blk) (snd blk)) as [HX HZ].
  cbn zeta in HX, HZ.
  set (lot := lotRect (mkConfig density) (fst blk) (snd blk)) in *.
  destruct (placeBuilding_bounds lot s) as (Hin & Hfp & Hdp & _); [lra | lra |].
  cbn zeta in Hin, Hfp, Hdp.
  set (b := fst (placeBuilding lot s)) in *.
  destruct Hin as [[Hx1 Hx2] [Hz1 Hz2]].
  split; [repeat split; assumption |].
  split.
  - unfold within, footprintRect, expand. cbn [minX maxX minZ maxZ].
    rewrite !Qhalf_mult. repeat split; lra.
  - pose proof (lot_road_gap env density seed0 (fst blk) (snd blk)) as Hgap.
    fold lot in Hgap.
    eapply Forall_impl; [| exact Hgap]. intros road Hroad.
    split; [exact Hroad |].
    eapply disjointRects_within; [| exact Hroad].
    unfold within, centreRect, expand. cbn [minX maxX minZ maxZ].
    repeat split; lra.
Qed.

(** ** Traffic: the wrap of the progress *)

Lemma mod1_nonneg_eq (x : Q) : 0 <= x -> mod1 x == x - inject_Z (Qfloor x).
Proof.
  intros Hx. unfold mod1, Qtrunc.
  destruct (Qlt_le_dec x 0) as [Hneg | _]; [lra | reflexivity].
Qed.

Lemma mod1_range (x : Q) : 0 <= x -> 0 <= mod1 x < 1.
Proof.
  intros Hx. rewrite (mod1_nonneg_eq x Hx).
  pose proof (Qfloor_le x) as Hlo. pose proof (Qlt_floor x) as Hhi.
  rewrite inject_Z_plus in Hhi. change (inject_Z 1) with 1 in Hhi.
  split; lra.
Qed.

Lemma tickCar_fields (dt : Q) (car : Car) :
  car_lane (tickCar dt car) = car_lane car
  /\ car_speed (tickCar dt car) = car_speed car
  /\ car_length (tickCar dt car) = car_length car
  /\ car_color (tickCar dt car) = car_color car.
Proof. repeat split. Qed.

Lemma runCar_fields (dts : list Q) :
  forall car : Car,
    car_lane (runCar dts car) = car_lane car
    /\ car_speed (runCar dts car) = car_speed car
    /\ car_length (runCar dts car) = car_length car
    /\ car_color (runCar dts car) = car_color car.
Proof.
  induction dts as [| dt dts IH]; intros car; [repeat split |].
  unfold runCar in *. cbn [fold_left].
  destruct (IH (tickCar dt car)) as (H1 & H2 & H3 & H4).
  rewrite H1, H2, H3, H4. repeat split.
Qed.

Section Wrap.

Variable speed : Q.
Variable len : Q.
Hypothesis len_pos : 0 < len.

(** After frames whose increments are not negative the progress is the
    start plus the distance over the length, less a whole number of laps,
    and it lies in [0,1). *)
Lemma runCar_progress (dts : list Q) :
  forall car : Car,
    car_speed car = speed -> car_length car = len ->
    0 <= car_t car < 1 ->
    Forall (fun dt => 0 <= speed * dt) dts ->
    exists laps : Z,
      car_t (runCar dts car)
      == car_t car + Qsum (List.map (fun dt => speed * dt) dts) / len
         - inject_Z laps
      /\ 0 <= car_t (runCar dts car) < 1.
Proof.
  induction dts as [| dt dts IH]; intros car Hs Hl Ht Hinc.
  - exists 0%Z. cbn. split; [field; lra | exact Ht].
  - inversion Hinc as [| ? ? Hdt Hrest]; subst.
    set (x := car_t car + (car_speed car * dt) / car_length car).
    assert (Hx : 0 <= x).
    { unfold x. assert (0 <= (car_speed car * dt) / car_length car).
      { apply Qle_shift_div_l; [exact len_pos | lra]. }
      lra. }
    destruct (IH (tickCar dt car)) as (laps & Heq & Hrange); auto.
    { cbn [tickCar car_t]. apply mod1_range. exact Hx. }
    exists (Qfloor x + laps)%Z.
    change (runCar (dt :: dts) car) with (runCar dts (tickCar dt car)).
    split; [| exact Hrange].
    rewrite Heq. cbn [tickCar car_t]. fold x.
    rewrite (mod1_nonneg_eq x Hx). unfold x.
    cbn [List.map Qsum fold_right]. fold (Qsum (List.map (fun dt => car_speed car * dt) dts)).
    rewrite inject_Z_plus. field. lra.
Qed.

End Wrap.

Lemma firstn_Forall {A} (P : A -> Prop) (n : nat) (l : list A) :
  Forall P l -> Forall P (firstn n l).
Proof.
  intros H. revert n. induction H as [| x l Hx _ IH]; intros [| n]; cbn;
    constructor; auto.
Qed.

(** C6.  For a vehicle with cycle length L > 0 and progress t in [0,1), any
    frames whose increments speed * dt are positive and add up to L bring
    the progress back to t; and after every frame of the run the progress
    is in [0,1). *)
Theorem traffic_wrap_round_trip (car : Car) (dts : list Q) :
  0 < car_length car ->
  0 <= car_t car < 1 ->
  Forall (fun dt => 0 < car_speed car * dt) dts ->
  Qsum (List.map (fun dt => car_speed car * dt) dts) == car_length car ->
  car_t (runCar dts car) == car_t car
  /\ forall n : nat, 0 <= car_t (runCar (firstn n dts) car) < 1.
Proof.
  intros HL Ht Hpos Hsum.
  assert (Hnn : Forall (fun dt => 0 <= car_speed car * dt) dts).
  { eapply Forall_impl; [| exact Hpos]. intros dt H. apply Qlt_le_weak. exact H. }
  split.
  - destruct (runCar_progress (car_speed car) (car_length car) HL dts car)
      as (laps & Heq & Hrange); auto.
    rewrite Hsum in Heq.
    assert (Hone : car_length car / car_length car == 1) by (field; lra).
    rewrite Hone in Heq.
    assert (Hlaps : laps = 1%Z).
    { assert (0 < inject_Z laps) by lra.
      assert (inject_Z laps < 2) by lra.
      change 0 with (inject_Z 0) in H. change 2 with (inject_Z 2) in H0.
      rewrite <- Zlt_Qlt in H, H0. lia. }
    subst laps. change (inject_Z 1) with 1 in Heq. lra.
  - intros n.
    destruct (runCar_progress (car_speed car) (car_length car) HL
                (firstn n dts) car) as (laps & _ & Hrange); auto.
    apply firstn_Forall. exact Hnn.
Qed.

Lemma traffic_wrap_round_trip_witness :
  let car := {| car_lane := {| axis := axis_x; coord := - 426; dir := 1 |};
                car_color := (0, 6 # 10, 5 # 10);
                car_speed := 13; car_t := 1 # 4; car_length := 910 |} in
  let dts := [35; 20; 15] in
  (0 < car_length car
   /\ 0 <= car_t car < 1
   /\ Forall (fun dt => 0 < car_speed car * dt) dts
   /\ Qsum (List.map (fun dt => car_speed car * dt) dts) == car_length car)
  /\ car_t (runCar dts car) == car_t car
  /\ forall n : nat, 0 <= car_t (runCar (firstn n dts) car) < 1.
Proof.
  intros car dts.
  assert (H1 : 0 < car_length car) by reflexivity.
  assert (H2 : 0 <= car_t car < 1) by (split; [discriminate | reflexivity]).
  assert (H3 : Forall (fun dt => 0 < car_speed car * dt) dts)
    by (repeat constructor).
  assert (H4 : Qsum (List.map (fun dt => car_speed car * dt) dts)
               == car_length car) by reflexivity.
  split; [exact (conj H1 (conj H2 (conj H3 H4))) |].
  exact (traffic_wrap_round_trip car dts H1 H2 H3 H4).
Defined.

(** ** Traffic: vehicles keep to their lanes *)

Lemma overwrite_same_length {A} (new old : list A) :
  List.length new = List.length old -> overwrite new old = new.
Proof.
  intros Hlen. unfold overwrite.
  rewrite <- Hlen, firstn_all, Hlen, skipn_all. apply app_nil_r.
Qed.

Lemma wheelTransforms_length (cs : list Car) :
  List.length (flat_map wheelTransforms cs) = (4 * List.length cs)%nat.
Proof.
  induction cs as [| c cs IH]; [reflexivity |].
  cbn [flat_map]. rewrite length_app, IH. cbn [wheelTransforms wheelOffsets
    List.map List.length]. lia.
Qed.

(** One frame on a city whose buffers fit its cars. *)
Lemma trafficFrame_sized (dt : Q) (c : City) :
  sized c ->
  let c' := trafficFrame dt c in
  sized c'
  /\ cars c' = List.map (tickCar dt) (cars c)
  /\ bodyMesh (carsMeshes c') = List.map carTransform (cars c')
  /\ roofMesh (carsMeshes c') = List.map carTransform (cars c')
  /\ wheelMesh (carsMeshes c') = flat_map wheelTransforms (cars c').
Proof.
  intros (Hb & Hr & Hw). cbn zeta. unfold trafficFrame, sized.
  cbn [cars carsMeshes bodyMesh roofMesh wheelMesh].
  rewrite !overwrite_same_length
    by (rewrite ?wheelTransforms_length, !length_map; congruence).
  rewrite wheelTransforms_length, !length_map. repeat split.
Qed.

Lemma runTraffic_Some (dts : list Q) :
  forall c : City,
    runTraffic dts (Some c)
    = Some (fold_left (fun c dt => trafficFrame dt c) dts c).
Proof.
  induction dts as [| dt dts IH]; intros c; [reflexivity |].
  unfold runTraffic in *. cbn [fold_left updateTraffic]. apply IH.
Qed.

Lemma frames_sized (dts : list Q) :
  forall c : City,
    sized c ->
    let c' := fold_left (fun c dt => trafficFrame dt c) dts c in
    sized c' /\ cars c' = List.map (runCar dts) (cars c).
Proof.
  induction dts as [| dt dts IH]; intros c Hc; cbn zeta.
  - cbn [fold_left]. split; [exact Hc |].
    unfold runCar. cbn [fold_left]. symmetry. apply map_id.
  - cbn [fold_left].
    destruct (trafficFrame_sized dt c Hc) as (Hc1 & Hcars & _).
    destruct (IH (trafficFrame dt c) Hc1) as (Hc' & Hcars').
    split; [exact Hc' |].
    rewrite Hcars', Hcars, map_map. reflexivity.
Qed.

Lemma carLoop_length (n : nat) (cfg : Config) (ls : list Lane) :
  forall (cs : list Car) (s : Z),
    List.length (fst (carLoop n cfg ls cs s)) = (List.length cs + n)%nat.
Proof.
  induction n as [| n IH]; intros cs s.
  - cbn. lia.
  - cbn [carLoop]. unfold bind. destruct (makeCar cfg ls s) as [c s1].
    rewrite IH, length_app. cbn. lia.
Qed.

Lemma createCity_sized (env : Env) (density : Q) (seed0 : Z) :
  sized (createCity env density seed0).
Proof.
  rewrite createCity_eq. cbn zeta. unfold sized.
  cbn [cars carsMeshes bodyMesh roofMesh wheelMesh].
  unfold carsResult. cbn zeta. rewrite carLoop_length, !repeat_length.
  cbn [List.length Nat.add].
  change (carCountOf (mkConfig density)) with 144%Z.
  repeat split.
Qed.

Lemma carTransform_confined (car : Car) : confined car (carTransform car).
Proof.
  unfold confined, carTransform, carPosition, carYaw, acrossLane, cardinalYaw.
  cbn [ct_position ct_yaw].
  destruct (axis (car_lane car)); destruct (dir (car_lane car) >? 0)%Z;
    split; reflexivity.
Qed.

Lemma Forall2_map_same {A B} (R : A -> B -> Prop) (f : A -> B) (l : list A) :
  (forall x, R x (f x)) -> Forall2 R l (List.map f l).
Proof. intros H. induction l; cbn; constructor; auto. Qed.

(** C7.  After any number of frames of a created city, with any values of
    [dt], every vehicle still has the lane it was given, the body and roof
    transforms written by the last frame have the coordinate across the
    lane equal to the constant of the lane ([lane.z] along x, [lane.x]
    along z), and the yaw is the one of the four values that the axis and
    the direction of the lane select. *)
Theorem lane_confinement (env : Env) (density : Q) (seed0 : Z)
        (dts : list Q) (dt : Q) :
  exists c' : City,
    runTraffic (dts ++ [dt]) (Some (createCity env density seed0)) = Some c'
    /\ List.map car_lane (cars c')
       = List.map car_lane (cars (createCity env density seed0))
    /\ Forall2 confined (cars c') (bodyMesh (carsMeshes c'))
    /\ roofMesh (carsMeshes c') = bodyMesh (carsMeshes c')
    /\ Forall (fun tr => yaw_angle (ct_yaw tr) = (- PI / 2)%R
                         \/ yaw_angle (ct_yaw tr) = (PI / 2)%R
                         \/ yaw_angle (ct_yaw tr) = 0%R
                         \/ yaw_angle (ct_yaw tr) = PI)
              (bodyMesh (carsMeshes c')).
Proof.
  set (c0 := createCity env density seed0).
  rewrite runTraffic_Some, fold_left_app. cbn [fold_left].
  set (c1 := fold_left (fun c dt => trafficFrame dt c) dts c0).
  destruct (frames_sized dts c0 (createCity_sized env density seed0))
    as (Hsized & Hcars). fold c1 in Hsized, Hcars.
  destruct (trafficFrame_sized dt c1 Hsized) as (_ & Hcars' & Hbody & Hroof & _).
  exists (trafficFrame dt c1).
  split; [reflexivity |].
  split.
  { rewrite Hcars', Hcars, !map_map. apply map_ext. intros car.
    cbn [tickCar car_lane]. apply runCar_fields. }
  split; [rewrite Hbody; apply Forall2_map_same, carTransform_confined |].
  split; [congruence |].
  rewrite Hbody. apply Forall_forall. intros tr Hin.
  apply in_map_iff in Hin. destruct Hin as (car & <- & _).
  destruct (ct_yaw (carTransform car)); cbn [yaw_angle]; auto.
Qed.

(** ** The vehicles of a created city *)

Lemma laneAt_In (ls : list Lane) (i : Z) :
  (0 <= i < Z.of_nat (List.length ls))%Z -> In (laneAt ls i) ls.
Proof.
  intros [Hlo Hhi]. unfold laneAt.
  destruct (i <? 0)%Z eqn:Hneg; [lia |].
  apply nth_In. lia.
Qed.

(** What one iteration of the car loop makes: the lane is an element of
    the array, the speed is in [12,26), t0 in [0,1), and the cycle length
    is that of the travel axis. *)
Lemma makeCar_spec (cfg : Config) (ls : list Lane) (s : Z) :
  ls <> [] ->
  let car := fst (makeCar cfg ls s) in
  In (car_lane car) ls
  /\ 12 <= car_speed car < 26
  /\ 0 <= car_t car < 1
  /\ car_length car
     = match axis (car_lane car) with
       | axis_x => citySizeX cfg + blockSize cfg
       | axis_z => citySizeZ cfg + blockSize cfg
       end.
Proof.
  intros Hls. unfold makeCar, bind, ret.
  pose proof (randInt_bounds 0 (Z.of_nat (List.length ls) - 1) s) as Hli.
  destruct (Rng.randInt 0 (Z.of_nat (List.length ls) - 1) s) as [li s1].
  pose proof (randRange_bounds 0 1 s1) as Hhue.
  destruct (Rng.randRange 0 1 s1) as [hue s2].
  pose proof (randRange_bounds 12 26 s2) as Hspeed.
  destruct (Rng.randRange 12 26 s2) as [sp s3].
  pose proof (randRange_bounds 0 1 s3) as Ht0.
  destruct (Rng.randRange 0 1 s3) as [t0 s4].
  cbn [fst car_lane car_speed car_t car_length] in *.
  assert (Hlen : (0 < Z.of_nat (List.length ls))%Z).
  { destruct ls; [congruence | cbn [List.length]; lia]. }
  split; [apply laneAt_In; lia |].
  split; [apply Hspeed; reflexivity |].
  split; [apply Ht0; reflexivity | reflexivity].
Qed.

Lemma carLoop_spec (P : Car -> Prop) (cfg : Config) (ls : list Lane) :
  (forall s, P (fst (makeCar cfg ls s))) ->
  forall (n : nat) (cs : list Car) (s : Z),
    Forall P cs -> Forall P (fst (carLoop n cfg ls cs s)).
Proof.
  intros Hmake. induction n as [| n IH]; intros cs s Hcs; [exact Hcs |].
  cbn [carLoop]. unfold bind.
  pose proof (Hmake s) as Hc. destruct (makeCar cfg ls s) as [c s1].
  apply IH. apply Forall_app. split; [exact Hcs |].
  constructor; [exact Hc | constructor].
Qed.

(** Every vehicle of a created city is on a lane of the city, with cycle
    length 910, speed in [12,26) and progress in [0,1). *)
Lemma createCity_cars (env : Env) (density : Q) (seed0 : Z) :
  let c := createCity env density seed0 in
  Forall (fun car =>
            In (car_lane car) (lanes c)
            /\ 12 <= car_speed car < 26
            /\ 0 <= car_t car < 1
            /\ car_length car == 910)
         (cars c).
Proof.
  cbn zeta. rewrite createCity_eq. cbn zeta. cbn [cars lanes].
  unfold carsResult. cbn zeta.
  apply carLoop_spec; [| constructor].
  intros s.
  destruct (makeCar_spec (mkConfig density) (makeLanes (mkConfig density)) s)
    as (Hin & Hsp & Ht & Hlen).
  { intros Hnil. apply (f_equal (@List.length Lane)) in Hnil.
    vm_compute in Hnil. discriminate. }
  cbn zeta in *. split; [exact Hin |]. split; [exact Hsp |].
  split; [exact Ht |].
  rewrite Hlen. destruct (axis _); reflexivity.
Qed.

(** ** Disposal *)

Lemma traverse_resources :
  forall o : Object3D, traverse o = List.map Dispose (nodeResources o).
Proof.
  fix IH 1. intros [g m p cs]. cbn [traverse nodeResources].
  unfold disposeObject. rewrite !map_app, <- app_assoc.
  f_equal; [destruct g; reflexivity |].
  f_equal; [destruct m; reflexivity |].
  induction cs as [| c cs IHcs]; [reflexivity |].
  cbn [flat_map]. rewrite map_app, IH, IHcs. reflexivity.
Qed.

Lemma disposeTextures_slots (m : Material) :
  disposeTextures m = List.map Dispose (textureSlots m).
Proof.
  unfold disposeTextures, textureSlots. rewrite map_app.
  destruct (mat_map m), (mat_emissiveMap m); reflexivity.
Qed.

Lemma disposeCalls_resources (c : City) :
  disposeCalls c = SceneRemove :: List.map Dispose (cityResources c).
Proof.
  unfold disposeCalls, cityResources. rewrite map_app, traverse_resources.
  cbn [app]. do 2 f_equal.
  induction (materialValues (materials c)) as [| m ms IH]; [reflexivity |].
  cbn [flat_map]. rewrite map_app, disposeTextures_slots, IH. reflexivity.
Qed.

Lemma releases_resources (r : Res) (c : City) :
  releases r (disposeCalls c) = count_occ Res_eq_dec (cityResources c) r.
Proof.
  unfold releases. rewrite disposeCalls_resources.
  cbn [count_occ]. destruct (Event_eq_dec SceneRemove (Dispose r)) as [H | _];
    [discriminate |].
  induction (cityResources c) as [| x l IH]; [reflexivity |].
  cbn [List.map count_occ].
  destruct (Event_eq_dec (Dispose x) (Dispose r)) as [He | Hne];
    destruct (Res_eq_dec x r) as [Hr | Hnr]; try congruence.
Qed.

(** The park branch only adds park and tree meshes. *)
Lemma treeLoop_parkTreeOnly (n : nat) (r : Rect) :
  forall (trees : list Object3D) (s : Z),
    Forall parkTreeOnly trees ->
    Forall parkTreeOnly (fst (treeLoop n r trees s)).
Proof.
  induction n as [| n IH]; intros trees s Ht; [exact Ht |].
  cbn [treeLoop]. unfold bind.
  destruct (Rng.randRange (minX r + 2) (maxX r - 2) s) as [tx s1].
  destruct (Rng.randRange (minZ r + 2) (maxZ r - 2) s1) as [tz s2].
  apply IH. apply Forall_app. split; [exact Ht |].
  repeat constructor.
Qed.

Lemma blockStep_parkTreeOnly (cfg : Config) (totalEst : Z) (b : Z * Z)
      (a : Acc) (s : Z) :
  parksAndTreesOnly a ->
  parksAndTreesOnly (fst (blockStep cfg totalEst b a s)).
Proof.
  intros [Hp Ht]. destruct b as [bx bz]. unfold blockStep, bind.
  destruct (Rng.next s) as [u s1].
  destruct (Qlt_le_dec u (parkChance cfg)) as [Hpark | Hlots].
  - destruct (Rng.randInt 6 14 s1) as [tc s2].
    pose proof (treeLoop_parkTreeOnly (Z.to_nat tc) (lotRect cfg bx bz)
                  (a_trees a) s2 Ht) as Ht'.
    destruct (treeLoop (Z.to_nat tc) (lotRect cfg bx bz) (a_trees a) s2)
      as [trees s3].
    unfold ret, parksAndTreesOnly. cbn [fst a_parks a_trees] in *.
    split; [| exact Ht'].
    apply Forall_app. split; [exact Hp |]. repeat constructor.
  - unfold drawLots, bind, ret. destruct (Rng.randInt 8 18 s1) as [lots s2].
    set (L := Z.max 2 _).
    destruct (lotLoop_spec (lotRect cfg bx bz) totalEst (Z.to_nat L) a s2)
      as (new & _ & Hp' & Ht' & _).
    cbn zeta in Hp', Ht'. unfold parksAndTreesOnly. rewrite Hp', Ht'.
    split; assumption.
Qed.

Lemma blockLoop_parkTreeOnly (cfg : Config) (totalEst : Z) (bs : list (Z * Z)) :
  forall (a : Acc) (s : Z),
    parksAndTreesOnly a ->
    parksAndTreesOnly (fst (blockLoop cfg totalEst bs a s)).
Proof.
  induction bs as [| b bs IH]; intros a s Ha; [exact Ha |].
  cbn [blockLoop]. unfold bind.
  pose proof (blockStep_parkTreeOnly cfg totalEst b a s Ha) as H1.
  destruct (blockStep cfg totalEst b a s) as [a1 s1]. apply IH. exact H1.
Qed.

Lemma blocksResult_parkTreeOnly (density : Q) (seed0 : Z) :
  parksAndTreesOnly (fst (blocksResult density seed0)).
Proof.
  unfold blocksResult. apply blockLoop_parkTreeOnly. split; constructor.
Qed.

Lemma count_parkTreeOnly (r : Res) (os : list Object3D) :
  ~ parkOrTree r ->
  Forall parkTreeOnly os ->
  count_occ Res_eq_dec (flat_map nodeResources os) r = 0%nat.
Proof.
  intros Hr Hos. apply count_occ_not_In. intros Hin.
  apply in_flat_map in Hin. destruct Hin as (o & Ho & Hin).
  rewrite Forall_forall in Hos. specialize (Hos o Ho).
  unfold parkTreeOnly in Hos. rewrite Forall_forall in Hos.
  apply Hr, Hos, Hin.
Qed.

Lemma flat_map_after_map {A B C} (f : B -> list C) (g : A -> B)
      (h : A -> list C) (l : list A) :
  (forall x, f (g x) = h x) -> flat_map f (List.map g l) = flat_map h l.
Proof.
  intros Hfg. induction l as [| x l IH]; [reflexivity |].
  cbn [List.map flat_map]. rewrite Hfg, IH. reflexivity.
Qed.

Lemma createCity_group (env : Env) (density : Q) (seed0 : Z) :
  group (createCity env density seed0)
  = Group ([Group (roadMeshesH (mkConfig density) (roadMaterialOf env)
                   ++ roadMeshesV (mkConfig density) (roadMaterialOf env))]
           ++ sidewalkMeshes (mkConfig density) (plainMaterial res_sidewalkMat)
           ++ a_parks (fst (blocksResult density seed0))
           ++ [instancedNode res_buildingGeo (BoxGeometry 1 1 1)
                             (buildingMaterialOf env seed0);
               Group (a_trees (fst (blocksResult density seed0)))]
           ++ carNodes).
Proof. rewrite createCity_eq. reflexivity. Qed.

Lemma createCity_materials (env : Env) (density : Q) (seed0 : Z) :
  materialValues (materials (createCity env density seed0))
  = [ buildingMaterialOf env seed0; roadMaterialOf env;
      plainMaterial res_sidewalkMat; plainMaterial res_bodyMat;
      plainMaterial res_glassMat; plainMaterial res_wheelMat ].
Proof. rewrite createCity_eq. reflexivity. Qed.

Lemma nodeResources_Group (cs : list Object3D) :
  nodeResources (Group cs) = flat_map nodeResources cs.
Proof. reflexivity. Qed.

Lemma roadMeshes_resources (cfg : Config) (m : Material) :
  mat_id m = res_roadMat ->
  flat_map nodeResources (roadMeshesH cfg m ++ roadMeshesV cfg m) = roadUses cfg.
Proof.
  intros Hm. rewrite flat_map_app. unfold roadUses, roadMeshesH, roadMeshesV.
  f_equal; apply flat_map_after_map; intros i; cbn [Mesh nodeResources
    geo_id flat_map app]; rewrite Hm; reflexivity.
Qed.

Lemma sidewalkMeshes_resources (cfg : Config) :
  flat_map nodeResources (sidewalkMeshes cfg (plainMaterial res_sidewalkMat))
  = sidewalkUses cfg.
Proof.
  unfold sidewalkUses, sidewalkMeshes.
  apply flat_map_after_map. intros [bx bz]. reflexivity.
Qed.

Lemma textureSlots_created (env : Env) (seed0 : Z) :
  flat_map textureSlots
           [ buildingMaterialOf env seed0; roadMaterialOf env;
             plainMaterial res_sidewalkMat; plainMaterial res_bodyMat;
             plainMaterial res_glassMat; plainMaterial res_wheelMat ]
  = [res_facadeTex; res_facadeTex; res_roadTex].
Proof. reflexivity. Qed.

Lemma cityResources_createCity (env : Env) (density : Q) (seed0 : Z) :
  let cfg := mkConfig density in
  let acc := fst (blocksResult density seed0) in
  cityResources (createCity env density seed0)
  = roadUses cfg ++ sidewalkUses cfg
    ++ flat_map nodeResources (a_parks acc)
    ++ [res_buildingGeo; res_buildingMat]
    ++ flat_map nodeResources (a_trees acc)
    ++ [res_bodyGeo; res_bodyMat; res_roofGeo; res_glassMat;
        res_wheelGeo; res_wheelMat]
    ++ [res_facadeTex; res_facadeTex; res_roadTex].
Proof.
  intros cfg acc. unfold cityResources.
  rewrite createCity_group, createCity_materials, textureSlots_created.
  fold cfg. fold acc.
  rewrite nodeResources_Group, !flat_map_app.
  change (flat_map nodeResources carNodes)
    with [res_bodyGeo; res_bodyMat; res_roofGeo; res_glassMat;
          res_wheelGeo; res_wheelMat].
  cbn [flat_map]. rewrite nodeResources_Group, !app_nil_r.
  rewrite (roadMeshes_resources cfg (roadMaterialOf env) eq_refl).
  rewrite sidewalkMeshes_resources.
  rewrite (nodeResources_Group (a_trees acc)).
  change (nodeResources
            (instancedNode res_buildingGeo (BoxGeometry 1 1 1)
                           (buildingMaterialOf env seed0)))
    with [res_buildingGeo; res_buildingMat].
  rewrite <- !app_assoc. reflexivity.
Qed.

(** How often one call of [disposeCity] disposes of some resources of a
    created city. *)
Lemma createCity_releases (env : Env) (density : Q) (seed0 : Z) :
  let calls := disposeCalls (createCity env density seed0) in
  releases res_buildingGeo calls = 1%nat
  /\ releases res_roadGeoH calls = 13%nat
  /\ releases res_roadMat calls = 26%nat
  /\ releases res_sidewalkMat calls = 144%nat
  /\ releases res_facadeTex calls = 2%nat.
Proof.
  cbn zeta. rewrite !releases_resources, cityResources_createCity. cbn zeta.
  destruct (blocksResult_parkTreeOnly density seed0) as [Hp Ht].
  rewrite !count_occ_app.
  assert (Hzero : forall r : Res,
             ~ parkOrTree r ->
             count_occ Res_eq_dec
               (flat_map nodeResources (a_parks (fst (blocksResult density seed0))))
               r = 0%nat
             /\ count_occ Res_eq_dec
                  (flat_map nodeResources
                     (a_trees (fst (blocksResult density seed0))))
                  r = 0%nat).
  { intros r Hr. split; apply count_parkTreeOnly; assumption. }
  destruct (Hzero res_buildingGeo (fun H => H)) as [-> ->].
  destruct (Hzero res_roadGeoH (fun H => H)) as [-> ->].
  destruct (Hzero res_roadMat (fun H => H)) as [-> ->].
  destruct (Hzero res_sidewalkMat (fun H => H)) as [-> ->].
  destruct (Hzero res_facadeTex (fun H => H)) as [-> ->].
  repeat split; vm_compute; reflexivity.
Qed.

Lemma disposeCity_Some (c : City) (log : list Event) :
  disposeCity (Some c) log = log ++ disposeCalls c.
Proof. reflexivity. Qed.

Lemma releases_app (r : Res) (l1 l2 : list Event) :
  releases r (l1 ++ l2) = (releases r l1 + releases r l2)%nat.
Proof. apply count_occ_app. Qed.

(** The road geometry shared by the 13 roads along x is disposed of 13
    times by one call and 26 times by two, and the facade texture twice by
    one call: not once. *)
Lemma shared_resources_disposed_repeatedly :
  In res_roadGeoH (cityResources (createCity dayEnv 1 1))
  /\ releases res_roadGeoH (disposeCity (Some (createCity dayEnv 1 1)) []) = 13%nat
  /\ releases res_facadeTex (disposeCity (Some (createCity dayEnv 1 1)) []) = 2%nat
  /\ releases res_roadGeoH
       (disposeCity (Some (createCity dayEnv 1 1))
                    (disposeCity (Some (createCity dayEnv 1 1)) []))
     = 26%nat.
Proof.
  destruct (createCity_releases dayEnv 1 1) as (_ & Hroad & _ & _ & Hfacade).
  cbn zeta in Hroad, Hfacade.
  rewrite !disposeCity_Some, !releases_app, Hroad, Hfacade.
  split; [| repeat split].
  rewrite cityResources_createCity. cbn zeta.
  apply in_or_app. left. vm_compute. left. reflexivity.
Qed.

(** C9, as the code has it.  [disposeCity(null)] makes no call and leaves
    the log of calls as it was.  [disposeCity(c)] is total: it appends the
    calls of [c], and a second call on the same city appends the same calls
    again.  One call disposes of every geometry and material once for each
    node of the group that uses it and of every texture once for each
    [map] or [emissiveMap] slot that holds it: at least once, and for a
    created city once for the building geometry, 13 times for the geometry
    of the roads along x, 26 times for the road material, 144 times for the
    sidewalk material and twice for the facade texture. *)
Theorem dispose_calls (env : Env) (density : Q) (seed0 : Z) (log : list Event) :
  let c := createCity env density seed0 in
  disposeCity None log = log
  /\ disposeCity (Some c) log = log ++ disposeCalls c
  /\ disposeCity (Some c) (disposeCity (Some c) log)
     = log ++ disposeCalls c ++ disposeCalls c
  /\ (forall r : Res,
        releases r (disposeCalls c) = count_occ Res_eq_dec (cityResources c) r)
  /\ (forall r : Res,
        In r (cityResources c) -> (1 <= releases r (disposeCalls c))%nat)
  /\ releases res_buildingGeo (disposeCalls c) = 1%nat
  /\ releases res_roadGeoH (disposeCalls c) = 13%nat
  /\ releases res_roadMat (disposeCalls c) = 26%nat
  /\ releases res_sidewalkMat (disposeCalls c) = 144%nat
  /\ releases res_facadeTex (disposeCalls c) = 2%nat.
Proof.
  intros c.
  split; [reflexivity |].
  split; [reflexivity |].
  split; [rewrite !disposeCity_Some, app_assoc; reflexivity |].
  split; [intros r; apply releases_resources |].
  split.
  - intros r Hin. rewrite releases_resources.
    apply (count_occ_In Res_eq_dec) in Hin. lia.
  - apply createCity_releases.
Qed.

Lemma dispose_calls_witness :
  (1 <= releases res_roadTex (disposeCalls (createCity dayEnv 1 1)))%nat.
Proof.
  apply (dispose_calls dayEnv 1 1 []).
  rewrite cityResources_createCity. cbn zeta.
  repeat (apply in_or_app; right). right. right. left. reflexivity.
Defined.

(** ** Determinism of the generation *)

Lemma placements_meshes {A} (g : A -> Geometry) (m1 m2 : A -> Material)
      (p : A -> Vec3) (l : list A) :
  flat_map placements (List.map (fun x => Mesh (g x) (m1 x) (p x)) l)
  = flat_map placements (List.map (fun x => Mesh (g x) (m2 x) (p x)) l).
Proof.
  induction l as [| x l IH]; [reflexivity |].
  cbn [List.map flat_map]. rewrite IH. reflexivity.
Qed.

Lemma placements_Group (cs : list Object3D) :
  placements (Group cs) = flat_map placements cs.
Proof. reflexivity. Qed.

Lemma placements_roads (cfg : Config) (m1 m2 : Material) :
  flat_map placements (roadMeshesH cfg m1 ++ roadMeshesV cfg m1)
  = flat_map placements (roadMeshesH cfg m2 ++ roadMeshesV cfg m2).
Proof.
  rewrite !flat_map_app. f_equal.
  - exact (placements_meshes _ (fun _ => m1) (fun _ => m2) _ _).
  - exact (placements_meshes _ (fun _ => m1) (fun _ => m2) _ _).
Qed.

(** The city as a whole does depend on what lies outside the generator:
    the emissive intensity of the building material follows [isNight]. *)
Lemma createCity_building_material (env : Env) (density : Q) (seed0 : Z) :
  mat_emissiveIntensity (m_building (materials (createCity env density seed0)))
  = if isNight env then 7 # 10 else 12 # 100.
Proof. rewrite createCity_eq. reflexivity. Qed.

(** C1.  For a fixed seed and density two runs of [createCity] give the
    same layout, whatever [isNight] and [Math.random] are in each run: the
    same geometry and position of every mesh of the group in order (the
    roads, the sidewalks, the park of every park block, named by the
    indices of the block, and the trees), the same instance buffer of
    buildings, the same lanes, the same vehicles (lane, colour, speed, t0,
    length) and the same configuration. *)
Theorem generation_deterministic (env1 env2 : Env) (density : Q) (seed0 : Z) :
  let c1 := createCity env1 density seed0 in
  let c2 := createCity env2 density seed0 in
  placements (group c1) = placements (group c2)
  /\ buildings c1 = buildings c2
  /\ lanes c1 = lanes c2
  /\ cars c1 = cars c2
  /\ carsMeshes c1 = carsMeshes c2
  /\ config c1 = config c2
  /\ seed c1 = seed c2.
Proof.
  cbn zeta. rewrite !createCity_eq. cbn zeta.
  cbn [group buildings lanes cars carsMeshes config seed].
  split; [| repeat split].
  rewrite !placements_Group, !flat_map_app. cbn [flat_map].
  rewrite !placements_Group, !app_nil_r.
  rewrite (placements_roads (mkConfig density) (roadMaterialOf env1)
             (roadMaterialOf env2)).
  reflexivity.
Qed.

(** * Further properties of the code *)

(** ** The generator and the 32 bits of its state *)

Lemma ToUint32_shift (x k : Z) :
  Rng.ToUint32 (x + 4294967296 * k)%Z = Rng.ToUint32 x.
Proof. unfold Rng.ToUint32. rewrite Z.mul_comm. apply Z_mod_plus_full. Qed.

Lemma ToInt32_shift (x k : Z) :
  Rng.ToInt32 (x + 4294967296 * k)%Z = Rng.ToInt32 x.
Proof. unfold Rng.ToInt32. rewrite ToUint32_shift. reflexivity. Qed.

Lemma mix_shift (x k : Z) : Rng.mix (x + 4294967296 * k)%Z = Rng.mix x.
Proof.
  unfold Rng.mix, Rng.xor32, Rng.or32, Rng.ushr, Rng.imul.
  rewrite !ToInt32_shift, !ToUint32_shift. reflexivity.
Qed.

Lemma iter_advance (n : nat) (s : Z) :
  Nat.iter n Rng.advance s = (s + Z.of_nat n * 1831565813)%Z.
Proof.
  induction n as [| n IH]; [cbn; lia |].
  rewrite Nat.iter_succ, IH. unfold Rng.advance. lia.
Qed.

(** In exact arithmetic two seeds that differ by a multiple of 2^32 make
    every call return the same value. *)
Lemma draw_shift (seed0 k : Z) (n : nat) :
  draw n (seed0 + 4294967296 * k)%Z = draw n seed0
  /\ Nat.iter n Rng.advance (seed0 + 4294967296 * k)%Z
     = (Nat.iter n Rng.advance seed0 + 4294967296 * k)%Z.
Proof.
  assert (Hst : Nat.iter n Rng.advance (seed0 + 4294967296 * k)%Z
                = (Nat.iter n Rng.advance seed0 + 4294967296 * k)%Z)
    by (rewrite !iter_advance; lia).
  split; [| exact Hst].
  unfold draw. rewrite !next_value, Hst. unfold Rng.advance.
  replace (Nat.iter n (fun seed1 : Z => seed1 + 1831565813) seed0
           + 4294967296 * k + 1831565813)%Z
    with (Nat.iter n (fun seed1 : Z => seed1 + 1831565813) seed0
          + 1831565813 + 4294967296 * k)%Z by lia.
  rewrite mix_shift. reflexivity.
Qed.

Lemma iter_advance64 (n : nat) (s : Z) :
  (0 <= s)%Z -> (s + Z.of_nat n * 1831565813 < 2 ^ 53)%Z ->
  Nat.iter n Rng64.advance s = Nat.iter n Rng.advance s.
Proof.
  intros Hs. induction n as [| n IH]; intros Hn; [reflexivity |].
  rewrite !Nat.iter_succ, IH by lia.
  apply advance64_exact. rewrite iter_advance. lia.
Qed.

(** X1.  As long as the closure variable stays below 2^53, where a double
    holds it exactly, only the seed modulo 2^32 matters: two seeds that
    differ by a multiple of 2^32 make the calls return the same values,
    although the closure variable itself does not wrap. *)
Theorem draws_depend_on_seed_mod_2_32 (seed0 k : Z) (n : nat) :
  (0 <= seed0)%Z -> (0 <= k)%Z ->
  (seed0 + 4294967296 * k + (Z.of_nat n + 1) * 1831565813 < 2 ^ 53)%Z ->
  draw64 n (seed0 + 4294967296 * k)%Z = draw64 n seed0
  /\ Nat.iter n Rng64.advance (seed0 + 4294967296 * k)%Z
     = (Nat.iter n Rng64.advance seed0 + 4294967296 * k)%Z.
Proof.
  intros Hs Hk Hn.
  rewrite !iter_advance64 by lia.
  destruct (draw_shift seed0 k n) as [_ Hst].
  split; [| exact Hst].
  unfold draw64, Rng64.next. cbn [fst].
  rewrite !iter_advance64 by lia.
  rewrite !advance64_exact by (rewrite iter_advance; lia).
  rewrite Hst. unfold Rng.advance.
  replace (Nat.iter n (fun seed1 : Z => (seed1 + 1831565813)%Z) seed0
           + 4294967296 * k + 1831565813)%Z
    with (Nat.iter n (fun seed1 : Z => (seed1 + 1831565813)%Z) seed0
          + 1831565813 + 4294967296 * k)%Z by lia.
  rewrite mix_shift. reflexivity.
Qed.

Lemma draws_depend_on_seed_mod_2_32_witness :
  ((0 <= 5)%Z /\ (0 <= 1000)%Z
   /\ (5 + 4294967296 * 1000 + (Z.of_nat 3 + 1) * 1831565813 < 2 ^ 53)%Z)
  /\ draw64 3 (5 + 4294967296 * 1000)%Z = draw64 3 5.
Proof.
  assert (H : (5 + 4294967296 * 1000 + (Z.of_nat 3 + 1) * 1831565813
               < 2 ^ 53)%Z) by reflexivity.
  split; [split; [discriminate | split; [discriminate | exact H]] |].
  apply (draws_depend_on_seed_mod_2_32 5 1000 3); [discriminate | discriminate |].
  exact H.
Defined.

(** Beyond 2^53 the sum is rounded and the low bits are lost: the seeds 2
    and 2 + 2^53 differ in the first call. *)
Example draws_differ_beyond_2_53 :
  ~ draw64 0 (2 + 9007199254740992)%Z == draw64 0 2.
Proof. vm_compute. intros H. discriminate H. Qed.

(** In exact arithmetic the low 32 bits of the closure variable come back
    to an earlier value only after a multiple of 2^32 calls: the increment
    0x6D2B79F5 is odd. *)
Lemma state_period_exact (s : Z) (n m : nat) :
  Rng.ToUint32 (Nat.iter n Rng.advance s)
  = Rng.ToUint32 (Nat.iter m Rng.advance s)
  <-> (Z.of_nat n mod 4294967296 = Z.of_nat m mod 4294967296)%Z.
Proof.
  rewrite !iter_advance. unfold Rng.ToUint32.
  rewrite !Z.cong_iff_0, !Z.mod_divide by discriminate.
  replace (s + Z.of_nat n * 1831565813 - (s + Z.of_nat m * 1831565813))%Z
    with (1831565813 * (Z.of_nat n - Z.of_nat m))%Z by lia.
  split.
  - intros H. apply (Z.gauss _ _ _ H). reflexivity.
  - intros H. apply Z.divide_mul_r. exact H.
Qed.

(** X2.  From a 32-bit seed the closure variable is the exact sum, below
    2^53, for the first 4917000 calls, and among them the low 32 bits of
    the closure variable, which are all that a call reads, never come back
    to an earlier value: within these calls the generator does not
    cycle. *)
Theorem generator_states_distinct (s : Z) (n m : nat) :
  (0 <= s < 4294967296)%Z ->
  (Z.of_nat n <= 4917000)%Z -> (Z.of_nat m <= 4917000)%Z ->
  Nat.iter n Rng64.advance s = (s + Z.of_nat n * 1831565813)%Z
  /\ (Nat.iter n Rng64.advance s < 2 ^ 53)%Z
  /\ (Rng.ToUint32 (Nat.iter n Rng64.advance s)
      = Rng.ToUint32 (Nat.iter m Rng64.advance s)
      <-> n = m).
Proof.
  intros Hs Hn Hm. rewrite !iter_advance64 by lia.
  split; [apply iter_advance |]. split; [rewrite iter_advance; lia |].
  rewrite state_period_exact.
  rewrite !Z.mod_small by lia. split; [apply Nat2Z.inj | intros ->; reflexivity].
Qed.

Lemma generator_states_distinct_witness :
  ((0 <= 7 < 4294967296)%Z
   /\ (Z.of_nat 3 <= 4917000)%Z /\ (Z.of_nat 5 <= 4917000)%Z)
  /\ Rng.ToUint32 (Nat.iter 3 Rng64.advance 7%Z)
     <> Rng.ToUint32 (Nat.iter 5 Rng64.advance 7%Z).
Proof.
  assert (Hs : (0 <= 7 < 4294967296)%Z) by (split; [discriminate | reflexivity]).
  assert (Hn : (Z.of_nat 3 <= 4917000)%Z) by discriminate.
  assert (Hm : (Z.of_nat 5 <= 4917000)%Z) by discriminate.
  split; [split; [exact Hs | split; [exact Hn | exact Hm]] |].
  intros H. apply (generator_states_distinct 7 3 5 Hs Hn Hm) in H.
  discriminate H.
Defined.

(** ** The grid: roads and lanes *)

Lemma createCity_lane_roads (env : Env) (density : Q) (seed0 : Z) :
  let c := createCity env density seed0 in
  Forall (fun l =>
            (dir l = 1%Z \/ dir l = (-1)%Z)
            /\ exists r, In r (roadRects c) /\ laneInRoad l r /\ laneSpan l r)
         (lanes c).
Proof.
  cbn zeta. rewrite roadRects_createCity. cbn zeta.
  rewrite createCity_eq. cbn zeta. cbn [lanes].
  unfold makeLanes. apply Forall_app. split; apply Forall_forall; intros l Hl;
    apply in_flat_map in Hl; destruct Hl as (i & Hi & Hl);
    cbn [In] in Hl.
  - assert (Hroad : In (horizontalRoadRect (mkConfig density) i)
                       (List.map (horizontalRoadRect (mkConfig density))
                                 (indices (blocksZ (mkConfig density) + 1))
                        ++ List.map (verticalRoadRect (mkConfig density))
                                    (indices (blocksX (mkConfig density) + 1)))).
    { apply in_or_app. left. apply in_map. exact Hi. }
    destruct Hl as [<- | [<- | []]]; cbn [dir]; (split; [auto |]);
      exists (horizontalRoadRect (mkConfig density) i);
      (split; [exact Hroad |]);
      unfold laneInRoad, laneSpan, horizontalRoadRect, citySizeZ, citySizeX;
      cbn [axis coord minX maxX minZ maxZ mkConfig roadWidth laneOffset
           blockSize blocksX blocksZ];
      change (inject_Z 12) with 12;
      setoid_replace (36 / 2) with 18 by reflexivity;
      (split; split; [lra | lra | discriminate | discriminate]).
  - assert (Hroad : In (verticalRoadRect (mkConfig density) i)
                       (List.map (horizontalRoadRect (mkConfig density))
                                 (indices (blocksZ (mkConfig density) + 1))
                        ++ List.map (verticalRoadRect (mkConfig density))
                                    (indices (blocksX (mkConfig density) + 1)))).
    { apply in_or_app. right. apply in_map. exact Hi. }
    destruct Hl as [<- | [<- | []]]; cbn [dir]; (split; [auto |]);
      exists (verticalRoadRect (mkConfig density) i);
      (split; [exact Hroad |]);
      unfold laneInRoad, laneSpan, verticalRoadRect, citySizeZ, citySizeX;
      cbn [axis coord minX maxX minZ maxZ mkConfig roadWidth laneOffset
           blockSize blocksX blocksZ];
      change (inject_Z 12) with 12;
      setoid_replace (36 / 2) with 18 by reflexivity;
      (split; split; [lra | lra | discriminate | discriminate]).
Qed.

(** X3.  A created city has 26 roads and 52 lanes, whatever the seed and
    the density; every lane has direction 1 or -1 and runs along a road of
    the city: that road reaches from -455 to 455 along the lane, and across
    the lane its two edges are at least 12 away from the lane. *)
Theorem lanes_inside_roads (env : Env) (density : Q) (seed0 : Z) :
  let c := createCity env density seed0 in
  List.length (roadRects c) = 26%nat
  /\ List.length (lanes c) = 52%nat
  /\ Forall (fun l =>
               (dir l = 1%Z \/ dir l = (-1)%Z)
               /\ exists r, In r (roadRects c)
                            /\ laneInRoad l r /\ laneSpan l r)
            (lanes c).
Proof.
  cbn zeta.
  split; [rewrite roadRects_createCity; cbn zeta; vm_compute; reflexivity |].
  split; [rewrite createCity_eq; cbn zeta; cbn [lanes]; vm_compute; reflexivity |].
  apply createCity_lane_roads.
Qed.

(** ** Small densities *)

Lemma Qfloor_unit_interval (x : Q) : 0 <= x -> x < 1 -> Qfloor x = 0%Z.
Proof.
  intros H0 H1.
  assert (Hlo : (0 <= Qfloor x)%Z)
    by (change 0%Z with (Qfloor 0); apply Qfloor_resp_le; exact H0).
  assert (Hhi : (Qfloor x < 1)%Z).
  { rewrite Zlt_Qlt. apply Qle_lt_trans with x; [apply Qfloor_le | exact H1]. }
  lia.
Qed.

(** Where the exact product 12 * density is below one half the capacity
    is 0 and the city has no building. *)
Lemma no_buildings_exact (env : Env) (density : Q) (seed0 : Z) :
  0 <= density -> density < 1 # 24 ->
  let b := buildings (createCity env density seed0) in
  capacity b = 0%Z /\ count b = 0%Z /\ matrices b = []
  /\ forall s : Z, (2 <= fst (drawLots (mkConfig density) s))%Z.
Proof.
  intros Hlo Hhi. cbn zeta. rewrite createCity_eq. cbn zeta.
  cbn [buildings capacity count matrices].
  assert (Hcap : totalEstOf (mkConfig density) = 0%Z).
  { unfold totalEstOf. cbn [mkConfig blocksX blocksZ buildingCountEstimate].
    unfold Math_round. rewrite Qfloor_unit_interval by lra. reflexivity. }
  unfold blocksResult. cbn zeta. rewrite Hcap.
  destruct (blockLoop_full (mkConfig density) 0 (blockList (mkConfig density))
              emptyAcc (afterFacadeDraws seed0)) as [Hm Hi];
    [cbn; lia |].
  rewrite Hm, Hi. repeat split.
  intros s. unfold drawLots, bind, ret.
  destruct (Rng.randInt 8 18 s) as [lots s1]. cbn [fst]. lia.
Qed.

(** The estimate of line 239 in binary64: up to a density of 0.04 the
    product 12 * density, rounded to a double, is below one half. *)
Lemma estimate64_zero (density : Q) :
  0 <= density -> density <= 1 # 25 ->
  Math_round (Double.mul 12 density) = 0%Z.
Proof.
  intros Hlo Hhi. unfold Math_round, Double.mul.
  set (x := 12 * density). assert (Hx : 0 <= x <= 12 # 25) by (unfold x; lra).
  pose proof (round_nonneg x (proj1 Hx)) as Hy0.
  pose proof (round_error x) as He. rewrite (Qabs_pos x) in He by lra.
  apply Qabs_Qle_condition in He. destruct He as [_ He].
  assert (Htau : 2 ^ (-1075) <= 1 # 18014398509481984).
  { change (1 # 18014398509481984) with (2 ^ (-54)). apply two_pow_le. lia. }
  apply Qfloor_unit_interval; lra.
Qed.

(** X4.  Up to a density of 0.04 the estimate Math.round(12 * density) is
    0, with the product in binary64 as with the exact product, so the
    capacity is 0 and the city has no building at all, although every
    block that is not a park still asks for at least two lots. *)
Theorem no_buildings_below_density (env : Env) (density : Q) (seed0 : Z) :
  0 <= density -> density <= 1 # 25 ->
  Math_round (Double.mul 12 density) = 0%Z
  /\ let b := buildings (createCity env density seed0) in
     capacity b = 0%Z /\ count b = 0%Z /\ matrices b = []
     /\ forall s : Z, (2 <= fst (drawLots (mkConfig density) s))%Z.
Proof.
  intros Hlo Hhi. split; [apply estimate64_zero; assumption |].
  apply no_buildings_exact; lra.
Qed.

Lemma no_buildings_below_density_witness :
  (0 <= 1 # 100 /\ (1 # 100) <= 1 # 25)
  /\ Math_round (Double.mul 12 (1 # 100)) = 0%Z
  /\ matrices (buildings (createCity dayEnv (1 # 100) 1)) = [].
Proof.
  split; [split; discriminate |].
  destruct (no_buildings_below_density dayEnv (1 # 100) 1) as (H1 & _ & _ & H2 & _);
    [discriminate | discriminate |].
  split; [exact H1 | exact H2].
Defined.

(** ** The facade texture *)

(** X5.  The building material of a created city holds one facade texture
    in both its [map] and its [emissiveMap]; the index of its base colour
    is inside the array of four colours; it has between 6 and 10 columns
    and between 12 and 20 rows of window cells, one cell for each pair, and
    every cell has one of the two shades that [isNight] selected when the
    city was created. *)
Theorem facade_texture_of_city (env : Env) (density : Q) (seed0 : Z) :
  let m := m_building (materials (createCity env density seed0)) in
  exists (tx : Texture) (cols rows base : Z),
    mat_map m = Some tx
    /\ mat_emissiveMap m = Some tx
    /\ tex_base tx = Some base
    /\ (0 <= base <= 3)%Z
    /\ (6 <= cols <= 10)%Z
    /\ (12 <= rows <= 20)%Z
    /\ List.length (tex_cells tx) = (Z.to_nat rows * Z.to_nat cols)%nat
    /\ List.length (tex_speckles tx) = 2000%nat
    /\ Forall (fun shade =>
                 shade = (if isNight env then 1 else 35 # 100)
                 \/ shade = (if isNight env then 1 # 10 else 12 # 100))
              (tex_cells tx).
Proof.
  cbn zeta. rewrite createCity_eq. cbn zeta. cbn [materials m_building].
  unfold buildingMaterialOf. cbn [mat_map mat_emissiveMap].
  exists (facadeOf env seed0), (fst (Rng.randInt 6 10 seed0)),
         (fst (Rng.randInt 12 20 (Rng.advance seed0))),
         (fst (Rng.randInt 0 3 (Rng.advance (Rng.advance seed0)))).
  split; [reflexivity |]. split; [reflexivity |]. split; [reflexivity |].
  split; [apply randInt_bounds; lia |].
  split; [apply randInt_bounds; lia |].
  split; [apply randInt_bounds; lia |].
  unfold facadeOf, makeFacadeTexture. cbn [tex_cells tex_speckles].
  split; [rewrite length_map, length_seq; reflexivity |].
  split; [unfold speckles; rewrite length_map, length_seq; reflexivity |].
  apply Forall_forall. intros shade Hin. apply in_map_iff in Hin.
  destruct Hin as (i & <- & _).
  destruct (Qlt_le_dec _ (3 # 10)); [left | right]; reflexivity.
Qed.

(** ** Parks and trees *)

(** The trees of one park: two meshes for each, above the park plane when
    the lot is between 4 and 50 wide and deep. *)
Lemma treeLoop_spec (r : Rect) (bx bz : Z) :
  minX r + 4 <= maxX r -> maxX r <= minX r + 50 ->
  minZ r + 4 <= maxZ r -> maxZ r <= minZ r + 50 ->
  forall (n : nat) (trees : list Object3D) (s : Z),
  exists new : list Object3D,
    fst (treeLoop n r trees s) = trees ++ new
    /\ List.length new = (2 * n)%nat
    /\ Forall (fun t => isTreeMesh t = true /\ obj_children t = []
                        /\ standsOn t (parkMesh r bx bz))
              new.
Proof.
  intros HX1 HX2 HZ1 HZ2. induction n as [| n IH]; intros trees s.
  - exists []. cbn. rewrite app_nil_r. repeat split. constructor.
  - cbn [treeLoop]. unfold bind.
    pose proof (randRange_between (minX r + 2) (maxX r - 2) s) as Hx.
    destruct (Rng.randRange (minX r + 2) (maxX r - 2) s) as [tx s1].
    pose proof (randRange_between (minZ r + 2) (maxZ r - 2) s1) as Hz.
    destruct (Rng.randRange (minZ r + 2) (maxZ r - 2) s1) as [tz s2].
    cbn [fst] in Hx, Hz.
    match goal with
    | |- context [treeLoop n r (trees ++ ?two) s2] =>
        destruct (IH (trees ++ two) s2) as (new & Heq & Hlen & Hall);
        exists (two ++ new)
    end.
    rewrite Heq, <- app_assoc. split; [reflexivity |].
    split; [rewrite length_app, Hlen; cbn [List.length]; lia |].
    assert (Hon : forall y : Q,
               standsOn (Mesh {| geo_id := res_trunkGeo;
                                 shape := CylinderGeometry (25 # 100) (35 # 100)
                                                           (22 # 10) 8 |}
                              (plainMaterial res_trunkMat)
                              {| vx := tx; vy := y; vz := tz |})
                        (parkMesh r bx bz)).
    { intros y. unfold standsOn, parkMesh, groundRect.
      cbn [Mesh obj_geometry obj_position shape vx vz].
      eexists. split; [reflexivity |].
      unfold inRect. cbn [minX maxX minZ maxZ].
      assert (Hx' : minX r + 2 <= tx <= maxX r - 2) by (apply Hx; lra).
      assert (Hz' : minZ r + 2 <= tz <= maxZ r - 2) by (apply Hz; lra).
      rewrite !Qhalf_mult. repeat split; lra. }
    cbn [app]. constructor; [| constructor; [| exact Hall]].
    + split; [reflexivity |]. split; [reflexivity |]. apply Hon.
    + split; [reflexivity |]. split; [reflexivity |].
      destruct (Hon (24 # 10)) as (rr & Hr & Hin).
      exists rr. split; [exact Hr | exact Hin].
Qed.

Lemma blockStep_parksKept (density : Q) (totalEst : Z) (b : Z * Z)
      (a : Acc) (s : Z) :
  parksKept (mkConfig density) a ->
  let a' := fst (blockStep (mkConfig density) totalEst b a s) in
  parksKept (mkConfig density) a'
  /\ (List.length (a_parks a') <= List.length (a_parks a) + 1)%nat.
Proof.
  intros (Hp & Ht & Hn). destruct b as [bx bz]. cbn zeta.
  unfold blockStep, bind.
  destruct (Rng.next s) as [u s1].
  destruct (Qlt_le_dec u (parkChance (mkConfig density))) as [Hpark | Hlots].
  - pose proof (randInt_bounds 6 14 s1) as Htc.
    destruct (Rng.randInt 6 14 s1) as [tc s2]. cbn [fst] in Htc.
    destruct (lotRect_extent density bx bz) as [HX HZ]. cbn zeta in HX, HZ.
    set (r := lotRect (mkConfig density) bx bz) in *.
    destruct (treeLoop_spec r bx bz) with (n := Z.to_nat tc)
      (trees := a_trees a) (s := s2) as (new & Heq & Hlen & Hall);
      try lra.
    destruct (treeLoop (Z.to_nat tc) r (a_trees a) s2) as [trees s3].
    cbn [fst] in Heq. subst trees. unfold ret, parksKept.
    cbn [fst a_parks a_trees].
    split; [| rewrite length_app; cbn [List.length]; lia].
    split; [apply Forall_app; split; [exact Hp |];
            constructor; [exists bx, bz; reflexivity | constructor] |].
    split.
    + apply Forall_app. split.
      * eapply Forall_impl; [| exact Ht].
        intros t (H1 & H2 & p & Hin & Hon).
        split; [exact H1 |]. split; [exact H2 |].
        exists p. split; [apply in_or_app; left; exact Hin | exact Hon].
      * eapply Forall_impl; [| exact Hall].
        intros t (H1 & H2 & Hon).
        split; [exact H1 |]. split; [exact H2 |].
        exists (parkMesh r bx bz).
        split; [apply in_or_app; right; left; reflexivity | exact Hon].
    + rewrite !length_app, Hlen. cbn [List.length]. lia.
  - unfold drawLots, bind, ret. destruct (Rng.randInt 8 18 s1) as [lots s2].
    set (L := Z.max 2 _).
    destruct (lotLoop_spec (lotRect (mkConfig density) bx bz) totalEst
                (Z.to_nat L) a s2) as (new & _ & Hp' & Ht' & _).
    cbn zeta in Hp', Ht'. unfold parksKept. rewrite Hp', Ht'.
    split; [split; [exact Hp | split; [exact Ht | exact Hn]] | lia].
Qed.

Lemma blockLoop_parksKept (density : Q) (totalEst : Z) (bs : list (Z * Z)) :
  forall (a : Acc) (s : Z),
    parksKept (mkConfig density) a ->
    let a' := fst (blockLoop (mkConfig density) totalEst bs a s) in
    parksKept (mkConfig density) a'
    /\ (List.length (a_parks a')
        <= List.length (a_parks a) + List.length bs)%nat.
Proof.
  induction bs as [| b bs IH]; intros a s Ha; cbn zeta.
  - cbn [blockLoop]. unfold ret. cbn [fst List.length]. split; [exact Ha | lia].
  - cbn [blockLoop]. unfold bind.
    destruct (blockStep_parksKept density totalEst b a s Ha) as [H1 Hn1].
    destruct (blockStep (mkConfig density) totalEst b a s) as [a1 s1].
    cbn [fst] in H1, Hn1.
    destruct (IH a1 s1 H1) as [H2 Hn2]. split; [exact H2 |].
    cbn [List.length]. lia.
Qed.

Lemma filter_none {A} (f : A -> bool) (l : list A) :
  Forall (fun x => f x = false) l -> filter f l = [].
Proof.
  induction 1 as [| x l Hx _ IH]; [reflexivity |].
  cbn [filter]. rewrite Hx. exact IH.
Qed.

Lemma filter_all {A} (f : A -> bool) (l : list A) :
  Forall (fun x => f x = true) l -> filter f l = l.
Proof.
  induction 1 as [| x l Hx _ IH]; [reflexivity |].
  cbn [filter]. rewrite Hx, IH. reflexivity.
Qed.

Lemma flat_map_nil {A B} (f : A -> list B) (l : list A) :
  Forall (fun x => f x = []) l -> flat_map f l = [].
Proof.
  induction 1 as [| x l Hx _ IH]; [reflexivity |].
  cbn [flat_map]. rewrite Hx, IH. reflexivity.
Qed.

Lemma Forall_map_intro {A B} (P : B -> Prop) (f : A -> B) (l : list A) :
  (forall x, P (f x)) -> Forall P (List.map f l).
Proof. intros H. induction l; cbn; constructor; auto. Qed.

Lemma group_children_parks (roads sw parks trees cs : list Object3D)
      (bnode : Object3D) :
  Forall (fun o => isParkMesh o = false) sw ->
  Forall (fun o => isParkMesh o = true) parks ->
  isParkMesh bnode = false ->
  Forall (fun o => isParkMesh o = false) cs ->
  filter isParkMesh
         ([Group roads] ++ sw ++ parks ++ [bnode; Group trees] ++ cs)
  = parks.
Proof.
  intros Hsw Hparks Hb Hcs. rewrite !filter_app.
  rewrite (filter_none _ sw Hsw), (filter_all _ parks Hparks),
    (filter_none _ cs Hcs).
  cbn [filter]. rewrite Hb.
  change (isParkMesh (Group roads)) with false.
  change (isParkMesh (Group trees)) with false.
  cbn [app]. rewrite !app_nil_r. reflexivity.
Qed.

Lemma group_children_trees (roads sw parks trees cs : list Object3D)
      (bnode : Object3D) :
  Forall (fun o => isTreeMesh o = false) roads ->
  Forall (fun o => obj_children o = []) sw ->
  Forall (fun o => obj_children o = []) parks ->
  obj_children bnode = [] ->
  Forall (fun o => isTreeMesh o = true) trees ->
  Forall (fun o => obj_children o = []) cs ->
  flat_map (fun o => filter isTreeMesh (obj_children o))
           ([Group roads] ++ sw ++ parks ++ [bnode; Group trees] ++ cs)
  = trees.
Proof.
  intros Hroads Hsw Hparks Hb Htrees Hcs.
  assert (Hnil : forall l : list Object3D,
             Forall (fun o => obj_children o = []) l ->
             flat_map (fun o => filter isTreeMesh (obj_children o)) l = []).
  { intros l Hl. apply flat_map_nil. eapply Forall_impl; [| exact Hl].
    intros o Ho. cbn beta. rewrite Ho. reflexivity. }
  rewrite !flat_map_app, (Hnil sw Hsw), (Hnil parks Hparks), (Hnil cs Hcs).
  cbn [flat_map]. rewrite Hb.
  change (obj_children (Group roads)) with roads.
  change (obj_children (Group trees)) with trees.
  rewrite (filter_none _ roads Hroads), (filter_all _ trees Htrees).
  cbn [filter app]. rewrite !app_nil_r. reflexivity.
Qed.

Lemma blocksResult_parksKept (density : Q) (seed0 : Z) :
  parksKept (mkConfig density) (fst (blocksResult density seed0))
  /\ (List.length (a_parks (fst (blocksResult density seed0))) <= 144)%nat.
Proof.
  unfold blocksResult.
  destruct (blockLoop_parksKept density (totalEstOf (mkConfig density))
              (blockList (mkConfig density)) emptyAcc (afterFacadeDraws seed0))
    as [Hkept Hlen].
  { repeat split; cbn; constructor. }
  split; [exact Hkept |]. exact Hlen.
Qed.

Lemma createCity_parks_trees (env : Env) (density : Q) (seed0 : Z) :
  cityParks (createCity env density seed0)
  = a_parks (fst (blocksResult density seed0))
  /\ cityTrees (createCity env density seed0)
     = a_trees (fst (blocksResult density seed0)).
Proof.
  destruct (blocksResult_parksKept density seed0) as ((Hp & Ht & _) & _).
  unfold cityParks, cityTrees. rewrite createCity_group.
  change (obj_children (Group ?cs)) with cs.
  split.
  - apply group_children_parks.
    + unfold sidewalkMeshes. apply Forall_map_intro. intros [bx bz]. reflexivity.
    + eapply Forall_impl; [| exact Hp]. intros p (bx & bz & ->). reflexivity.
    + reflexivity.
    + repeat constructor.
  - apply group_children_trees.
    + apply Forall_app. split; [unfold roadMeshesH | unfold roadMeshesV];
        apply Forall_map_intro; intros i; reflexivity.
    + unfold sidewalkMeshes. apply Forall_map_intro. intros [bx bz]. reflexivity.
    + eapply Forall_impl; [| exact Hp]. intros p (bx & bz & ->). reflexivity.
    + reflexivity.
    + eapply Forall_impl; [| exact Ht]. intros t (H & _). exact H.
    + repeat constructor.
Qed.

Lemma blockStep_treesGrouped (density : Q) (totalEst : Z) (b : Z * Z)
      (a : Acc) (s : Z) :
  treesGrouped a ->
  treesGrouped (fst (blockStep (mkConfig density) totalEst b a s)).
Proof.
  intros (groups & Hcat & Hall). destruct b as [bx bz].
  unfold blockStep, bind.
  destruct (Rng.next s) as [u s1].
  destruct (Qlt_le_dec u (parkChance (mkConfig density))) as [Hpark | Hlots].
  - pose proof (randInt_bounds 6 14 s1) as Htc.
    destruct (Rng.randInt 6 14 s1) as [tc s2]. cbn [fst] in Htc.
    destruct (lotRect_extent density bx bz) as [HX HZ]. cbn zeta in HX, HZ.
    set (r := lotRect (mkConfig density) bx bz) in *.
    destruct (treeLoop_spec r bx bz) with (n := Z.to_nat tc)
      (trees := a_trees a) (s := s2) as (new & Heq & Hlen & Hnew);
      try lra.
    destruct (treeLoop (Z.to_nat tc) r (a_trees a) s2) as [trees s3].
    cbn [fst] in Heq. subst trees. unfold ret. cbn [fst].
    exists (groups ++ [new]). cbn [a_trees a_parks].
    split; [rewrite concat_app, Hcat; cbn [concat]; rewrite app_nil_r; reflexivity |].
    apply Forall2_app; [exact Hall |].
    constructor; [| constructor].
    split; [rewrite Hlen; lia |].
    eapply Forall_impl; [| exact Hnew]. intros t (_ & _ & Hon). exact Hon.
  - unfold drawLots, bind, ret. destruct (Rng.randInt 8 18 s1) as [lots s2].
    set (L := Z.max 2 _).
    destruct (lotLoop_spec (lotRect (mkConfig density) bx bz) totalEst
                (Z.to_nat L) a s2) as (new & _ & Hp' & Ht' & _).
    cbn zeta in Hp', Ht'. unfold treesGrouped. rewrite Hp', Ht'.
    exists groups. split; assumption.
Qed.

Lemma blockLoop_treesGrouped (density : Q) (totalEst : Z) (bs : list (Z * Z)) :
  forall (a : Acc) (s : Z),
    treesGrouped a ->
    treesGrouped (fst (blockLoop (mkConfig density) totalEst bs a s)).
Proof.
  induction bs as [| b bs IH]; intros a s Ha; [exact Ha |].
  cbn [blockLoop]. unfold bind.
  pose proof (blockStep_treesGrouped density totalEst b a s Ha) as H1.
  destruct (blockStep (mkConfig density) totalEst b a s) as [a1 s1].
  apply IH. exact H1.
Qed.

Lemma blocksResult_treesGrouped (density : Q) (seed0 : Z) :
  treesGrouped (fst (blocksResult density seed0)).
Proof.
  unfold blocksResult. apply blockLoop_treesGrouped.
  exists []. split; [reflexivity | constructor].
Qed.

(** X6.  In a created city at most 144 blocks are parks, and the trunks
    and canopies of the city are, park by park in the order of the parks,
    the trees of that park: between 12 and 28 meshes for each park (a trunk
    and a canopy for each of its 6 to 14 trees), every one of them above
    the plane of that park: no tree is on a road or among the buildings. *)
Theorem trees_stand_on_parks (env : Env) (density : Q) (seed0 : Z) :
  let c := createCity env density seed0 in
  (List.length (cityParks c) <= 144)%nat
  /\ exists groups : list (list Object3D),
       cityTrees c = concat groups
       /\ Forall2 treesOfPark (cityParks c) groups.
Proof.
  cbn zeta.
  destruct (createCity_parks_trees env density seed0) as [-> ->].
  destruct (blocksResult_parksKept density seed0) as (_ & Hlen).
  split; [exact Hlen |]. apply blocksResult_treesGrouped.
Qed.

(** ** Vehicles on the roads *)

Lemma runCar_app (dts1 dts2 : list Q) (car : Car) :
  runCar (dts1 ++ dts2) car = runCar dts2 (runCar dts1 car).
Proof. unfold runCar. apply fold_left_app. Qed.

(** The body of a vehicle whose lane lies in a road, whose cycle length is
    910 and whose progress is in [0,1), is above that road. *)
Lemma carPosition_on_road (car : Car) (r : Rect) :
  laneInRoad (car_lane car) r -> laneSpan (car_lane car) r ->
  car_length car == 910 -> 0 <= car_t car < 1 ->
  inRect r (vx (carPosition car)) (vz (carPosition car)).
Proof.
  intros Hin Hspan HL [Ht0 Ht1].
  unfold laneInRoad, laneSpan in *. unfold carPosition, inRect.
  set (pos := car_t car * car_length car - car_length car / 2).
  assert (Hpos : - 455 <= pos /\ pos <= 455).
  { unfold pos. rewrite HL. setoid_replace (910 / 2) with 455 by reflexivity.
    split; lra. }
  destruct Hpos as [Hp0 Hp1].
  destruct (axis (car_lane car)); destruct (dir (car_lane car) >? 0)%Z;
    cbn [vx vz]; destruct Hin, Hspan; repeat split; lra.
Qed.

(** X7.  In every frame of a created city, after frames whose [dt] are not
    negative, the body of every vehicle is written at height 0.6 above a
    road of the city: vehicles never leave the roads. *)
Theorem vehicles_stay_on_roads (env : Env) (density : Q) (seed0 : Z)
        (dts : list Q) (dt : Q) :
  Forall (fun x => 0 <= x) (dts ++ [dt]) ->
  exists c' : City,
    runTraffic (dts ++ [dt]) (Some (createCity env density seed0)) = Some c'
    /\ List.length (bodyMesh (carsMeshes c')) = 144%nat
    /\ Forall (fun tr =>
                 onRoad (createCity env density seed0) (ct_position tr)
                 /\ vy (ct_position tr) = 6 # 10)
              (bodyMesh (carsMeshes c')).
Proof.
  intros Hdts. set (c0 := createCity env density seed0).
  rewrite runTraffic_Some, fold_left_app. cbn [fold_left].
  set (c1 := fold_left (fun c dt => trafficFrame dt c) dts c0).
  destruct (frames_sized dts c0 (createCity_sized env density seed0))
    as (Hsized & Hcars). fold c1 in Hsized, Hcars.
  destruct (trafficFrame_sized dt c1 Hsized) as (_ & Hcars' & Hbody & _).
  exists (trafficFrame dt c1). split; [reflexivity |].
  rewrite Hbody, Hcars', Hcars, !map_map.
  assert (Hlen : List.length (cars c0) = 144%nat).
  { unfold c0. rewrite createCity_eq. cbn zeta. cbn [cars].
    unfold carsResult. cbn zeta. rewrite carLoop_length. reflexivity. }
  split; [rewrite length_map; exact Hlen |].
  apply Forall_forall. intros tr Hin. apply in_map_iff in Hin.
  destruct Hin as (car & <- & Hcar).
  pose proof (createCity_cars env density seed0) as Hall. cbn zeta in Hall.
  fold c0 in Hall. rewrite Forall_forall in Hall.
  destruct (Hall car Hcar) as (Hlane & Hspeed & Ht & HL).
  pose proof (createCity_lane_roads env density seed0) as Hroads.
  cbn zeta in Hroads. fold c0 in Hroads. rewrite Forall_forall in Hroads.
  destruct (Hroads _ Hlane) as (_ & r & Hr & Hin & Hspan).
  change (tickCar dt (runCar dts car)) with (runCar [dt] (runCar dts car)).
  rewrite <- runCar_app.
  destruct (runCar_fields (dts ++ [dt]) car) as (Hf1 & Hf2 & Hf3 & _).
  assert (HLpos : 0 < car_length car) by (rewrite HL; reflexivity).
  assert (Hinc : Forall (fun x => 0 <= car_speed car * x) (dts ++ [dt])).
  { eapply Forall_impl; [| exact Hdts]. intros x Hx. cbn beta.
    apply Qmult_le_0_compat; [lra | exact Hx]. }
  destruct (runCar_progress (car_speed car) (car_length car) HLpos
              (dts ++ [dt]) car eq_refl eq_refl Ht Hinc)
    as (laps & _ & Hrange).
  split.
  - exists r. split; [exact Hr |]. cbn [carTransform ct_position].
    apply carPosition_on_road; rewrite ?Hf1, ?Hf3; assumption.
  - cbn [carTransform ct_position]. unfold carPosition.
    destruct (axis _); reflexivity.
Qed.

Lemma vehicles_stay_on_roads_witness :
  Forall (fun x => 0 <= x) ([1 # 60; 5 # 100] ++ [1 # 30])
  /\ exists c' : City,
       runTraffic ([1 # 60; 5 # 100] ++ [1 # 30])
                  (Some (createCity dayEnv 1 1)) = Some c'
       /\ List.length (bodyMesh (carsMeshes c')) = 144%nat
       /\ Forall (fun tr =>
                    onRoad (createCity dayEnv 1 1) (ct_position tr)
                    /\ vy (ct_position tr) = 6 # 10)
                 (bodyMesh (carsMeshes c')).
Proof.
  assert (H : Forall (fun x => 0 <= x) ([1 # 60; 5 # 100] ++ [1 # 30]))
    by (repeat constructor; discriminate).
  split; [exact H |].
  exact (vehicles_stay_on_roads dayEnv 1 1 [1 # 60; 5 # 100] (1 # 30) H).
Defined.

(** X8.  The four wheels of a vehicle are written with the yaw of the body,
    0.25 below it, 1.3 before or behind it along the travel axis of its
    lane and 0.8 to one side: the wheelbase lies along the lane, for each
    of the two axes and the two directions. *)
Theorem wheels_along_the_lane (car : Car) :
  List.length (wheelTransforms car) = 4%nat
  /\ Forall (wheelPlaced car) (wheelTransforms car).
Proof.
  split; [reflexivity |].
  unfold wheelTransforms, wheelOffsets, wheelPlaced, applyAxisAngleY, addVec,
    carYaw, carPosition.
  cbn [List.map].
  destruct (axis (car_lane car)); destruct (dir (car_lane car) >? 0)%Z;
    cbn [yawCosSin ct_position ct_yaw vx vy vz];
    repeat (apply Forall_cons; [| try apply Forall_nil]);
    cbn [ct_position ct_yaw vx vy vz];
    (split; [reflexivity |]); (split; [ring |]);
    split; first [left; ring | right; ring].
Qed.

(** ** The page: what the scene holds *)

Lemma removeChild_filter_same (f : Child -> bool) (c : Child) :
  f c = true ->
  forall l : list Child,
    filter f l = [c] -> filter f (removeChild c l) = [].
Proof.
  intros Hc. induction l as [| x l IH]; intros Hl; [discriminate |].
  cbn [removeChild filter] in *. destruct (Child_eq_dec x c) as [-> | Hne].
  - rewrite Hc in Hl. congruence.
  - cbn [filter]. destruct (f x) eqn:Hx.
    + injection Hl as Hxc _. contradiction.
    + apply IH. exact Hl.
Qed.

Lemma removeChild_filter_other (f : Child -> bool) (c : Child) :
  f c = false ->
  forall l : list Child, filter f (removeChild c l) = filter f l.
Proof.
  intros Hc. induction l as [| x l IH]; [reflexivity |].
  cbn [removeChild filter]. destruct (Child_eq_dec x c) as [-> | Hne].
  - rewrite Hc. reflexivity.
  - cbn [filter]. rewrite IH. reflexivity.
Qed.

Lemma sceneOf_regenerate (seedArg : option Z) (r : Q) (rnd : nat -> Q)
      (w : World) :
  sceneOf w -> sceneOf (regenerate seedArg r rnd w).
Proof.
  intros (Hfix & Hcity & Hrain). unfold sceneOf, regenerate.
  cbn [w_children w_city w_rainSystem w_nextId].
  rewrite !filter_app. cbn [filter isFixture isCityGroup isRain].
  rewrite !app_nil_r.
  destruct (w_city w) as [[id c] |].
  - destruct Hcity as [Hcity Hid].
    rewrite (removeChild_filter_same isCityGroup (child_cityGroup id)
               eq_refl _ Hcity).
    rewrite (removeChild_filter_other isFixture (child_cityGroup id) eq_refl).
    rewrite (removeChild_filter_other isRain (child_cityGroup id) eq_refl).
    split; [exact Hfix |]. split; [split; [reflexivity | lia] |].
    destruct (w_rainSystem w); [destruct Hrain; split; [assumption | lia] |
                                exact Hrain].
  - rewrite Hcity. split; [exact Hfix |]. split; [split; [reflexivity | lia] |].
    destruct (w_rainSystem w); [destruct Hrain; split; [assumption | lia] |
                                exact Hrain].
Qed.

Lemma sceneOf_setWeather (mode : string) (rnd : nat -> Q) (w : World) :
  sceneOf w -> sceneOf (setWeather mode rnd w).
Proof.
  intros (Hfix & Hcity & Hrain). unfold sceneOf, setWeather.
  cbn [w_children w_city w_rainSystem w_nextId].
  destruct (w_rainSystem w) as [rs |].
  - destruct Hrain as [Hrain Hrid].
    destruct (String.eqb mode "rain");
      rewrite ?filter_app; cbn [filter isFixture isCityGroup isRain];
      rewrite ?app_nil_r;
      rewrite (removeChild_filter_same isRain (child_rain (rain_id rs))
                 eq_refl _ Hrain);
      rewrite (removeChild_filter_other isFixture (child_rain (rain_id rs))
                 eq_refl);
      rewrite (removeChild_filter_other isCityGroup (child_rain (rain_id rs))
                 eq_refl);
      (split; [exact Hfix |]);
      (split; [destruct (w_city w) as [[id c] |];
               [destruct Hcity; split; [assumption | lia] | exact Hcity] |]);
      cbn [rain_id]; try split; try reflexivity; lia.
  - destruct (String.eqb mode "rain");
      rewrite ?filter_app; cbn [filter isFixture isCityGroup isRain];
      rewrite ?app_nil_r, ?Hrain;
      (split; [exact Hfix |]);
      (split; [destruct (w_city w) as [[id c] |];
               [destruct Hcity; split; [assumption | lia] | exact Hcity] |]);
      cbn [rain_id]; try split; try reflexivity; lia.
Qed.

Lemma sceneOf_setDayNight (night : bool) (w : World) :
  sceneOf w -> sceneOf (setDayNight night w).
Proof.
  intros (Hfix & Hcity & Hrain). unfold sceneOf, setDayNight.
  cbn [w_children w_city w_rainSystem w_nextId].
  split; [exact Hfix |]. split; [| exact Hrain].
  destruct (w_city w) as [[id c] |]; exact Hcity.
Qed.

Lemma sceneOf_animate (delta : Q) (rnd : nat -> Q) (w : World) :
  sceneOf w -> sceneOf (animate delta rnd w).
Proof.
  intros (Hfix & Hcity & Hrain). unfold sceneOf, animate, updateMovement.
  cbn [w_children w_city w_rainSystem w_nextId].
  split; [exact Hfix |]. split.
  - destruct (w_city w) as [[id c] |]; exact Hcity.
  - destruct (w_rainSystem w) as [rs |]; exact Hrain.
Qed.

Lemma sceneKept_step (op : Op) (w : World) :
  sceneKept w -> sceneKept (step op w).
Proof.
  intros (Hscene & (id & c & Hc) & Hmode).
  destruct op as [code r rnd | code | value r rnd | | mode rnd | delta rnd];
    cbn [step].
  - unfold keydown.
    set (w1 := withKeys (setKeys true code (w_keys w)) w).
    assert (H1 : sceneKept w1).
    { split; [exact Hscene |]. split; [exists id, c; exact Hc | exact Hmode]. }
    set (w2 := if String.eqb code "KeyR" then regenerate None r rnd w1 else w1).
    assert (H2 : sceneKept w2).
    { unfold w2. destruct (String.eqb code "KeyR"); [| exact H1].
      destruct H1 as (Hs1 & _ & Hm1).
      split; [apply sceneOf_regenerate; exact Hs1 |].
      split; [eexists _, _; reflexivity | exact Hm1]. }
    destruct (String.eqb code "KeyN"); [| exact H2].
    destruct H2 as (Hs2 & (id2 & c2 & Hc2) & Hm2).
    split; [apply sceneOf_setDayNight; exact Hs2 |].
    split; [| exact Hm2].
    unfold setDayNight. cbn [w_city]. rewrite Hc2. eexists _, _; reflexivity.
  - split; [exact Hscene |]. split; [exists id, c; exact Hc | exact Hmode].
  - unfold densityChange.
    split; [apply sceneOf_regenerate; exact Hscene |].
    split; [eexists _, _; reflexivity | exact Hmode].
  - split; [apply sceneOf_setDayNight; exact Hscene |].
    split; [| exact Hmode].
    unfold setDayNight. cbn [w_city]. rewrite Hc. eexists _, _; reflexivity.
  - split; [apply sceneOf_setWeather; exact Hscene |].
    split; [unfold setWeather; cbn [w_city]; exists id, c; exact Hc |].
    unfold setWeather. cbn [w_rainSystem w_weatherMode].
    destruct (String.eqb mode "rain") eqn:Hm.
    + apply String.eqb_eq in Hm. split; [intros _; exact Hm | discriminate].
    + apply String.eqb_neq in Hm. split; [congruence | contradiction].
  - split; [apply sceneOf_animate; exact Hscene |].
    unfold animate, updateMovement. cbn [w_city w_rainSystem w_weatherMode].
    rewrite Hc. split; [eexists _, _; reflexivity |].
    destruct (w_rainSystem w); cbn [option_map];
      (split; [intros H; apply Hmode; congruence |
               intros H; apply Hmode in H; congruence]).
Qed.

Lemma sceneKept_boot (r : Q) (rnd : nat -> Q) : sceneKept (boot r rnd).
Proof.
  unfold boot.
  assert (H0 : sceneOf initialWorld) by (repeat split).
  split; [apply sceneOf_setWeather, sceneOf_regenerate; exact H0 |].
  split; [eexists _, _; reflexivity |].
  cbn [setWeather w_rainSystem w_weatherMode String.eqb Ascii.eqb Bool.eqb].
  split; [congruence | discriminate].
Qed.

Lemma runPage_inv (I : World -> Prop) :
  (forall op w, I w -> I (step op w)) ->
  forall (ops : list Op) (w : World), I w -> I (runPage ops w).
Proof.
  intros Hstep. induction ops as [| op ops IH]; intros w Hw; [exact Hw |].
  unfold runPage in *. cbn [fold_left]. apply IH, Hstep, Hw.
Qed.

(** X9.  After the start and any keys, slider, selector and button events
    and frames, the scene holds the two lights and the ground, the group of
    the current city and of no earlier city, and a rain cloud exactly when
    the weather is "rain", the current one and no earlier one. *)
Theorem scene_holds_one_city (r : Q) (rnd : nat -> Q) (ops : list Op) :
  sceneKept (runPage ops (boot r rnd)).
Proof. apply runPage_inv; [apply sceneKept_step | apply sceneKept_boot]. Qed.

(** ** The page: the city and the HUD *)

Lemma createCity_layout_env (env1 env2 : Env) (density : Q) (seed0 : Z) :
  layoutOf (createCity env1 density seed0)
  = layoutOf (createCity env2 density seed0).
Proof.
  unfold layoutOf. rewrite !createCity_eq. cbn zeta.
  cbn [group buildings lanes config seed].
  rewrite !placements_Group, !flat_map_app. cbn [flat_map].
  rewrite !placements_Group, !app_nil_r.
  rewrite (placements_roads (mkConfig density) (roadMaterialOf env1)
             (roadMaterialOf env2)).
  reflexivity.
Qed.

Lemma createCity_seed (env : Env) (density : Q) (seed0 : Z) :
  seed (createCity env density seed0) = seed0.
Proof. rewrite createCity_eq. reflexivity. Qed.

Lemma createCity_config (env : Env) (density : Q) (seed0 : Z) :
  config (createCity env density seed0) = mkConfig density.
Proof. rewrite createCity_eq. reflexivity. Qed.

Lemma createCity_lanes (env : Env) (density : Q) (seed0 : Z) :
  lanes (createCity env density seed0) = makeLanes (mkConfig density).
Proof. rewrite createCity_eq. reflexivity. Qed.

Lemma makeLanes_density (d1 d2 : Q) :
  makeLanes (mkConfig d1) = makeLanes (mkConfig d2).
Proof. reflexivity. Qed.

Lemma createCity_capacity (env : Env) (density : Q) (seed0 : Z) :
  capacity (buildings (createCity env density seed0))
  = (144 * Math_round (12 * density))%Z.
Proof. rewrite createCity_eq. reflexivity. Qed.

Lemma createCity_cars_length (env : Env) (density : Q) (seed0 : Z) :
  List.length (cars (createCity env density seed0)) = 144%nat.
Proof.
  rewrite createCity_eq. cbn zeta. cbn [cars].
  unfold carsResult. cbn zeta. rewrite carLoop_length. reflexivity.
Qed.

Lemma placements_retint (q : Q) :
  forall o : Object3D, placements (retint q o) = placements o.
Proof.
  fix IH 1. intros [g m p cs]. cbn [retint placements]. f_equal.
  induction cs as [| c cs IHcs]; [reflexivity |].
  cbn [List.map flat_map]. rewrite IH, IHcs. reflexivity.
Qed.

Lemma layoutOf_setBuildingEmissive (q : Q) (c : City) :
  layoutOf (setBuildingEmissive q c) = layoutOf c.
Proof.
  unfold layoutOf, setBuildingEmissive. cbn [group buildings lanes config seed].
  rewrite placements_retint. reflexivity.
Qed.

Lemma cityKept_regenerate (seedArg : option Z) (r : Q) (rnd : nat -> Q)
      (w : World) :
  cityKept (regenerate seedArg r rnd w).
Proof.
  unfold cityKept, regenerate. cbn [w_city w_buildingDensity w_hud].
  eexists _, _. split; [reflexivity |].
  rewrite createCity_seed, createCity_cars_length, createCity_config.
  split; [apply createCity_layout_env |]. split; reflexivity.
Qed.

Lemma cityKept_setDayNight (night : bool) (w : World) :
  cityKept w -> cityKept (setDayNight night w).
Proof.
  intros (id & c & Hc & Hl & Hn & Hh). unfold cityKept, setDayNight.
  cbn [w_city w_buildingDensity w_hud]. rewrite Hc.
  eexists _, _. split; [reflexivity |].
  rewrite layoutOf_setBuildingEmissive.
  change (seed (setBuildingEmissive _ c)) with (seed c).
  change (cars (setBuildingEmissive _ c)) with (cars c).
  split; [exact Hl |]. split; [exact Hn | exact Hh].
Qed.

Lemma cityKept_step (op : Op) (w : World) : cityKept w -> cityKept (step op w).
Proof.
  intros Hw.
  destruct op as [code r rnd | code | value r rnd | | mode rnd | delta rnd];
    cbn [step].
  - unfold keydown.
    set (w1 := withKeys (setKeys true code (w_keys w)) w).
    set (w2 := if String.eqb code "KeyR" then regenerate None r rnd w1 else w1).
    assert (H2 : cityKept w2).
    { unfold w2. destruct (String.eqb code "KeyR");
        [apply cityKept_regenerate | exact Hw]. }
    destruct (String.eqb code "KeyN");
      [apply cityKept_setDayNight; exact H2 | exact H2].
  - exact Hw.
  - apply cityKept_regenerate.
  - apply cityKept_setDayNight. exact Hw.
  - exact Hw.
  - destruct Hw as (id & c & Hc & Hl & Hn & Hh).
    unfold cityKept, animate, updateMovement.
    cbn [w_city w_buildingDensity w_hud]. rewrite Hc.
    eexists _, _. split; [reflexivity |].
    change (seed (trafficFrame _ c)) with (seed c).
    change (layoutOf (trafficFrame (Qmin (5 # 100) delta) c)) with (layoutOf c).
    split; [exact Hl |]. split; [| exact Hh].
    unfold trafficFrame. cbn [cars]. rewrite length_map. exact Hn.
Qed.

Lemma cityKept_boot (r : Q) (rnd : nat -> Q) : cityKept (boot r rnd).
Proof.
  unfold boot.
  exact (cityKept_regenerate None r rnd initialWorld).
Qed.

Lemma cityKept_reachable (r : Q) (rnd : nat -> Q) (ops : list Op) :
  cityKept (runPage ops (boot r rnd)).
Proof. apply runPage_inv; [apply cityKept_step | apply cityKept_boot]. Qed.

(** X10.  After the start and any events and frames there is a current
    city; the HUD shows 144 cars, 144 blocks and the seed of that city; and
    the city has the layout (meshes of the group, building instances,
    lanes, configuration) that [createCity] makes for the density of the
    page and that seed: frames, keys, weather and day or night never change
    the layout, and seed and density reproduce it. *)
Theorem hud_and_layout_follow_city (r : Q) (rnd : nat -> Q) (ops : list Op) :
  cityKept (runPage ops (boot r rnd)).
Proof. apply cityKept_reachable. Qed.

Lemma layoutOf_lanes (c c' : City) :
  layoutOf c = layoutOf c' -> lanes c = lanes c'.
Proof.
  intro Hl. apply (f_equal (fun l => snd (fst (fst l)))) in Hl. exact Hl.
Qed.

Lemma densityChange_cityKept (w : World) (value r' : Q) (rnd' : nat -> Q) :
  cityKept w ->
  exists (id id' : nat) (c c' : City),
    w_city w = Some (id, c)
    /\ w_city (densityChange value r' rnd' w) = Some (id', c')
    /\ seed c' = seed c
    /\ w_hud (densityChange value r' rnd' w) = w_hud w
    /\ lanes c' = lanes c
    /\ config c' = mkConfig value
    /\ capacity (buildings c') = (144 * Math_round (12 * value))%Z.
Proof.
  intros (id & c & Hc & Hl & Hn & Hh).
  exists id. eexists. exists c. eexists.
  split; [exact Hc |].
  unfold densityChange, regenerate.
  cbn [w_city w_hud withDensity w_buildingDensity w_isNight w_nextId].
  rewrite Hc. cbn [option_map snd].
  split; [reflexivity |].
  rewrite createCity_seed, createCity_cars_length, !createCity_config.
  split; [reflexivity |]. split; [rewrite Hh; reflexivity |].
  split.
  - apply layoutOf_lanes in Hl.
    rewrite Hl, !createCity_lanes. apply makeLanes_density.
  - split; [reflexivity |]. apply createCity_capacity.
Qed.

(** X11.  A change of the density slider builds a new city with the seed
    of the current one: the seed in the HUD and the lanes stay, the
    configuration takes the new density, and the capacity of the building
    buffer becomes 144 * round(12 * density). *)
Theorem density_change_keeps_seed (r : Q) (rnd : nat -> Q) (ops : list Op)
        (value r' : Q) (rnd' : nat -> Q) :
  let w := runPage ops (boot r rnd) in
  let w' := step (op_densityChange value r' rnd') w in
  exists (id id' : nat) (c c' : City),
    w_city w = Some (id, c)
    /\ w_city w' = Some (id', c')
    /\ seed c' = seed c
    /\ w_hud w' = w_hud w
    /\ lanes c' = lanes c
    /\ config c' = mkConfig value
    /\ capacity (buildings c') = (144 * Math_round (12 * value))%Z.
Proof.
  cbn zeta. apply densityChange_cityKept, cityKept_reachable.
Qed.

(** ** Sidewalks, roads and lanes *)

Lemma In_indices (n i : Z) : In i (indices n) <-> (0 <= i < n)%Z.
Proof.
  unfold indices. rewrite in_map_iff. split.
  - intros (k & <- & Hk). apply in_seq in Hk. lia.
  - intros Hi. exists (Z.to_nat i). split; [lia |]. apply in_seq. lia.
Qed.

Lemma In_blockList (cfg : Config) (bx bz : Z) :
  In (bx, bz) (blockList cfg)
  <-> (0 <= bx < blocksX cfg)%Z /\ (0 <= bz < blocksZ cfg)%Z.
Proof.
  unfold blockList. rewrite in_flat_map. split.
  - intros (x & Hx & Hin). apply in_map_iff in Hin.
    destruct Hin as (z & Heq & Hz). injection Heq as -> ->.
    apply In_indices in Hx. apply In_indices in Hz. split; assumption.
  - intros [Hx Hz]. exists bx. split; [apply In_indices; exact Hx |].
    apply in_map, In_indices. exact Hz.
Qed.

Lemma group_children_sidewalks (roads sw parks trees cs : list Object3D)
      (bnode : Object3D) :
  Forall (fun o => isSidewalkMesh o = true) sw ->
  Forall (fun o => isSidewalkMesh o = false) parks ->
  isSidewalkMesh bnode = false ->
  Forall (fun o => isSidewalkMesh o = false) cs ->
  filter isSidewalkMesh
         ([Group roads] ++ sw ++ parks ++ [bnode; Group trees] ++ cs)
  = sw.
Proof.
  intros Hsw Hparks Hb Hcs. rewrite !filter_app.
  rewrite (filter_all _ sw Hsw), (filter_none _ parks Hparks),
    (filter_none _ cs Hcs).
  cbn [filter]. rewrite Hb.
  change (isSidewalkMesh (Group roads)) with false.
  change (isSidewalkMesh (Group trees)) with false.
  cbn [app]. rewrite !app_nil_r. reflexivity.
Qed.

Lemma createCity_sidewalks (env : Env) (density : Q) (seed0 : Z) :
  citySidewalks (createCity env density seed0)
  = sidewalkMeshes (mkConfig density) (plainMaterial res_sidewalkMat).
Proof.
  destruct (blocksResult_parksKept density seed0) as ((Hp & _) & _).
  unfold citySidewalks. rewrite createCity_group.
  change (obj_children (Group ?cs)) with cs.
  apply group_children_sidewalks.
  - unfold sidewalkMeshes. apply Forall_map_intro. intros [bx bz]. reflexivity.
  - eapply Forall_impl; [| exact Hp]. intros p (bx & bz & ->). reflexivity.
  - reflexivity.
  - repeat constructor.
Qed.

(** The lane of direction -1 beside grid line [i] is a lane of the city,
    along x and along z. *)
Lemma makeLanes_In_x (cfg : Config) (i : Z) :
  (0 <= i < blocksZ cfg + 1)%Z ->
  In {| axis := axis_x;
        coord := inject_Z i * blockSize cfg - citySizeZ cfg / 2
                 + laneOffset cfg;
        dir := -1 |} (makeLanes cfg).
Proof.
  intros Hi. unfold makeLanes. apply in_or_app. left. apply in_flat_map.
  exists i. split; [apply In_indices; exact Hi |]. right. left. reflexivity.
Qed.

Lemma makeLanes_In_z (cfg : Config) (i : Z) :
  (0 <= i < blocksX cfg + 1)%Z ->
  In {| axis := axis_z;
        coord := inject_Z i * blockSize cfg - citySizeX cfg / 2
                 + laneOffset cfg;
        dir := -1 |} (makeLanes cfg).
Proof.
  intros Hi. unfold makeLanes. apply in_or_app. right. apply in_flat_map.
  exists i. split; [apply In_indices; exact Hi |]. right. left. reflexivity.
Qed.

(** X12.  A created city has 144 sidewalk planes, squares of side 68 that
    lie 0.02 above the ground; each of them shares a strip with a road of
    the city, and a lane along x and a lane along z of the city run through
    it: the sidewalks cover the edges of the roads and the lanes beside
    them. *)
Theorem sidewalks_lie_over_roads (env : Env) (density : Q) (seed0 : Z) :
  let c := createCity env density seed0 in
  List.length (citySidewalks c) = 144%nat
  /\ Forall (sidewalkOverRoad c) (citySidewalks c).
Proof.
  cbn zeta. rewrite createCity_sidewalks.
  split; [unfold sidewalkMeshes; rewrite length_map; reflexivity |].
  unfold sidewalkMeshes. apply Forall_forall. intros s Hs.
  apply in_map_iff in Hs. destruct Hs as ([bx bz] & <- & Hb).
  apply In_blockList in Hb. cbn [mkConfig blocksX blocksZ] in Hb.
  destruct Hb as [[Hx0 Hx1] [Hz0 Hz1]].
  assert (Hqx0 : 0 <= inject_Z bx) by (rewrite Zle_Qle in Hx0; exact Hx0).
  assert (Hqz0 : 0 <= inject_Z bz) by (rewrite Zle_Qle in Hz0; exact Hz0).
  assert (Hqx1 : inject_Z bx <= 11).
  { assert (H : (bx <= 11)%Z) by lia. rewrite Zle_Qle in H. exact H. }
  assert (Hqz1 : inject_Z bz <= 11).
  { assert (H : (bz <= 11)%Z) by lia. rewrite Zle_Qle in H. exact H. }
  split; [reflexivity |].
  eexists. split; [reflexivity |].
  rewrite roadRects_createCity, createCity_lanes. cbn zeta.
  unfold citySizeX, citySizeZ.
  cbn [Mesh obj_position mkConfig blocksX blocksZ blockSize
       minX maxX minZ maxZ vx vz].
  change (inject_Z 12) with 12.
  split; [field |]. split; [field |].
  split.
  - exists (verticalRoadRect (mkConfig density) bx).
    split.
    + apply in_or_app. right. apply in_map, In_indices.
      cbn [mkConfig blocksX]. lia.
    + unfold overlap, verticalRoadRect, citySizeX, citySizeZ.
      cbn [mkConfig blocksX blocksZ blockSize roadWidth
           minX maxX minZ maxZ].
      change (inject_Z 12) with 12.
      rewrite !Qhalf_mult. repeat split; lra.
  - exists {| axis := axis_x;
              coord := inject_Z bz * blockSize (mkConfig density)
                       - citySizeZ (mkConfig density) / 2
                       + laneOffset (mkConfig density);
              dir := -1 |},
           {| axis := axis_z;
              coord := inject_Z bx * blockSize (mkConfig density)
                       - citySizeX (mkConfig density) / 2
                       + laneOffset (mkConfig density);
              dir := -1 |}.
    split; [apply makeLanes_In_x; cbn [mkConfig blocksZ]; lia |].
    split; [apply makeLanes_In_z; cbn [mkConfig blocksX]; lia |].
    split; [reflexivity |]. split; [reflexivity |].
    unfold laneCrosses, citySizeX, citySizeZ.
    cbn [axis coord mkConfig blocksX blocksZ blockSize laneOffset
         minX maxX minZ maxZ].
    change (inject_Z 12) with 12.
    rewrite !Qhalf_mult. repeat split; lra.
Qed.

(** ** The page: light, fog and glow *)

Lemma createCity_building (env : Env) (density : Q) (seed0 : Z) :
  m_building (materials (createCity env density seed0))
  = buildingMaterialOf env seed0.
Proof. rewrite createCity_eq. reflexivity. Qed.

Lemma createCity_buildingMesh (env : Env) (density : Q) (seed0 : Z) :
  In (buildingMesh (buildingMaterialOf env seed0))
     (obj_children (group (createCity env density seed0))).
Proof.
  rewrite createCity_group. change (obj_children (Group ?cs)) with cs.
  apply in_or_app. right. apply in_or_app. right. apply in_or_app. right.
  apply in_or_app. left. left. reflexivity.
Qed.

Lemma retint_buildingMesh (q : Q) (m : Material) :
  mat_id m = res_buildingMat ->
  retint q (buildingMesh m) = buildingMesh (withEmissive q m).
Proof.
  intros Hm. unfold buildingMesh, instancedNode, Mesh.
  cbn [retint option_map List.map].
  destruct (Res_eq_dec (mat_id m) res_buildingMat) as [_ | Hne];
    [reflexivity | contradiction].
Qed.

Lemma obj_children_retint (q : Q) (o : Object3D) :
  obj_children (retint q o) = List.map (retint q) (obj_children o).
Proof. destruct o. reflexivity. Qed.

Lemma lightingKept_regenerate (seedArg : option Z) (r : Q) (rnd : nat -> Q)
      (w : World) :
  w_background w = (if w_isNight w then 0x0b1020 else 0x83a6cf)%Z ->
  w_fogColor w = (if w_isNight w then 0x0b1020 else 0x98b3d1)%Z ->
  w_hemi w = (if w_isNight w then 2 # 10 else 7 # 10) ->
  w_sun w = (if w_isNight w then 15 # 100 else 12 # 10) ->
  w_fogDensity w = fogDensityOf (w_weatherMode w) ->
  lightingKept (regenerate seedArg r rnd w).
Proof.
  intros Hbg Hfog Hhemi Hsun Hdens. unfold lightingKept, regenerate.
  cbn [w_background w_fogColor w_hemi w_sun w_fogDensity w_weatherMode
       w_isNight w_city].
  split; [exact Hbg |]. split; [exact Hfog |]. split; [exact Hhemi |].
  split; [exact Hsun |]. split; [exact Hdens |].
  eexists _, _. split; [reflexivity |].
  rewrite createCity_building.
  split; [reflexivity |]. split; [reflexivity |].
  apply createCity_buildingMesh.
Qed.

Lemma lightingKept_setDayNight (night : bool) (w : World) :
  lightingKept w -> lightingKept (setDayNight night w).
Proof.
  intros (_ & _ & _ & _ & Hdens & id & c & Hc & Hid & _ & Hin).
  unfold lightingKept, setDayNight.
  cbn [w_background w_fogColor w_hemi w_sun w_fogDensity w_weatherMode
       w_isNight w_city].
  rewrite Hc.
  split; [reflexivity |]. split; [reflexivity |]. split; [reflexivity |].
  split; [reflexivity |]. split; [exact Hdens |].
  eexists _, _. split; [reflexivity |].
  unfold setBuildingEmissive.
  cbn [materials m_building group withEmissive mat_id mat_emissiveIntensity].
  split; [exact Hid |]. split; [reflexivity |].
  rewrite obj_children_retint.
  change {| mat_id := mat_id (m_building (materials c));
            mat_map := mat_map (m_building (materials c));
            mat_emissiveMap := mat_emissiveMap (m_building (materials c));
            mat_emissiveIntensity := if night then 7 # 10 else 12 # 100 |}
    with (withEmissive (if night then 7 # 10 else 12 # 100)
                       (m_building (materials c))).
  rewrite <- (retint_buildingMesh _ _ Hid). apply in_map. exact Hin.
Qed.

Lemma lightingKept_setWeather (mode : string) (rnd : nat -> Q) (w : World) :
  lightingKept w -> lightingKept (setWeather mode rnd w).
Proof.
  intros (Hbg & _ & Hhemi & Hsun & _ & Hcity).
  unfold lightingKept, setWeather.
  cbn [w_background w_fogColor w_hemi w_sun w_fogDensity w_weatherMode
       w_isNight w_city].
  split; [exact Hbg |]. split; [reflexivity |]. split; [exact Hhemi |].
  split; [exact Hsun |]. split; [reflexivity |]. exact Hcity.
Qed.

Lemma lightingKept_withKeys (k : Keys) (w : World) :
  lightingKept w -> lightingKept (withKeys k w).
Proof. intros H. exact H. Qed.

Lemma lightingKept_animate (delta : Q) (rnd : nat -> Q) (w : World) :
  lightingKept w -> lightingKept (animate delta rnd w).
Proof.
  intros (Hbg & Hfog & Hhemi & Hsun & Hdens & id & c & Hc & Hid & Hq & Hin).
  unfold lightingKept, animate, updateMovement.
  cbn [w_background w_fogColor w_hemi w_sun w_fogDensity w_weatherMode
       w_isNight w_city].
  rewrite Hc.
  split; [exact Hbg |]. split; [exact Hfog |]. split; [exact Hhemi |].
  split; [exact Hsun |]. split; [exact Hdens |].
  eexists _, _. split; [reflexivity |].
  cbn [trafficFrame materials group].
  split; [exact Hid |]. split; [exact Hq | exact Hin].
Qed.

Lemma lightingKept_regenerate_kept (seedArg : option Z) (r : Q)
      (rnd : nat -> Q) (w : World) :
  lightingKept w -> lightingKept (regenerate seedArg r rnd w).
Proof.
  intros (Hbg & Hfog & Hhemi & Hsun & Hdens & _).
  apply lightingKept_regenerate; assumption.
Qed.

Lemma lightingKept_step (op : Op) (w : World) :
  lightingKept w -> lightingKept (step op w).
Proof.
  intros Hw.
  destruct op as [code r rnd | code | value r rnd | | mode rnd | delta rnd];
    cbn [step].
  - unfold keydown.
    set (w1 := withKeys (setKeys true code (w_keys w)) w).
    assert (H1 : lightingKept w1) by (apply lightingKept_withKeys; exact Hw).
    set (w2 := if String.eqb code "KeyR" then regenerate None r rnd w1 else w1).
    assert (H2 : lightingKept w2).
    { unfold w2. destruct (String.eqb code "KeyR"); [| exact H1].
      apply lightingKept_regenerate_kept. exact H1. }
    destruct (String.eqb code "KeyN"); [| exact H2].
    apply lightingKept_setDayNight. exact H2.
  - apply lightingKept_withKeys. exact Hw.
  - unfold densityChange. apply lightingKept_regenerate_kept. exact Hw.
  - apply lightingKept_setDayNight. exact Hw.
  - apply lightingKept_setWeather. exact Hw.
  - apply lightingKept_animate. exact Hw.
Qed.

Lemma lightingKept_boot (r : Q) (rnd : nat -> Q) : lightingKept (boot r rnd).
Proof.
  unfold boot, lightingKept, setWeather, regenerate.
  cbn [w_background w_fogColor w_hemi w_sun w_fogDensity w_weatherMode
       w_isNight w_city initialWorld].
  split; [reflexivity |]. split; [reflexivity |]. split; [reflexivity |].
  split; [reflexivity |]. split; [reflexivity |].
  eexists _, _. split; [reflexivity |].
  rewrite createCity_building.
  split; [reflexivity |]. split; [reflexivity |].
  apply createCity_buildingMesh.
Qed.

(** X13.  After the start and any keys, slider, selector and button events
    and frames, the background, the colour of the fog and the intensities
    of the two lights are those of [isNight], the density of the fog is
    that of [weatherMode], and the building material of the current city,
    which the mesh of the buildings in its group holds, glows with the
    intensity of [isNight]: a city that is regenerated at night glows as
    one that was switched to night, and a change of the weather at night
    keeps the fog dark. *)
Theorem lighting_follows_day_and_weather (r : Q) (rnd : nat -> Q)
        (ops : list Op) :
  lightingKept (runPage ops (boot r rnd)).
Proof. apply runPage_inv; [apply lightingKept_step | apply lightingKept_boot]. Qed.

(** ** The page: speed and height of the camera *)

Lemma runPage_inv_when (ok : Op -> Prop) (I : World -> Prop) :
  (forall op w, ok op -> I w -> I (step op w)) ->
  forall (ops : list Op) (w : World),
    Forall ok ops -> I w -> I (runPage ops w).
Proof.
  intros Hstep. induction ops as [| op ops IH]; intros w Hops Hw; [exact Hw |].
  unfold runPage in *. cbn [fold_left]. inversion Hops as [| ? ? Hop Hrest]; subst.
  apply IH; [exact Hrest |]. apply Hstep; assumption.
Qed.

(** A step of the fraction [f] from [s] towards [t] stays between them. *)
Lemma ease_between (lo hi s t f : Q) :
  0 <= f <= 1 -> lo <= s <= hi -> lo <= t <= hi ->
  lo <= s + (t - s) * f <= hi.
Proof.
  intros [Hf0 Hf1] [Hs0 Hs1] [Ht0 Ht1]. split; nra.
Qed.

Lemma targetSpeed_bounds (k : Keys) : 0 <= targetSpeed k <= SPRINT.
Proof.
  unfold targetSpeed, SPRINT, SPEED.
  destruct (key_shift k); destruct ((forwardOf k =? 0) && (rightOf k =? 0))%Z;
    split; discriminate.
Qed.

Lemma frame_dt (delta : Q) :
  0 <= delta -> 0 <= Qmin (5 # 100) delta <= 5 # 100.
Proof.
  intros Hd. split; [apply Q.min_glb; [discriminate | exact Hd] |].
  apply Q.le_min_l.
Qed.

Lemma nextSpeed_bounds (dt : Q) (k : Keys) (speed : Q) :
  0 <= dt <= 5 # 100 -> 0 <= speed <= SPRINT ->
  0 <= nextSpeed dt k speed <= SPRINT.
Proof.
  intros [Hd0 Hd1] Hs. unfold nextSpeed. cbn zeta.
  apply ease_between; [| exact Hs | apply targetSpeed_bounds].
  split.
  - apply Q.min_glb; [discriminate |].
    destruct (Qlt_le_dec speed (targetSpeed k)); unfold FRICTION; nra.
  - apply Q.le_min_l.
Qed.

Lemma nextCameraY_bounds (dt : Q) (k : Keys) (y : Q) :
  15 # 10 <= nextCameraY dt k y <= 220.
Proof.
  unfold nextCameraY. cbn zeta. split; [| apply Q.le_min_l].
  apply Q.min_glb; [discriminate | apply Q.le_max_l].
Qed.

Lemma motionKept_step (op : Op) (w : World) :
  clockOk op -> motionKept w -> motionKept (step op w).
Proof.
  intros Hop Hw.
  destruct op as [code r rnd | code | value r rnd | | mode rnd | delta rnd];
    cbn [step]; try exact Hw.
  - unfold keydown.
    destruct (String.eqb code "KeyR"); destruct (String.eqb code "KeyN");
      exact Hw.
  - destruct Hw as [Hs _]. cbn [clockOk] in Hop.
    unfold motionKept, animate, updateMovement. cbn [w_speed w_cameraY].
    split; [| apply nextCameraY_bounds].
    apply nextSpeed_bounds; [apply frame_dt; exact Hop | exact Hs].
Qed.

Lemma motionKept_boot (r : Q) (rnd : nat -> Q) : motionKept (boot r rnd).
Proof.
  unfold motionKept, boot, setWeather, regenerate.
  cbn [w_speed w_cameraY initialWorld]. repeat split; discriminate.
Qed.

(** X14.  As long as the clock gives no negative delta, the speed stays
    between 0 and SPRINT = 34 and the camera between the heights 1.5 and
    220, whatever keys are pressed and released and however long the frames
    are. *)
Theorem speed_and_height_bounded (r : Q) (rnd : nat -> Q) (ops : list Op) :
  Forall clockOk ops -> motionKept (runPage ops (boot r rnd)).
Proof.
  intros Hops.
  apply (runPage_inv_when clockOk); [apply motionKept_step | exact Hops |].
  apply motionKept_boot.
Qed.

Lemma speed_and_height_bounded_witness :
  Forall clockOk [op_keydown "KeyW" 0 (fun _ => 0);
                  op_keydown "ShiftLeft" 0 (fun _ => 0);
                  op_frame (1 # 60) (fun _ => 0);
                  op_frame 3 (fun _ => 0);
                  op_keyup "KeyW"; op_frame 0 (fun _ => 0)]
  /\ motionKept
       (runPage [op_keydown "KeyW" 0 (fun _ => 0);
                 op_keydown "ShiftLeft" 0 (fun _ => 0);
                 op_frame (1 # 60) (fun _ => 0);
                 op_frame 3 (fun _ => 0);
                 op_keyup "KeyW"; op_frame 0 (fun _ => 0)]
                (boot 0 (fun _ => 0))).
Proof.
  assert (H : Forall clockOk [op_keydown "KeyW" 0 (fun _ => 0);
                              op_keydown "ShiftLeft" 0 (fun _ => 0);
                              op_frame (1 # 60) (fun _ => 0);
                              op_frame 3 (fun _ => 0);
                              op_keyup "KeyW"; op_frame 0 (fun _ => 0)]).
  { repeat (apply Forall_cons; [cbn [clockOk]; first [exact I | discriminate] |]).
    apply Forall_nil. }
  split; [exact H |].
  exact (speed_and_height_bounded 0 (fun _ => 0) _ H).
Defined.

(** ** The page: the rain *)

Lemma rainDrops_box (rnd : nat -> Q) (count : nat) :
  (forall i : nat, inUnit (rnd i)) -> Forall inRainBox (rainDrops rnd count).
Proof.
  intros Hrnd. unfold rainDrops. apply Forall_map_intro. intros i.
  unfold inRainBox. cbn [vx vy vz].
  destruct (Hrnd (3 * i)%nat) as [Ha0 Ha1].
  destruct (Hrnd (3 * i + 1)%nat) as [Hb0 Hb1].
  destruct (Hrnd (3 * i + 2)%nat) as [Hc0 Hc1].
  repeat split; lra.
Qed.

Lemma fallDrop_box (dt : Q) (rnd : nat -> Q) (i : nat) (p : Vec3) :
  0 <= dt -> inUnit (rnd i) -> inRainBox p -> inRainBox (fallDrop dt rnd i p).
Proof.
  intros Hdt [Hr0 Hr1] (Hx & [Hy0 Hy1] & Hz). unfold inRainBox, fallDrop.
  cbn [vx vy vz]. split; [exact Hx |]. split; [| exact Hz].
  destruct (Qlt_le_dec (vy p - 140 * dt) (- 10)); split; lra.
Qed.

Lemma fallFrom_box (dt : Q) (rnd : nat -> Q) (ps : list Vec3) :
  0 <= dt -> (forall i : nat, inUnit (rnd i)) ->
  forall i : nat, Forall inRainBox ps -> Forall inRainBox (fallFrom dt rnd i ps).
Proof.
  intros Hdt Hrnd. induction ps as [| p ps IH]; intros i Hps; [constructor |].
  inversion Hps as [| ? ? Hp Hrest]; subst. cbn [fallFrom].
  constructor; [apply fallDrop_box; auto | apply IH; exact Hrest].
Qed.

Lemma fallFrom_length (dt : Q) (rnd : nat -> Q) (ps : list Vec3) :
  forall i : nat, List.length (fallFrom dt rnd i ps) = List.length ps.
Proof.
  induction ps as [| p ps IH]; intros i; [reflexivity |].
  cbn [fallFrom List.length]. rewrite IH. reflexivity.
Qed.

Lemma rainFall_kept (dt : Q) (rnd : nat -> Q) (rs : RainSystem) :
  0 <= dt -> (forall i : nat, inUnit (rnd i)) ->
  Forall inRainBox (rain_positions rs) ->
  rain_count (rainFall dt rnd rs) = rain_count rs
  /\ List.length (rain_positions (rainFall dt rnd rs))
     = List.length (rain_positions rs)
  /\ Forall inRainBox (rain_positions (rainFall dt rnd rs)).
Proof.
  intros Hdt Hrnd Hbox. unfold rainFall. cbn [rain_count rain_positions].
  set (n := Z.to_nat (rain_count rs)).
  rewrite <- (firstn_skipn n (rain_positions rs)) in Hbox.
  apply Forall_app in Hbox. destruct Hbox as [Hfirst Hrest].
  split; [reflexivity |]. split.
  - rewrite length_app, fallFrom_length, <- length_app, firstn_skipn.
    reflexivity.
  - apply Forall_app. split; [| exact Hrest].
    apply fallFrom_box; assumption.
Qed.

Lemma rainKept_step (op : Op) (w : World) :
  clockOk op /\ rainRandomOk op -> rainKept w -> rainKept (step op w).
Proof.
  intros [Hclock Hrnd] Hw.
  destruct op as [code r rnd | code | value r rnd | | mode rnd | delta rnd];
    cbn [step]; try exact Hw.
  - unfold keydown.
    destruct (String.eqb code "KeyR"); destruct (String.eqb code "KeyN");
      exact Hw.
  - cbn [rainRandomOk] in Hrnd. unfold rainKept, setWeather.
    cbn [w_rainSystem]. destruct (String.eqb mode "rain"); [| exact I].
    cbn [rain_count rain_positions].
    split; [reflexivity |]. split.
    + unfold rainDrops. rewrite length_map, length_seq. reflexivity.
    + apply rainDrops_box. exact Hrnd.
  - cbn [clockOk] in Hclock. cbn [rainRandomOk] in Hrnd.
    unfold rainKept in *. unfold animate, updateMovement.
    cbn [w_rainSystem].
    destruct (w_rainSystem w) as [rs |]; [| exact I]. cbn [option_map].
    destruct Hw as (Hcount & Hlen & Hbox).
    destruct (rainFall_kept (Qmin (5 # 100) delta) rnd rs) as (Hc & Hl & Hb);
      [apply frame_dt; exact Hclock | exact Hrnd | exact Hbox |].
    rewrite Hc, Hl. split; [exact Hcount |]. split; [exact Hlen | exact Hb].
Qed.

Lemma rainKept_boot (r : Q) (rnd : nat -> Q) : rainKept (boot r rnd).
Proof. exact I. Qed.

(** X15.  As long as the clock gives no negative delta and [Math.random]
    gives values in [0,1), there is a rain cloud exactly when the weather
    is "rain", and it has 9000 drops, every one of them with x and z
    between -130 and 130 around the cloud and a height between -10 and
    200: a drop that would fall below -10 starts again between 80 and 200,
    and no drop leaves the box. *)
Theorem rain_stays_in_box (r : Q) (rnd : nat -> Q) (ops : list Op) :
  Forall (fun op => clockOk op /\ rainRandomOk op) ops ->
  (w_rainSystem (runPage ops (boot r rnd)) <> None
   <-> w_weatherMode (runPage ops (boot r rnd)) = "rain"%string)
  /\ rainKept (runPage ops (boot r rnd)).
Proof.
  intros Hops. split.
  - apply (runPage_inv sceneKept); [apply sceneKept_step | apply sceneKept_boot].
  - apply (runPage_inv_when (fun op => clockOk op /\ rainRandomOk op));
      [apply rainKept_step | exact Hops | apply rainKept_boot].
Qed.

Lemma rain_stays_in_box_witness :
  Forall (fun op => clockOk op /\ rainRandomOk op)
         [op_weatherChange "rain" (fun _ => 1 # 2);
          op_frame (1 # 60) (fun _ => 1 # 2);
          op_frame 2 (fun i => if Nat.even i then 0 else 999 # 1000)]
  /\ (w_rainSystem
        (runPage [op_weatherChange "rain" (fun _ => 1 # 2);
                  op_frame (1 # 60) (fun _ => 1 # 2);
                  op_frame 2 (fun i => if Nat.even i then 0 else 999 # 1000)]
                 (boot 0 (fun _ => 0))) <> None
      <-> w_weatherMode
            (runPage [op_weatherChange "rain" (fun _ => 1 # 2);
                      op_frame (1 # 60) (fun _ => 1 # 2);
                      op_frame 2
                        (fun i => if Nat.even i then 0 else 999 # 1000)]
                     (boot 0 (fun _ => 0))) = "rain"%string)
  /\ rainKept
       (runPage [op_weatherChange "rain" (fun _ => 1 # 2);
                 op_frame (1 # 60) (fun _ => 1 # 2);
                 op_frame 2 (fun i => if Nat.even i then 0 else 999 # 1000)]
                (boot 0 (fun _ => 0))).
Proof.
  assert (H : Forall (fun op => clockOk op /\ rainRandomOk op)
                [op_weatherChange "rain" (fun _ => 1 # 2);
                 op_frame (1 # 60) (fun _ => 1 # 2);
                 op_frame 2 (fun i => if Nat.even i then 0 else 999 # 1000)]).
  { apply Forall_cons.
    { split; [exact I |]. intros i. split; [discriminate | reflexivity]. }
    apply Forall_cons.
    { split; [discriminate |]. intros i. split; [discriminate | reflexivity]. }
    apply Forall_cons; [| apply Forall_nil].
    split; [discriminate |]. intros i. cbn beta.
    destruct (Nat.even i); split; first [discriminate | reflexivity]. }
  split; [exact H |].
  exact (rain_stays_in_box 0 (fun _ => 0) _ H).
Defined.

(** ** The page: disposal of the rain clouds *)

Lemma rainGeometryCalls_app (l1 l2 : list PageCall) :
  rainGeometryCalls (l1 ++ l2) = rainGeometryCalls l1 ++ rainGeometryCalls l2.
Proof. apply flat_map_app. Qed.

Lemma rainMaterialCalls_app (l1 l2 : list PageCall) :
  rainMaterialCalls (l1 ++ l2) = rainMaterialCalls l1 ++ rainMaterialCalls l2.
Proof. apply flat_map_app. Qed.

Lemma rainCalls_city (es : list Event) :
  rainGeometryCalls (List.map call_city es) = []
  /\ rainMaterialCalls (List.map call_city es) = [].
Proof.
  split; apply flat_map_nil, Forall_map_intro; intros e; reflexivity.
Qed.

Lemma removeChild_In_other (c c' : Child) (l : list Child) :
  c <> c' -> In c l -> In c (removeChild c' l).
Proof.
  intros Hne. induction l as [| x l IH]; intros Hin; [contradiction |].
  cbn [removeChild]. destruct (Child_eq_dec x c') as [-> | Hx].
  - destruct Hin as [Heq | Hin]; [congruence | exact Hin].
  - destruct Hin as [-> | Hin]; [left; reflexivity | right; apply IH, Hin].
Qed.

Lemma rainDisposalKept_regenerate (seedArg : option Z) (r : Q)
      (rnd : nat -> Q) (w : World) :
  rainDisposalKept w -> rainDisposalKept (regenerate seedArg r rnd w).
Proof.
  intros (Hnd & Hmat & Hlt & Hrain). unfold rainDisposalKept, regenerate.
  cbn [w_calls w_nextId w_rainSystem w_children].
  destruct (rainCalls_city (disposeCity (option_map snd (w_city w)) []))
    as [Hg Hm].
  rewrite rainGeometryCalls_app, rainMaterialCalls_app, Hg, Hm, !app_nil_r.
  split; [exact Hnd |]. split; [exact Hmat |].
  split; [eapply Forall_impl; [| exact Hlt]; intros id Hid; cbn beta in *; lia |].
  destruct (w_rainSystem w) as [rs |]; [| exact I].
  destruct Hrain as (Hnot & Hin & Hid).
  split; [exact Hnot |]. split; [| lia].
  apply in_or_app. left.
  destruct (w_city w) as [[id c] |]; [| exact Hin].
  apply removeChild_In_other; [discriminate | exact Hin].
Qed.

Lemma rainDisposalKept_setWeather (mode : string) (rnd : nat -> Q) (w : World) :
  rainDisposalKept w -> rainDisposalKept (setWeather mode rnd w).
Proof.
  intros (Hnd & Hmat & Hlt & Hrain). unfold rainDisposalKept, setWeather.
  cbn [w_calls w_nextId w_rainSystem w_children].
  destruct (w_rainSystem w) as [rs |].
  - destruct Hrain as (Hnot & _ & Hid).
    rewrite rainGeometryCalls_app, rainMaterialCalls_app, Hmat.
    change (rainGeometryCalls [call_rainGeometry (rain_id rs);
                               call_rainMaterial (rain_id rs)])
      with [rain_id rs].
    change (rainMaterialCalls [call_rainGeometry (rain_id rs);
                               call_rainMaterial (rain_id rs)])
      with [rain_id rs].
    assert (Hnd' : NoDup (rainGeometryCalls (w_calls w) ++ [rain_id rs])).
    { apply NoDup_app; [exact Hnd | repeat constructor; intros [] |].
      intros x Hx [<- | []]. exact (Hnot Hx). }
    assert (Hlt' : Forall (fun id => (id < w_nextId w)%nat)
                          (rainGeometryCalls (w_calls w) ++ [rain_id rs])).
    { apply Forall_app. split; [exact Hlt |]. repeat constructor. exact Hid. }
    split; [exact Hnd' |]. split; [reflexivity |].
    destruct (String.eqb mode "rain").
    + split; [eapply Forall_impl; [| exact Hlt']; intros id H; cbn beta in *; lia |].
      cbn [rain_id]. split; [| split; [| lia]].
      * intros Hin. rewrite Forall_forall in Hlt'. apply Hlt' in Hin. lia.
      * apply in_or_app. right. left. reflexivity.
    + split; [exact Hlt' | exact I].
  - split; [exact Hnd |]. split; [exact Hmat |].
    destruct (String.eqb mode "rain").
    + split; [eapply Forall_impl; [| exact Hlt]; intros id H; cbn beta in *; lia |].
      cbn [rain_id]. split; [| split; [| lia]].
      * intros Hin. rewrite Forall_forall in Hlt. apply Hlt in Hin. lia.
      * apply in_or_app. right. left. reflexivity.
    + split; [exact Hlt | exact I].
Qed.

Lemma rainDisposalKept_step (op : Op) (w : World) :
  rainDisposalKept w -> rainDisposalKept (step op w).
Proof.
  intros Hw.
  destruct op as [code r rnd | code | value r rnd | | mode rnd | delta rnd];
    cbn [step].
  - unfold keydown.
    set (w1 := withKeys (setKeys true code (w_keys w)) w).
    assert (H1 : rainDisposalKept w1) by exact Hw.
    set (w2 := if String.eqb code "KeyR" then regenerate None r rnd w1 else w1).
    assert (H2 : rainDisposalKept w2).
    { unfold w2. destruct (String.eqb code "KeyR"); [| exact H1].
      apply rainDisposalKept_regenerate. exact H1. }
    destruct (String.eqb code "KeyN"); exact H2.
  - exact Hw.
  - unfold densityChange. apply rainDisposalKept_regenerate. exact Hw.
  - exact Hw.
  - apply rainDisposalKept_setWeather. exact Hw.
  - destruct Hw as (Hnd & Hmat & Hlt & Hrain).
    unfold rainDisposalKept, animate, updateMovement.
    cbn [w_calls w_nextId w_rainSystem w_children].
    split; [exact Hnd |]. split; [exact Hmat |]. split; [exact Hlt |].
    destruct (w_rainSystem w) as [rs |]; exact Hrain.
Qed.

Lemma rainDisposalKept_boot (r : Q) (rnd : nat -> Q) :
  rainDisposalKept (boot r rnd).
Proof.
  unfold boot. apply rainDisposalKept_setWeather, rainDisposalKept_regenerate.
  unfold rainDisposalKept. cbn [initialWorld w_calls w_nextId w_rainSystem].
  split; [constructor |]. split; [reflexivity |]. split; [constructor | exact I].
Qed.

(** X16.  After the start and any events and frames, no rain cloud has been
    disposed of twice, the material of a cloud was disposed of whenever
    its geometry was, and the cloud that is in the scene has not been
    disposed of: [setWeather] releases a cloud once, when it takes it out
    of the scene. *)
Theorem rain_cloud_disposed_once (r : Q) (rnd : nat -> Q) (ops : list Op) :
  rainDisposalKept (runPage ops (boot r rnd)).
Proof.
  apply runPage_inv; [apply rainDisposalKept_step | apply rainDisposalKept_boot].
Qed.

(** ** The page: the seed *)

Lemma random_seed_range (r : Q) :
  inUnit r -> (0 <= Qfloor (r * 1000000000) < 1000000000)%Z.
Proof.
  intros [H0 H1]. split.
  - change 0%Z with (Qfloor 0). apply Qfloor_resp_le. nra.
  - rewrite Zlt_Qlt.
    apply Qle_lt_trans with (r * 1000000000); [apply Qfloor_le |].
    change (inject_Z 1000000000) with 1000000000. nra.
Qed.

Lemma seedKept_regenerate (seedArg : option Z) (r : Q) (rnd : nat -> Q)
      (w : World) :
  match seedArg with
  | Some s => (0 <= s < 1000000000)%Z
  | None => inUnit r
  end ->
  seedKept (regenerate seedArg r rnd w).
Proof.
  intros Hs. unfold seedKept, regenerate. cbn [w_city w_hud].
  eexists _, _, _. split; [reflexivity |].
  rewrite !createCity_seed. cbn [hud_seed].
  split; [| split; reflexivity].
  destruct seedArg as [s |]; [exact Hs | apply random_seed_range; exact Hs].
Qed.

Lemma seedKept_step (op : Op) (w : World) :
  seedRandomOk op -> seedKept w -> seedKept (step op w).
Proof.
  intros Hop Hw.
  assert (Hnight : forall night w', seedKept w' -> seedKept (setDayNight night w')).
  { intros night w' (id & c & h & Hc & Hs & Hh & Hhs).
    unfold seedKept, setDayNight. cbn [w_city w_hud]. rewrite Hc.
    eexists _, _, h. split; [reflexivity |].
    change (seed (setBuildingEmissive _ c)) with (seed c).
    split; [exact Hs |]. split; [exact Hh | exact Hhs]. }
  destruct op as [code r rnd | code | value r rnd | | mode rnd | delta rnd];
    cbn [step].
  - cbn [seedRandomOk] in Hop. unfold keydown.
    set (w1 := withKeys (setKeys true code (w_keys w)) w).
    assert (H1 : seedKept w1) by exact Hw.
    set (w2 := if String.eqb code "KeyR" then regenerate None r rnd w1 else w1).
    assert (H2 : seedKept w2).
    { unfold w2. destruct (String.eqb code "KeyR"); [| exact H1].
      apply seedKept_regenerate. exact Hop. }
    destruct (String.eqb code "KeyN"); [| exact H2].
    apply Hnight. exact H2.
  - exact Hw.
  - destruct Hw as (id & c & h & Hc & Hs & _). unfold densityChange.
    apply seedKept_regenerate. cbn [withDensity w_city]. rewrite Hc.
    cbn [option_map snd]. exact Hs.
  - apply Hnight. exact Hw.
  - exact Hw.
  - destruct Hw as (id & c & h & Hc & Hs & Hh & Hhs).
    unfold seedKept, animate, updateMovement. cbn [w_city w_hud]. rewrite Hc.
    eexists _, _, h. split; [reflexivity |].
    cbn [trafficFrame seed]. split; [exact Hs |]. split; [exact Hh | exact Hhs].
Qed.

(** X17.  As long as [Math.random] gives values in [0,1), the seed of the
    current city is a natural number below 10^9 and the HUD shows it,
    after the start and any events and frames: a seed that [regenerate]
    draws is such a number, and the slider and the day button keep the
    seed of the city. *)
Theorem seed_below_10_9 (r : Q) (rnd : nat -> Q) (ops : list Op) :
  inUnit r -> Forall seedRandomOk ops ->
  seedKept (runPage ops (boot r rnd)).
Proof.
  intros Hr Hops.
  apply (runPage_inv_when seedRandomOk); [apply seedKept_step | exact Hops |].
  unfold boot.
  change (seedKept (regenerate None r rnd initialWorld)).
  apply seedKept_regenerate. exact Hr.
Qed.

Lemma seed_below_10_9_witness :
  inUnit (123456789 # 1000000000)
  /\ Forall seedRandomOk [op_keydown "KeyR" (999999999 # 1000000000) (fun _ => 0);
                          op_densityChange 2 5 (fun _ => 0);
                          op_toggleDay]
  /\ seedKept
       (runPage [op_keydown "KeyR" (999999999 # 1000000000) (fun _ => 0);
                 op_densityChange 2 5 (fun _ => 0);
                 op_toggleDay]
                (boot (123456789 # 1000000000) (fun _ => 0))).
Proof.
  assert (Hr : inUnit (123456789 # 1000000000))
    by (split; [discriminate | reflexivity]).
  assert (H : Forall seedRandomOk
                [op_keydown "KeyR" (999999999 # 1000000000) (fun _ => 0);
                 op_densityChange 2 5 (fun _ => 0);
                 op_toggleDay]).
  { apply Forall_cons; [split; [discriminate | reflexivity] |].
    apply Forall_cons; [exact I |].
    apply Forall_cons; [exact I | apply Forall_nil]. }
  split; [exact Hr |]. split; [exact H |].
  exact (seed_below_10_9 _ (fun _ => 0) _ Hr H).
Defined.

(** ** The page: vehicles in a frame *)

Lemma tickCar_ok (dt : Q) (car : Car) :
  0 <= dt -> vehicleOk car -> vehicleOk (tickCar dt car).
Proof.
  intros Hdt ([Hs0 Hs1] & [Ht0 Ht1] & HL). unfold vehicleOk.
  cbn [tickCar car_speed car_t car_length].
  split; [split; assumption |]. split; [| exact HL].
  apply mod1_range. rewrite HL.
  assert (0 <= car_speed car * dt / 910).
  { apply Qle_shift_div_l; [reflexivity | nra]. }
  lra.
Qed.

Lemma Qfloor_0_or_1 (x : Q) :
  0 <= x -> x < 2 -> Qfloor x = 0%Z \/ Qfloor x = 1%Z.
Proof.
  intros H0 H2.
  assert (Hlo : (0 <= Qfloor x)%Z)
    by (change 0%Z with (Qfloor 0); apply Qfloor_resp_le; exact H0).
  assert (Hhi : (Qfloor x < 2)%Z).
  { rewrite Zlt_Qlt. apply Qle_lt_trans with x; [apply Qfloor_le | exact H2]. }
  lia.
Qed.

Lemma tickCar_movesLittle (dt : Q) (car : Car) :
  0 <= dt <= 5 # 100 -> vehicleOk car -> movesLittle car (tickCar dt car).
Proof.
  intros [Hd0 Hd1] ([Hs0 Hs1] & [Ht0 Ht1] & HL). unfold movesLittle.
  split; [reflexivity |]. split; [reflexivity |].
  exists (car_speed car * dt).
  split; [split; nra |].
  unfold lanePos. cbn [tickCar car_t car_length].
  set (x := car_t car + car_speed car * dt / car_length car).
  assert (Hinc : 0 <= car_speed car * dt / car_length car < 1).
  { rewrite HL. split.
    - apply Qle_shift_div_l; [reflexivity | nra].
    - apply Qlt_shift_div_r; [reflexivity | nra]. }
  assert (Hx0 : 0 <= x) by (unfold x; lra).
  assert (Hx2 : x < 2) by (unfold x; lra).
  rewrite (mod1_nonneg_eq x Hx0).
  destruct (Qfloor_0_or_1 x Hx0 Hx2) as [-> | ->]; [left | right];
    unfold x; rewrite HL; field.
Qed.

Lemma trafficKept_step (op : Op) (w : World) :
  clockOk op -> trafficKept w -> trafficKept (step op w).
Proof.
  intros Hop Hw.
  assert (Hregen : forall seedArg r rnd w',
             trafficKept (regenerate seedArg r rnd w')).
  { intros seedArg r rnd w'. unfold trafficKept, regenerate. cbn [w_city].
    eexists _, _. split; [reflexivity |].
    eapply Forall_impl; [| apply createCity_cars].
    intros car (_ & Hs & Ht & HL). repeat split; try apply Hs; try apply Ht.
    exact HL. }
  assert (Hnight : forall night w',
             trafficKept w' -> trafficKept (setDayNight night w')).
  { intros night w' (id & c & Hc & Hcars).
    unfold trafficKept, setDayNight. cbn [w_city]. rewrite Hc.
    eexists _, _. split; [reflexivity | exact Hcars]. }
  destruct op as [code r rnd | code | value r rnd | | mode rnd | delta rnd];
    cbn [step].
  - unfold keydown.
    set (w1 := withKeys (setKeys true code (w_keys w)) w).
    set (w2 := if String.eqb code "KeyR" then regenerate None r rnd w1 else w1).
    assert (H2 : trafficKept w2).
    { unfold w2. destruct (String.eqb code "KeyR"); [apply Hregen | exact Hw]. }
    destruct (String.eqb code "KeyN"); [apply Hnight |]; exact H2.
  - exact Hw.
  - apply Hregen.
  - apply Hnight. exact Hw.
  - exact Hw.
  - cbn [clockOk] in Hop. destruct Hw as (id & c & Hc & Hcars).
    unfold trafficKept, animate, updateMovement. cbn [w_city]. rewrite Hc.
    eexists _, _. split; [reflexivity |]. cbn [trafficFrame cars].
    apply Forall_forall. intros car' Hin. apply in_map_iff in Hin.
    destruct Hin as (car & <- & Hin). rewrite Forall_forall in Hcars.
    apply tickCar_ok; [apply frame_dt; exact Hop | apply Hcars; exact Hin].
Qed.

Lemma Forall2_map_r {A B} (R : A -> B -> Prop) (f : A -> B) (l : list A) :
  Forall (fun x => R x (f x)) l -> Forall2 R l (List.map f l).
Proof.
  induction 1 as [| x l Hx _ IH]; cbn [List.map]; constructor; assumption.
Qed.

(** X18.  As long as the clock gives no negative delta, a frame moves every
    vehicle of the current city forward along its own lane by less than
    1.3, however long the frame was, or takes it from the end of the lane
    to its start: the step of a frame is speed * dt with a speed below 26
    and dt at most 0.05. *)
Theorem frame_moves_vehicles_little (r : Q) (rnd : nat -> Q) (ops : list Op)
        (delta : Q) (rnd' : nat -> Q) :
  Forall clockOk ops -> 0 <= delta ->
  exists (id : nat) (c c' : City),
    w_city (runPage ops (boot r rnd)) = Some (id, c)
    /\ w_city (animate delta rnd' (runPage ops (boot r rnd))) = Some (id, c')
    /\ List.length (cars c) = 144%nat
    /\ Forall2 movesLittle (cars c) (cars c').
Proof.
  intros Hops Hdelta.
  assert (Hkept : trafficKept (runPage ops (boot r rnd))).
  { apply (runPage_inv_when clockOk); [apply trafficKept_step | exact Hops |].
    unfold boot, trafficKept, setWeather, regenerate. cbn [w_city].
    eexists _, _. split; [reflexivity |].
    eapply Forall_impl; [| apply createCity_cars].
    intros car (_ & Hs & Ht & HL). repeat split; try apply Hs; try apply Ht.
    exact HL. }
  destruct (cityKept_reachable r rnd ops) as (id0 & c0 & Hc0 & _ & Hn & _).
  destruct Hkept as (id & c & Hc & Hcars).
  rewrite Hc in Hc0. injection Hc0 as <- <-.
  exists id, c. eexists. split; [exact Hc |].
  unfold animate, updateMovement. cbn [w_city]. rewrite Hc.
  split; [reflexivity |]. split; [exact Hn |].
  cbn [trafficFrame cars]. apply Forall2_map_r.
  eapply Forall_impl; [| exact Hcars].
  intros car Hcar. apply tickCar_movesLittle; [apply frame_dt | ]; assumption.
Qed.

Lemma frame_moves_vehicles_little_witness :
  Forall clockOk [op_frame (1 # 60) (fun _ => 0); op_toggleDay;
                  op_frame 4 (fun _ => 0)]
  /\ 0 <= 10
  /\ exists (id : nat) (c c' : City),
       w_city (runPage [op_frame (1 # 60) (fun _ => 0); op_toggleDay;
                        op_frame 4 (fun _ => 0)]
                       (boot 0 (fun _ => 0))) = Some (id, c)
       /\ w_city (animate 10 (fun _ => 0)
                    (runPage [op_frame (1 # 60) (fun _ => 0); op_toggleDay;
                              op_frame 4 (fun _ => 0)]
                             (boot 0 (fun _ => 0)))) = Some (id, c')
       /\ List.length (cars c) = 144%nat
       /\ Forall2 movesLittle (cars c) (cars c').
Proof.
  assert (H : Forall clockOk [op_frame (1 # 60) (fun _ => 0); op_toggleDay;
                              op_frame 4 (fun _ => 0)]).
  { apply Forall_cons; [discriminate |].
    apply Forall_cons; [exact I |].
    apply Forall_cons; [discriminate | apply Forall_nil]. }
  assert (Hd : 0 <= 10) by discriminate.
  split; [exact H |]. split; [exact Hd |].
  exact (frame_moves_vehicles_little 0 (fun _ => 0) _ 10 (fun _ => 0) H Hd).
Defined.

(** ** The page: easing of the speed *)

(** X19.  In a frame whose delta is not negative the distance of the speed
    to its target shrinks by a factor between 0.6 and 1 and keeps its
    sign: the speed goes towards the target of the pressed keys, never
    past it, and the bound 1 of [Math.min(1, ...)] is never reached, since
    [dt] is at most 0.05 and the rates are 6 and 8. *)
Theorem speed_eases_towards_target (delta : Q) (rnd : nat -> Q) (w : World) :
  0 <= delta ->
  exists f : Q,
    6 # 10 <= f <= 1
    /\ targetSpeed (w_keys w) - w_speed (animate delta rnd w)
       == (targetSpeed (w_keys w) - w_speed w) * f.
Proof.
  intros Hdelta. destruct (frame_dt delta Hdelta) as [Hd0 Hd1].
  unfold animate, updateMovement. cbn [w_speed]. unfold nextSpeed. cbn zeta.
  set (dt := Qmin (5 # 100) delta) in *.
  set (rate := if Qlt_le_dec (w_speed w) (targetSpeed (w_keys w))
               then 6 else FRICTION).
  assert (Hrate : 6 <= rate <= 8).
  { unfold rate, FRICTION. destruct (Qlt_le_dec _ _); split; discriminate. }
  destruct Hrate as [Hr0 Hr1].
  assert (Hle : dt * rate <= 1) by nra.
  exists (1 - dt * rate). split; [split; nra |].
  rewrite (Q.min_r _ _ Hle). ring.
Qed.

Lemma speed_eases_towards_target_witness :
  0 <= 1 # 30
  /\ exists f : Q,
       6 # 10 <= f <= 1
       /\ targetSpeed (w_keys (keydown "KeyW" 0 (fun _ => 0) initialWorld))
          - w_speed (animate (1 # 30) (fun _ => 0)
                       (keydown "KeyW" 0 (fun _ => 0) initialWorld))
          == (targetSpeed (w_keys (keydown "KeyW" 0 (fun _ => 0) initialWorld))
              - w_speed (keydown "KeyW" 0 (fun _ => 0) initialWorld)) * f.
Proof.
  assert (Hd : 0 <= 1 # 30) by discriminate.
  split; [exact Hd |].
  exact (speed_eases_towards_target (1 # 30) (fun _ => 0)
           (keydown "KeyW" 0 (fun _ => 0) initialWorld) Hd).
Defined.

(** ** The sun *)

(** X20.  Whatever the clock shows, by day and by night, the sun is between
    the heights 150 and 250, on a circle of radius 150 around the vertical
    axis: it never comes near the horizon. *)
Theorem sun_stays_high (now : R) :
  let '(x, y, z) := sunPosition now in
  (150 <= y <= 250)%R /\ (x * x + z * z = 150 * 150)%R.
Proof.
  unfold sunPosition. cbn zeta.
  set (t := (now * (5 / 100000))%R).
  pose proof (SIN_bound t) as [Hlo Hhi].
  pose proof (sin2_cos2 t) as Hsq. unfold Rsqr in Hsq.
  split; [split; lra | nra].
Qed.
